(** * spriteswarm: the automation matching-and-dispatch engine

    A shallow embedding of the TypeScript sources: the path resolver and
    match evaluator (engine/matcher.ts), the template renderer
    (engine/template.ts), the source adapters (adapters/*.ts), the cron
    scheduler (cron/scheduler.ts), the executor (engine/executor.ts) and the
    webhook dispatcher (routes/webhook.ts).

    JavaScript strings are sequences of UTF-16 code units, modelled as
    [list N].  Code that can throw is modelled in the [outcome] monad, with
    [try_catch] for the source's try/catch blocks.  Services the program
    imports (the JavaScript runtime's built-ins, node:crypto, node-cron,
    Mustache, fetch) are interfaces: type classes whose operations the
    program calls and whose implementation is not part of the repository. *)

From Stdlib Require Import ZArith NArith List Ascii String Bool Lia.
From Stdlib Require Import SpecFloat DecimalString.
From stdpp Require Import base option list gmap.

Local Open Scope N_scope.
Local Set Warnings "-register-all".

(* ===================================================================== *)
(** ** JavaScript strings *)
(* ===================================================================== *)

(** A string is its list of UTF-16 code units. *)
Abbreviation jstring := (list N).

(** ASCII text of the sources, as code units. *)
Definition str (s : string) : jstring :=
  map N_of_ascii (list_ascii_of_string s).
Arguments str s%_string : simpl never.

(** [a === b] on strings. *)
Definition str_eqb (a b : jstring) : bool := bool_decide (a = b).

(** ECMAScript WhiteSpace and LineTerminator code points: what [\s] matches
    in a regular expression and what [String.prototype.trim] strips. *)
Definition is_space (c : N) : bool :=
  (9 <=? c) && (c <=? 13)
  || (c =? 32) || (c =? 160) || (c =? 5760)
  || (8192 <=? c) && (c <=? 8202)
  || (c =? 8232) || (c =? 8233) || (c =? 8239) || (c =? 8287)
  || (c =? 12288) || (c =? 65279).

(** LineTerminator code points: what [.] refuses without the [s] flag. *)
Definition is_line_terminator (c : N) : bool :=
  (c =? 10) || (c =? 13) || (c =? 8232) || (c =? 8233).

(** The regular expression atom [.]. *)
Definition dot (c : N) : bool := negb (is_line_terminator c).

Fixpoint trim_start (s : jstring) : jstring :=
  match s with
  | c :: s' => if is_space c then trim_start s' else s
  | [] => []
  end.

(** [s.trim()] *)
Definition trim (s : jstring) : jstring :=
  rev (trim_start (rev (trim_start s))).

(** [s.split(sep)] for a one-character separator: never empty. *)
Fixpoint split_on (sep : N) (s : jstring) : list jstring :=
  match s with
  | [] => [[]]
  | c :: s' =>
      if c =? sep then [] :: split_on sep s'
      else match split_on sep s' with
           | p :: ps => (c :: p) :: ps
           | [] => [[c]]
           end
  end.

(** [s.startsWith(p)] *)
Fixpoint startsWith (s p : jstring) {struct p} : bool :=
  match p, s with
  | [], _ => true
  | _ :: _, [] => false
  | a :: p', c :: s' => (c =? a) && startsWith s' p'
  end.

(** [s.endsWith(p)] *)
Definition endsWith (s p : jstring) : bool := startsWith (rev s) (rev p).

(** [s.includes(p)] *)
Fixpoint includes (s p : jstring) : bool :=
  startsWith s p ||
  match s with
  | [] => false
  | _ :: s' => includes s' p
  end.

(** [s.slice(1, -1)] *)
Definition slice_1_m1 (s : jstring) : jstring :=
  take (length s - 2)%nat (drop 1 s).

(* ===================================================================== *)
(** ** Exceptions *)
(* ===================================================================== *)

(** A thrown value: an [Error] object with its message. *)
Inductive exn := JsError (message : jstring).

(** The result of running code that may throw. *)
Inductive outcome (A : Type) : Type :=
| Ok (a : A)
| Throw (e : exn).
Arguments Ok {A} a.
Arguments Throw {A} e.

#[global] Instance outcome_ret : MRet outcome := fun A a => Ok a.
#[global] Instance outcome_bind : MBind outcome := fun A B f m =>
  match m with
  | Ok a => f a
  | Throw e => Throw e
  end.

(** [try { body } catch (e) { handler(e) }] *)
Definition try_catch {A} (body : outcome A) (handler : exn -> outcome A)
  : outcome A :=
  match body with
  | Ok a => Ok a
  | Throw e => handler e
  end.

Definition returns {A} (m : outcome A) : Prop := exists a, m = Ok a.

#[global] Instance exn_eq_dec : EqDecision exn.
Proof. solve_decision. Defined.

#[global] Instance outcome_eq_dec {A} `{EqDecision A} : EqDecision (outcome A).
Proof. solve_decision. Defined.

(* ===================================================================== *)
(** ** JavaScript values *)
(* ===================================================================== *)

(** Numbers are IEEE 754 doubles. *)
Abbreviation number := spec_float.

(** The untyped value tree of a parsed payload, with the other values a
    property lookup can produce ([undefined], built-in functions). *)
Inductive value :=
| VUndefined
| VNull
| VBool (b : bool)
| VNumber (n : number)
| VString (s : jstring)
| VArray (elems : list value)
| VObject (props : list (jstring * value))
| VFunction (name : jstring).

Inductive jstype :=
| TUndefined | TObject | TBoolean | TNumber | TString | TFunction.

#[global] Instance jstype_eq_dec : EqDecision jstype.
Proof. solve_decision. Defined.

(** [typeof v]: [null] and arrays are ['object']. *)
Definition typeof (v : value) : jstype :=
  match v with
  | VUndefined => TUndefined
  | VNull => TObject
  | VBool _ => TBoolean
  | VNumber _ => TNumber
  | VString _ => TString
  | VArray _ => TObject
  | VObject _ => TObject
  | VFunction _ => TFunction
  end.

(** The double nearest to an integer. *)
Definition number_of_Z (z : Z) : number :=
  binary_normalize 53 1024 z 0 false.

Definition isNaN (n : number) : bool :=
  match n with
  | S754_nan => true
  | _ => false
  end.

(** The first own property named [key]. *)
Fixpoint own_property (props : list (jstring * value)) (key : jstring)
  : option value :=
  match props with
  | [] => None
  | (k, v) :: rest => if str_eqb k key then Some v else own_property rest key
  end.

Definition is_digit (c : N) : bool := (48 <=? c) && (c <=? 57).

(** An array index in canonical form: decimal digits, no leading zero. *)
Definition array_index (key : jstring) : option nat :=
  match key with
  | [] => None
  | c :: rest =>
      if forallb is_digit key && ((negb (c =? 48)) || bool_decide (rest = []))
      then Some (N.to_nat (fold_left (fun acc d => 10 * acc + (d - 48)) key 0))
      else None
  end.

(** What the program takes from the JavaScript runtime. *)
Class JsRuntime := {
  (** the lookup of a property that is not an own property: the prototype
      chain of an object or array, the wrapper of a primitive *)
  proto_get : value -> jstring -> value;
  (** whether that lookup finds a property *)
  proto_has : value -> jstring -> bool;
  (** [Number(s)] on a string *)
  StringToNumber : jstring -> number;
  (** the primitive an object, array or function converts to in [==]
      (ToPrimitive without hint): a string for the values a parsed payload
      holds, and a TypeError when neither its [valueOf] nor its [toString]
      is a function that gives a primitive, as for the parsed object
      [{toString: 0}] *)
  ToPrimitive : value -> outcome jstring;
  (** the text of an object, array or function in a template literal
      (ToString): a TypeError in the same way *)
  ToString : value -> outcome jstring;
  (** [s.toUpperCase()] *)
  toUpperCase : jstring -> jstring;
  (** [JSON.parse] *)
  JSON_parse : jstring -> outcome value;
  (** [encodeURIComponent] *)
  encodeURIComponent : jstring -> outcome jstring;
}.

(** [current === null || current === undefined] *)
Definition is_nullish (v : value) : bool :=
  match v with
  | VUndefined | VNull => true
  | _ => false
  end.

(** A value getNestedValue indexes into: an object or an array. *)
Definition composite (v : value) : bool :=
  negb (is_nullish v) && bool_decide (typeof v = TObject).

(** [!!v] (ToBoolean) *)
Definition to_boolean (v : value) : bool :=
  match v with
  | VUndefined | VNull => false
  | VBool b => b
  | VNumber (S754_zero _) | VNumber S754_nan => false
  | VNumber _ => true
  | VString s => negb (bool_decide (s = []))
  | VArray _ | VObject _ | VFunction _ => true
  end.

(** The TypeError of a property read on [null] or [undefined], in the
    words of Node. *)
Definition cannot_read (v : value) (key : jstring) : exn :=
  JsError (str "Cannot read properties of "
           ++ match v with
              | VNull => str "null"
              | _ => str "undefined"
              end
           ++ str " (reading '" ++ key ++ str "')").

Section PathResolver.
Context `{RT : JsRuntime}.

(** [v[key]]: a TypeError on [null] and [undefined]. *)
Definition get_property (v : value) (key : jstring) : outcome value :=
  match v with
  | VUndefined | VNull => Throw (cannot_read v key)
  | VObject props =>
      Ok (match own_property props key with
          | Some x => x
          | None => proto_get v key
          end)
  | VArray elems =>
      Ok (match array_index key with
          | Some i =>
              match elems !! i with
              | Some x => x
              | None => proto_get v key
              end
          | None =>
              if str_eqb key (str "length")
              then VNumber (number_of_Z (Z.of_nat (length elems)))
              else proto_get v key
          end)
  | _ => Ok (proto_get v key)
  end.

(** The loop of getNestedValue over the remaining parts. *)
Fixpoint walk (parts : list jstring) (current : value) : outcome value :=
  match parts with
  | [] => Ok current
  | part :: rest =>
      if is_nullish current then Ok VUndefined
      else if negb (bool_decide (typeof current = TObject)) then Ok VUndefined
      else next ← get_property current part; walk rest next
  end.

(** matcher.ts, getNestedValue *)
Definition getNestedValue (obj : value) (path : jstring) : outcome value :=
  walk (split_on 46 path) obj.

End PathResolver.

(* ===================================================================== *)
(** ** Match evaluator (engine/matcher.ts) *)
(* ===================================================================== *)

(** The backtracking matcher of the two regular expressions of
    evaluateExpression, one combinator per construct.  A combinator takes
    the matcher of what follows it; [None] makes the enclosing quantifier
    try its next alternative. *)
Section Regex.
Context {A : Type}.

(** [p*], greedy: the longest run first, then shorter ones. *)
Fixpoint greedy_star (p : N -> bool) (k : jstring -> option A)
    (s : jstring) : option A :=
  match s with
  | c :: s' =>
      if p c then
        match greedy_star p k s' with
        | Some r => Some r
        | None => k s
        end
      else k s
  | [] => k []
  end.

(** [(p+?)], lazy and captured: one character first, then longer runs;
    [acc] holds the characters taken so far, last first. *)
Fixpoint lazy_plus (p : N -> bool) (k : jstring -> jstring -> option A)
    (acc s : jstring) : option A :=
  match s with
  | c :: s' =>
      if p c then
        match k (rev (c :: acc)) s' with
        | Some r => Some r
        | None => lazy_plus p k (c :: acc) s'
        end
      else None
  | [] => None
  end.

(** [(p+)], greedy and captured. *)
Fixpoint greedy_plus (p : N -> bool) (k : jstring -> jstring -> option A)
    (acc s : jstring) : option A :=
  match s with
  | c :: s' =>
      if p c then
        match greedy_plus p k (c :: acc) s' with
        | Some r => Some r
        | None => k (rev (c :: acc)) s'
        end
      else None
  | [] => None
  end.

(** A literal string. *)
Definition literal (l : jstring) (k : jstring -> option A) (s : jstring)
  : option A :=
  if startsWith s l then k (drop (length l) s) else None.

(** [$] without the [m] flag: the end of the input. *)
Definition at_end (r : A) (s : jstring) : option A :=
  match s with
  | [] => Some r
  | _ :: _ => None
  end.

End Regex.

(** [expression.match(/^(.+?)\s*OP\s*(.+)$/)] for the operator [op]:
    the two captured groups, or [None] for [null]. *)
Definition match_operator (op expression : jstring)
  : option (jstring * jstring) :=
  lazy_plus dot
    (fun path =>
       greedy_star is_space
         (literal op
            (greedy_star is_space
               (greedy_plus dot (fun lit => at_end (path, lit)) []))))
    [] expression.

Section Matcher.
Context `{RT : JsRuntime}.

(** matcher.ts, parseLiteral: a boolean, a string or a number. *)
Definition parseLiteral (v : jstring) : value :=
  let trimmed := trim v in
  if str_eqb trimmed (str "true") then VBool true
  else if str_eqb trimmed (str "false") then VBool false
  else if (startsWith trimmed [34] && endsWith trimmed [34])
          || (startsWith trimmed [39] && endsWith trimmed [39])
  then VString (slice_1_m1 trimmed)
  else
    let num := StringToNumber trimmed in
    if negb (isNaN num) then VNumber num else VString trimmed.

(** [ToNumber] on a boolean, number or string. *)
Definition ToNumber (v : value) : option number :=
  match v with
  | VBool b => Some (number_of_Z (if b then 1 else 0))
  | VNumber n => Some n
  | VString s => Some (StringToNumber s)
  | _ => None
  end.

(** [x == y] when both are booleans, numbers or strings: two strings
    compare as strings, every other pair as numbers. *)
Definition loose_eq_primitive (x y : value) : bool :=
  match x, y with
  | VString a, VString b => str_eqb a b
  | _, _ =>
      match ToNumber x, ToNumber y with
      | Some a, Some b => SFeqb a b
      | _, _ => false
      end
  end.

(** [x == lit] (IsLooselyEqual) for a literal of parseLiteral: [null] and
    [undefined] equal no literal, an object is converted to a primitive
    first, and that conversion can throw. *)
Definition loose_eq (x lit : value) : outcome bool :=
  match x with
  | VUndefined | VNull => Ok false
  | VArray _ | VObject _ | VFunction _ =>
      primitive ← ToPrimitive x;
      Ok (loose_eq_primitive (VString primitive) lit)
  | _ => Ok (loose_eq_primitive x lit)
  end.

(** matcher.ts, evaluateExpression.  The warning it logs for an
    expression without operator is not modelled: the expression in it is
    a string. *)
Definition evaluateExpression (expression : jstring) (context : value)
  : outcome bool :=
  match match_operator (str "!=") expression with
  | Some (path, literalStr) =>
      actualValue ← getNestedValue context (trim path);
      let expectedValue := parseLiteral literalStr in
      equal ← loose_eq actualValue expectedValue;
      Ok (negb equal)
  | None =>
      match match_operator (str "==") expression with
      | Some (path, literalStr) =>
          actualValue ← getNestedValue context (trim path);
          let expectedValue := parseLiteral literalStr in
          loose_eq actualValue expectedValue
      | None => Ok false
      end
  end.

(** The call [evaluateExpression(expr, context)] on an element of a list
    that was not checked: on a string it is evaluateExpression, and
    nothing else has a method [match]. *)
Definition evaluate_element (expr context : value) : outcome bool :=
  match expr with
  | VString expression => evaluateExpression expression context
  | _ =>
      _ ← get_property expr (str "match");
      Throw (JsError (str "expression.match is not a function"))
  end.

(** [xs.every(f)]: stops at the first element [f] refuses. *)
Fixpoint every {A} (f : A -> outcome bool) (xs : list A) : outcome bool :=
  match xs with
  | [] => Ok true
  | x :: rest => b ← f x; if b : bool then every f rest else Ok false
  end.

(** The context object [{ payload }]. *)
Definition match_context (payload : value) : value :=
  VObject [(str "payload", payload)].

(** [v === 0] *)
Definition is_zero (v : value) : bool :=
  match v with
  | VNumber (S754_zero _) => true
  | _ => false
  end.

(** [v.length === 0]: the length of an array is the number of its
    elements. *)
Definition length_is_zero (v : value) : outcome bool :=
  match v with
  | VArray elems => Ok (length elems =? 0)%nat
  | _ => len ← get_property v (str "length"); Ok (is_zero len)
  end.

(** An array of strings, as a value. *)
Definition string_array (xs : list jstring) : value :=
  VArray (map VString xs).

(** matcher.ts, evaluateMatches.  [expressions] is the [match] of an
    automation, which nothing has checked: [undefined] when the document
    has none, an array of strings when the document is as types.ts says,
    and any other value of a document otherwise.  Only an array has a
    method [every]. *)
Definition evaluateMatches (expressions payload : value) : outcome bool :=
  if negb (to_boolean expressions) then Ok true
  else
    empty ← length_is_zero expressions;
    if empty : bool then Ok true
    else
      let context := match_context payload in
      match expressions with
      | VArray exprs => every (fun expr => evaluate_element expr context) exprs
      | _ => Throw (JsError (str "expressions.every is not a function"))
      end.

End Matcher.

(* ===================================================================== *)
(** ** Data model (types.ts) *)
(* ===================================================================== *)

Record SpriteConfig := {
  name : jstring;
  path : jstring;
  cmd : option jstring;
  workdir : option jstring;
}.

(** [WebhookSource | CronSource] as the type guards see it at run time: an
    object with a [type] that has an [events] property, a [schedule]
    property, or both.  The events are an array, which parseAutomationYaml
    checks; it looks at no element of it, and they are kept as the values
    they are. *)
Record Source := {
  source_type : jstring;
  events : option (list value);
  schedule : option jstring;
}.

(** An automation as types.ts declares it, but for [match]: no code
    checks that field of a stored document (parseAutomationYaml does not
    look at it), so it is kept as the value it is, [undefined] when the
    document has none. *)
Record Automation := {
  id : jstring;
  description : option jstring;
  sprite : SpriteConfig;
  source : Source;
  match_ : value;
  run : jstring;
}.

(** [source.type !== 'cron' && 'events' in source] *)
Definition isWebhookSource (s : Source) : bool :=
  negb (str_eqb (source_type s) (str "cron")) && bool_decide (is_Some (events s)).

(** [source.type === 'cron' && 'schedule' in source] *)
Definition isCronSource (s : Source) : bool :=
  str_eqb (source_type s) (str "cron") && bool_decide (is_Some (schedule s)).

Record TemplateContext := {
  ctx_payload : value;
  ctx_sprite : SpriteConfig;
}.

Record ExecutionResult := {
  automationId : jstring;
  success : bool;
  error : option jstring;
}.

(** Truthiness of a value that is a string, [null] or [undefined]. *)
Definition truthy (s : option jstring) : bool :=
  match s with
  | Some (_ :: _) => true
  | _ => false
  end.

(* ===================================================================== *)
(** ** Template renderer (engine/template.ts) *)
(* ===================================================================== *)

(** The mustache package, with escaping disabled as template.ts sets it. *)
Class Mustache := {
  Mustache_render : jstring -> TemplateContext -> outcome jstring;
}.

(** template.ts, render *)
Definition render `{MU : Mustache} (template : jstring) (context : TemplateContext)
  : outcome jstring :=
  Mustache_render template context.

(* ===================================================================== *)
(** ** Source adapters (adapters/*.ts) *)
(* ===================================================================== *)

Definition ascii_lower (c : N) : N :=
  if (65 <=? c) && (c <=? 90) then c + 32 else c.

(** A request: its [Headers] (names in lower case, as the Fetch standard
    stores them) and the text of its body. *)
Record Request := {
  headers : gmap jstring jstring;
  body : jstring;
}.

(** [request.headers.get(name)]; [None] is [null]. *)
Definition headers_get (request : Request) (header : jstring)
  : option jstring :=
  headers request !! map ascii_lower header.

(** What the adapters take from node:crypto and Buffer. *)
Class Crypto := {
  (** [createHmac('sha256', key).update(data).digest('hex')] *)
  hmac_sha256_hex : jstring -> jstring -> jstring;
  (** [Buffer.from(s)]: the UTF-8 bytes of [s] *)
  Buffer_from : jstring -> list N;
}.

(** [timingSafeEqual(a, b)]: throws on buffers of different lengths. *)
Definition timingSafeEqual (a b : list N) : outcome bool :=
  if negb (length a =? length b)%nat
  then Throw (JsError (str "Input buffers must have the same byte length"))
  else Ok (bool_decide (a = b)).

Record SourceAdapter := {
  adapter_name : jstring;
  (** the first argument is the clock, in seconds: [Math.floor(Date.now() / 1000)] *)
  validate : Z -> Request -> jstring -> outcome bool;
  getEventType : Request -> jstring;
  parsePayload : Request -> outcome value;
}.

Fixpoint take_digits (s : jstring) : jstring :=
  match s with
  | c :: s' => if is_digit c then c :: take_digits s' else []
  | [] => []
  end.

(** [parseInt(s, 10)]: leading white space, an optional sign, the longest
    run of digits; [None] is NaN.  The source computes on doubles, which
    are exact on the integers a Unix time can be. *)
Definition parseInt10 (s : jstring) : option Z :=
  let s := trim_start s in
  let '(negative, rest) :=
    match s with
    | 45 :: r => (true, r)
    | 43 :: r => (false, r)
    | _ => (false, s)
    end in
  match take_digits rest with
  | [] => None
  | ds =>
      let n := Z.of_N (fold_left (fun acc d => 10 * acc + (d - 48)) ds 0) in
      Some (if negative then (- n)%Z else n)
  end.

Section Adapters.
Context `{RT : JsRuntime} `{CR : Crypto}.

(** slack.ts *)
Definition MAX_REQUEST_AGE_SECONDS : Z := 60 * 5.

(** slack.ts, slackAdapter.validate *)
Definition slack_validate (now : Z) (request : Request) (secret : jstring)
  : outcome bool :=
  let timestamp := headers_get request (str "X-Slack-Request-Timestamp") in
  let signature := headers_get request (str "X-Slack-Signature") in
  if negb (truthy timestamp) || negb (truthy signature) then Ok false
  else
    let timestamp := default [] timestamp in
    let signature := default [] signature in
    let requestTimestamp := parseInt10 timestamp in
    (* a comparison with NaN is false *)
    if match requestTimestamp with
       | Some t => (Z.abs (now - t) >? MAX_REQUEST_AGE_SECONDS)%Z
       | None => false
       end
    then Ok false
    else
      let sigBaseString := str "v0:" ++ timestamp ++ str ":" ++ body request in
      let expectedSignature :=
        str "v0=" ++ hmac_sha256_hex secret sigBaseString in
      try_catch
        (let sigBuffer := Buffer_from signature in
         let expectedBuffer := Buffer_from expectedSignature in
         if negb (length sigBuffer =? length expectedBuffer)%nat then Ok false
         else timingSafeEqual sigBuffer expectedBuffer)
        (fun _ => Ok false).

(** [key in v] *)
Definition has_property (v : value) (key : jstring) : bool :=
  match v with
  | VObject props =>
      bool_decide (is_Some (own_property props key)) || proto_has v key
  | VArray elems =>
      match array_index key with
      | Some i => bool_decide (i < length elems)%nat
      | None => str_eqb key (str "length")
      end
      || proto_has v key
  | _ => false
  end.

End Adapters.

Section MoreAdapters.
Context `{RT : JsRuntime} `{CR : Crypto}.

(** [typeof v === 'string'] *)
Definition is_string (v : value) : bool :=
  match v with
  | VString _ => true
  | _ => false
  end.

(** [v === 'text'] *)
Definition strict_eq_string (v : value) (text : jstring) : bool :=
  match v with
  | VString s => str_eqb s text
  | _ => false
  end.

(** A property read the guards before it keep from throwing; the value of
    a read that would throw is never used. *)
Definition read (v : value) (key : jstring) : value :=
  match get_property v key with
  | Ok x => x
  | Throw _ => VUndefined
  end.

(** slack.ts, isUrlVerification *)
Definition isUrlVerification (payload : value) : bool :=
  bool_decide (typeof payload = TObject)
  && negb (is_nullish payload)
  && has_property payload (str "type")
  && strict_eq_string (read payload (str "type")) (str "url_verification")
  && has_property payload (str "challenge")
  && is_string (read payload (str "challenge")).

(** slack.ts, isEventCallback *)
Definition isEventCallback (payload : value) : bool :=
  bool_decide (typeof payload = TObject)
  && negb (is_nullish payload)
  && has_property payload (str "type")
  && strict_eq_string (read payload (str "type")) (str "event_callback")
  && has_property payload (str "event")
  && bool_decide (typeof (read payload (str "event")) = TObject).

(** slack.ts, getSlackEventType.  [payload.event.type] is read without a
    guard on [payload.event], which isEventCallback lets be [null]. *)
Definition getSlackEventType (payload : value) : outcome value :=
  if isUrlVerification payload then Ok (VString (str "url_verification"))
  else if isEventCallback payload then
    event ← get_property payload (str "event");
    get_property event (str "type")
  else if bool_decide (typeof payload = TObject)
          && negb (is_nullish payload)
          && has_property payload (str "type")
          && is_string (read payload (str "type"))
  then Ok (read payload (str "type"))
  else Ok (VString (str "unknown")).

(** [request.json()] *)
Definition request_json (request : Request) : outcome value :=
  JSON_parse (body request).

(** slack.ts, slackAdapter *)
Definition slackAdapter : SourceAdapter := {|
  adapter_name := str "slack";
  validate := slack_validate;
  getEventType := fun request =>
    match headers_get request (str "X-Slack-Event-Type") with
    | Some (c :: s) => c :: s
    | _ => str "unknown"
    end;
  parsePayload := request_json;
|}.

(** github.ts, githubAdapter.validate *)
Definition github_validate (now : Z) (request : Request) (secret : jstring)
  : outcome bool :=
  let signature := headers_get request (str "X-Hub-Signature-256") in
  if negb (truthy signature) then Ok false
  else
    let signature := default [] signature in
    let expectedSignature :=
      str "sha256=" ++ hmac_sha256_hex secret (body request) in
    try_catch
      (let sigBuffer := Buffer_from signature in
       let expectedBuffer := Buffer_from expectedSignature in
       if negb (length sigBuffer =? length expectedBuffer)%nat then Ok false
       else timingSafeEqual sigBuffer expectedBuffer)
      (fun _ => Ok false).

(** github.ts, githubAdapter *)
Definition githubAdapter : SourceAdapter := {|
  adapter_name := str "github";
  validate := github_validate;
  getEventType := fun request =>
    match headers_get request (str "X-GitHub-Event") with
    | Some (c :: s) => c :: s
    | _ => str "unknown"
    end;
  parsePayload := request_json;
|}.

(** generic.ts, genericAdapter.validate *)
Definition generic_validate (now : Z) (request : Request) (secret : jstring)
  : outcome bool :=
  let providedSecret := headers_get request (str "X-Webhook-Secret") in
  if negb (truthy providedSecret) then Ok false
  else
    let providedSecret := default [] providedSecret in
    try_catch
      (let secretBuffer := Buffer_from secret in
       let providedBuffer := Buffer_from providedSecret in
       if negb (length secretBuffer =? length providedBuffer)%nat then Ok false
       else timingSafeEqual secretBuffer providedBuffer)
      (fun _ => Ok false).

(** generic.ts, genericAdapter *)
Definition genericAdapter : SourceAdapter := {|
  adapter_name := str "generic";
  validate := generic_validate;
  getEventType := fun request =>
    match headers_get request (str "X-Event-Type") with
    | Some (c :: s) => c :: s
    | _ => str "message"
    end;
  parsePayload := request_json;
|}.

(** agentmail.ts, agentmailAdapter.validate: the body is [return true;],
    the signature check after it is commented out. *)
Definition agentmail_validate (now : Z) (request : Request)
    (secret : jstring) : outcome bool :=
  Ok true.

(** The check the comments of agentmail.ts keep: what the documentation of
    the adapter describes. *)
Definition agentmail_validate_documented (request : Request)
    (secret : jstring) : outcome bool :=
  let signature := headers_get request (str "X-Agentmail-Signature") in
  if negb (truthy signature) then Ok false
  else
    let signature := default [] signature in
    let expectedSignature := hmac_sha256_hex secret (body request) in
    try_catch
      (let sigBuffer := Buffer_from signature in
       let expectedBuffer := Buffer_from expectedSignature in
       if negb (length sigBuffer =? length expectedBuffer)%nat then Ok false
       else timingSafeEqual sigBuffer expectedBuffer)
      (fun _ => Ok false).

(** agentmail.ts, agentmailAdapter *)
Definition agentmailAdapter : SourceAdapter := {|
  adapter_name := str "agentmail";
  validate := agentmail_validate;
  getEventType := fun _ => str "unknown";
  parsePayload := request_json;
|}.

End MoreAdapters.

(* ===================================================================== *)
(** ** Executor (engine/executor.ts) *)
(* ===================================================================== *)

(** The response of the Sprites API, as far as execute reads it. *)
Record HttpResponse := {
  ok : bool;
  status : N;
  (** [response.text()] *)
  text : outcome jstring;
}.

(** The call execute sends: the URL with its search parameters, the
    headers, the body.  The method is always POST. *)
Record ExecRequest := {
  url : jstring;
  searchParams : list (jstring * jstring);
  authorization : jstring;
  content_type : jstring;
  request_body : jstring;
}.

(** The network: [fetch] rejects on a network error. *)
Class Network := {
  fetch : ExecRequest -> outcome HttpResponse;
}.

Definition SPRITES_API_BASE : jstring := str "https://api.sprites.dev/v1".

(** [url.searchParams.set(key, v)] *)
Fixpoint searchParams_set (params : list (jstring * jstring))
    (key v : jstring) : list (jstring * jstring) :=
  match params with
  | [] => [(key, v)]
  | (k, x) :: rest =>
      if str_eqb k key
      then (k, v) :: List.filter (fun kv => negb (str_eqb (fst kv) key)) rest
      else (k, x) :: searchParams_set rest key v
  end.

(** The decimal text of an integer, as a template literal prints it. *)
Definition decimal (n : N) : jstring :=
  str (DecimalString.NilZero.string_of_uint (N.to_uint n)).

Section Executor.
Context `{RT : JsRuntime} `{MU : Mustache} `{NET : Network}.
(** [process.env] *)
Variable env : gmap jstring jstring.

(** executor.ts, execute.  [payload] is [VUndefined] when the caller gives
    none.  Logging is not modelled. *)
Definition execute (automation : Automation) (payload : value)
  : outcome ExecutionResult :=
  let spritesToken := env !! str "SPRITES_TOKEN" in
  if negb (truthy spritesToken) then
    Ok {| automationId := id automation;
          success := false;
          error := Some (str "SPRITES_TOKEN not configured") |}
  else
    let spritesToken := default [] spritesToken in
    try_catch
      (let context :=
         {| ctx_payload := payload; ctx_sprite := sprite automation |} in
       prompt ← render (run automation) context;
       encoded ← encodeURIComponent (name (sprite automation));
       let params := [] in
       let params :=
         searchParams_set params (str "path") (path (sprite automation)) in
       let params :=
         if truthy (cmd (sprite automation))
         then searchParams_set params (str "cmd")
                (default [] (cmd (sprite automation)))
         else params in
       let params :=
         if truthy (workdir (sprite automation))
         then searchParams_set params (str "dir")
                (default [] (workdir (sprite automation)))
         else params in
       let params := searchParams_set params (str "stdin") (str "true") in
       response ← fetch
         {| url := SPRITES_API_BASE ++ str "/sprites/" ++ encoded ++ str "/exec";
            searchParams := params;
            authorization := str "Bearer " ++ spritesToken;
            content_type := str "text/plain; charset=utf-8";
            request_body := prompt |};
       if negb (ok response) then
         errorText ← text response;
         Ok {| automationId := id automation;
               success := false;
               error := Some (str "Sprites API error: "
                              ++ decimal (status response)
                              ++ str " - " ++ errorText) |}
       else
         Ok {| automationId := id automation;
               success := true;
               error := None |})
      (fun e =>
         let 'JsError errorMessage := e in
         Ok {| automationId := id automation;
               success := false;
               error := Some errorMessage |}).

(** [Promise.all(promises)]: the results in the order of the promises,
    or the rejection of one of them. *)
Fixpoint Promise_all {A} (promises : list (outcome A)) : outcome (list A) :=
  match promises with
  | [] => Ok []
  | p :: rest => a ← p; others ← Promise_all rest; Ok (a :: others)
  end.

(** executor.ts, executeAll *)
Definition executeAll (automations : list Automation) (payload : value)
  : outcome (list ExecutionResult) :=
  Promise_all (map (fun automation => execute automation payload) automations).

End Executor.

(* ===================================================================== *)
(** ** Scheduler (cron/scheduler.ts) *)
(* ===================================================================== *)

(** node-cron *)
Class NodeCron := {
  (** [cron.validate(expression)] *)
  cron_validate : jstring -> bool;
}.

(** A task object of node-cron: its identity, the expression it runs on
    and the automation its callback executes. *)
Record ScheduledTask := {
  task_ref : nat;
  task_expression : jstring;
  task_automation : Automation;
}.

(** The state of the module: the [scheduledTasks] map, and on the side of
    node-cron the timers that were started and not stopped, with the
    counter that gives a new task its identity. *)
Record Scheduler := {
  scheduledTasks : gmap jstring ScheduledTask;
  timers : list ScheduledTask;
  next_ref : nat;
}.

(** The state when the module is loaded. *)
Definition scheduler_init : Scheduler :=
  {| scheduledTasks := ∅; timers := []; next_ref := 0 |}.

(** [task.stop()] *)
Definition task_stop (task : ScheduledTask) (st : Scheduler) : Scheduler :=
  {| scheduledTasks := scheduledTasks st;
     timers :=
       filter (fun t => task_ref t ≠ task_ref task) (timers st);
     next_ref := next_ref st |}.

(** [cron.schedule(expression, callback)]: a new task, started. *)
Definition cron_schedule (expression : jstring) (automation : Automation)
    (st : Scheduler) : ScheduledTask * Scheduler :=
  let task := {| task_ref := next_ref st;
                 task_expression := expression;
                 task_automation := automation |} in
  (task, {| scheduledTasks := scheduledTasks st;
            timers := task :: timers st;
            next_ref := S (next_ref st) |}).

(** [scheduledTasks.delete(key)] *)
Definition tasks_delete (key : jstring) (st : Scheduler) : Scheduler :=
  {| scheduledTasks := delete key (scheduledTasks st);
     timers := timers st;
     next_ref := next_ref st |}.

(** [scheduledTasks.set(key, task)] *)
Definition tasks_set (key : jstring) (task : ScheduledTask) (st : Scheduler)
  : Scheduler :=
  {| scheduledTasks := <[key := task]> (scheduledTasks st);
     timers := timers st;
     next_ref := next_ref st |}.

Section SchedulerOps.
Context `{CRON : NodeCron}.

(** The step of registerCronJob that stops the task the id already has. *)
Definition stop_existing (automation : Automation) (st : Scheduler)
  : Scheduler :=
  match scheduledTasks st !! id automation with
  | Some existingTask =>
      tasks_delete (id automation) (task_stop existingTask st)
  | None => st
  end.

(** scheduler.ts, registerCronJob *)
Definition registerCronJob (automation : Automation) (st : Scheduler)
  : bool * Scheduler :=
  if negb (isCronSource (source automation)) then (false, st)
  else
    let schedule := default [] (schedule (source automation)) in
    if negb (cron_validate schedule) then (false, st)
    else
      let st := stop_existing automation st in
      let '(task, st) := cron_schedule schedule automation st in
      (true, tasks_set (id automation) task st).

(** Whether registerCronJob accepts an automation. *)
Definition accepted (a : Automation) : bool :=
  isCronSource (source a)
  && cron_validate (default [] (schedule (source a))).

(** The task registerCronJob creates for an automation in a state. *)
Definition new_task (a : Automation) (st : Scheduler) : ScheduledTask :=
  {| task_ref := next_ref st;
     task_expression := default [] (schedule (source a));
     task_automation := a |}.

(** scheduler.ts, unregisterCronJob *)
Definition unregisterCronJob (automationId : jstring) (st : Scheduler)
  : bool * Scheduler :=
  match scheduledTasks st !! automationId with
  | Some task => (true, tasks_delete automationId (task_stop task st))
  | None => (false, st)
  end.

(** scheduler.ts, stopAllCronJobs *)
Definition stopAllCronJobs (st : Scheduler) : Scheduler :=
  let st :=
    foldl (fun st entry => task_stop (snd entry) st) st
      (map_to_list (scheduledTasks st)) in
  {| scheduledTasks := ∅; timers := timers st; next_ref := next_ref st |}.

(** scheduler.ts, getActiveCronJobs (the order of a JavaScript Map is not
    modelled). *)
Definition getActiveCronJobs (st : Scheduler) : list jstring :=
  map fst (map_to_list (scheduledTasks st)).

Record SyncResult := {
  registered : nat;
  failed : nat;
}.

(** The body of the first loop of syncCronJobs: stop the job of a key
    that is no longer the id of a cron automation. *)
Definition sync_remove (cronIds : gset jstring) (st : Scheduler)
    (key : jstring) : Scheduler :=
  if negb (bool_decide (key ∈ cronIds))
  then snd (unregisterCronJob key st)
  else st.

(** The body of its second loop: register, and count. *)
Definition sync_register (acc : SyncResult * Scheduler)
    (automation : Automation) : SyncResult * Scheduler :=
  let '(counts, st) := acc in
  let '(done, st) := registerCronJob automation st in
  if done : bool
  then ({| registered := S (registered counts); failed := failed counts |},
        st)
  else ({| registered := registered counts; failed := S (failed counts) |},
        st).

(** scheduler.ts, syncCronJobs; [loaded] is what loadAllAutomations
    returned or threw.  The first loop runs over the keys of the map:
    deleting the key a Map iterator stands on does not disturb it. *)
Definition syncCronJobs (loaded : outcome (list Automation)) (st : Scheduler)
  : SyncResult * Scheduler :=
  match loaded with
  | Throw _ => ({| registered := 0; failed := 0 |}, st)
  | Ok automations =>
      let cronAutomations :=
        List.filter (fun a => isCronSource (source a)) automations in
      let cronIds : gset jstring := list_to_set (map id cronAutomations) in
      let st := foldl (sync_remove cronIds) st (getActiveCronJobs st) in
      foldl sync_register ({| registered := 0; failed := 0 |}, st)
        cronAutomations
  end.

End SchedulerOps.

(** The timers that fire the automation [key]. *)
Definition active_timers (key : jstring) (st : Scheduler)
  : list ScheduledTask :=
  filter (fun t => id (task_automation t) = key) (timers st).

(** What the module keeps true of its state: node-cron runs exactly the
    tasks the map holds, each under the id of its automation. *)
Record scheduler_inv (st : Scheduler) : Prop := {
  inv_refs_distinct : NoDup (task_ref <$> timers st);
  inv_refs_fresh :
    forall t, t ∈ timers st -> (task_ref t < next_ref st)%nat;
  inv_timer_tracked :
    forall t, t ∈ timers st ->
      scheduledTasks st !! id (task_automation t) = Some t;
  inv_task_running :
    forall key t, scheduledTasks st !! key = Some t ->
      t ∈ timers st /\ id (task_automation t) = key;
}.

(* ===================================================================== *)
(** ** Dispatcher (routes/webhook.ts) *)
(* ===================================================================== *)

(** The JSON bodies the route answers with. *)
Inductive ReplyBody :=
| ErrorBody (message : jstring)
| ChallengeBody (challenge : value)
| NoMatchBody (message : jstring) (matched : nat)
| FailedBody (message : jstring) (results : list ExecutionResult)
| ExecutedBody (message : jstring) (matched : nat)
    (results : list ExecutionResult).

Record Reply := {
  reply_status : N;
  reply_body : ReplyBody;
}.

(** [c.json(body, status)]; the status is 200 when none is given. *)
Definition json (b : ReplyBody) (st : N) : Reply :=
  {| reply_status := st; reply_body := b |}.

(** SameValueZero of a value of a payload and a value of a stored
    document: the primitives by value, with [NaN] equal to itself; an
    object, array or function of the one is never that of the other. *)
Definition same_value_zero (x y : value) : bool :=
  match x, y with
  | VUndefined, VUndefined | VNull, VNull => true
  | VBool a, VBool b => eqb a b
  | VNumber a, VNumber b => SFeqb a b || (isNaN a && isNaN b)
  | VString a, VString b => str_eqb a b
  | _, _ => false
  end.

(** [xs.includes(v)] *)
Definition array_includes (xs : list value) (v : value) : bool :=
  existsb (same_value_zero v) xs.

(** [xs.filter(f)] with a callback that may throw. *)
Fixpoint filter_outcome {A} (f : A -> outcome bool) (xs : list A)
  : outcome (list A) :=
  match xs with
  | [] => Ok []
  | x :: rest =>
      keep ← f x;
      kept ← filter_outcome f rest;
      Ok (if keep : bool then x :: kept else kept)
  end.

(** The template literal of a log line that prints the event type:
    converting an object, array or function to its text can throw.  What
    is logged is not modelled. *)
Definition log_event_type `{RT : JsRuntime} (eventType : value)
  : outcome unit :=
  match eventType with
  | VArray _ | VObject _ | VFunction _ => _ ← ToString eventType; Ok tt
  | _ => Ok tt
  end.

Section Dispatcher.
Context `{RT : JsRuntime} `{MU : Mustache} `{NET : Network}.
(** the registry createWebhookRoutes is given *)
Variable adapters : gmap jstring SourceAdapter.
(** [process.env] *)
Variable env : gmap jstring jstring.

(** The callback of [automations.filter] in the route. *)
Definition matchesWebhook (sourceName : jstring) (eventType payload : value)
    (automation : Automation) : outcome bool :=
  if negb (isWebhookSource (source automation)) then Ok false
  else if negb (str_eqb (source_type (source automation)) sourceName)
  then Ok false
  else if negb (array_includes (default [] (events (source automation)))
                  eventType)
  then Ok false
  else
    matched ← evaluateMatches (match_ automation) payload;
    if negb matched then Ok false else Ok true.

(** webhook.ts, the handler of [POST /:source].  [now] is the clock in
    seconds and [loaded] what loadAllAutomations returns or throws when the
    route calls it.  An exception the handler does not catch is the
    outcome [Throw].  Of the log lines, the two that print the event type
    are modelled, since they can throw. *)
Definition webhook_post (now : Z) (loaded : outcome (list Automation))
    (sourceName : jstring) (request : Request) : outcome Reply :=
  match adapters !! sourceName with
  | None => Ok (json (ErrorBody (str "Unknown source: " ++ sourceName)) 400)
  | Some adapter =>
      let secretEnvKey := toUpperCase sourceName ++ str "_WEBHOOK_SECRET" in
      let secret := env !! secretEnvKey in
      if negb (truthy secret)
      then Ok (json (ErrorBody (str "Webhook secret not configured")) 500)
      else
        let secret := default [] secret in
        isValid ← validate adapter now request secret;
        if negb isValid
        then Ok (json (ErrorBody (str "Invalid signature")) 401)
        else
          payload ← parsePayload adapter request;
          if str_eqb sourceName (str "slack") && isUrlVerification payload
          then Ok (json (ChallengeBody (read payload (str "challenge"))) 200)
          else
            eventType ←
              (if str_eqb sourceName (str "slack")
               then getSlackEventType payload
               else Ok (VString (getEventType adapter request)));
            _ ← log_event_type eventType;
            match loaded with
            | Throw _ =>
                Ok (json (ErrorBody (str "Failed to load automations")) 500)
            | Ok automations =>
                matchingAutomations ←
                  filter_outcome (matchesWebhook sourceName eventType payload)
                    automations;
                _ ← log_event_type eventType;
                if (length matchingAutomations =? 0)%nat
                then Ok (json (NoMatchBody (str "No matching automations") 0)
                           200)
                else
                  results ← executeAll env matchingAutomations payload;
                  let failures :=
                    List.filter (fun r => negb (success r)) results in
                  if (0 <? length failures)%nat
                  then Ok (json (FailedBody
                                   (str "One or more automations failed")
                                   results) 500)
                  else Ok (json (ExecutedBody
                                   (str "All automations executed successfully")
                                   (length matchingAutomations) results) 200)
            end
  end.

End Dispatcher.

(** The rule of the dispatcher in the words of the specification: the
    automation has a webhook source of the type [sourceName] whose events
    contain [eventLabel], and its match predicates evaluate to true
    against the payload. *)
Definition webhook_rule_applies `{RT : JsRuntime}
    (sourceName eventLabel : jstring) (payload : value) (a : Automation)
  : Prop :=
  isWebhookSource (source a) = true
  /\ source_type (source a) = sourceName
  /\ VString eventLabel ∈ default [] (events (source a))
  /\ evaluateMatches (match_ a) payload = Ok true.

(** The three tests of the filter that come before the match predicates. *)
Definition webhook_source_applies (sourceName eventLabel : jstring)
    (a : Automation) : Prop :=
  isWebhookSource (source a) = true
  /\ source_type (source a) = sourceName
  /\ VString eventLabel ∈ default [] (events (source a)).

#[global] Instance elem_of_string_dec (label : jstring) (xs : list value) :
  Decision (VString label ∈ xs).
Proof.
  induction xs as [|x xs IH].
  - right. apply not_elem_of_nil.
  - destruct IH as [Hin|Hout]; [left; by right|].
    destruct x as [| | | |s| | |];
      try (right; intros [?|?]%elem_of_cons; done).
    destruct (decide (s = label)) as [->|Hne]; [left; by left|].
    right. intros [?|?]%elem_of_cons; [congruence | done].
Defined.

#[global] Instance webhook_rule_applies_dec `{RT : JsRuntime}
    (sourceName eventLabel : jstring) (payload : value) (a : Automation) :
  Decision (webhook_rule_applies sourceName eventLabel payload a).
Proof. unfold webhook_rule_applies. apply _. Defined.

(* ===================================================================== *)
(** ** Registry of the server (index.ts) *)
(* ===================================================================== *)

(** index.ts, the adapter registry the server mounts the webhook routes
    on: [github] and [slack]. *)
Definition index_adapters `{RT : JsRuntime} `{CR : Crypto}
  : gmap jstring SourceAdapter :=
  <[str "slack" := slackAdapter]> (<[str "github" := githubAdapter]> ∅).

(** What a reply of the webhook route promises about itself: the status
    that goes with each body, and what the results in it are. *)
Definition reply_consistent (reply : Reply) : Prop :=
  match reply_body reply with
  | ErrorBody _ =>
      reply_status reply = 400 \/ reply_status reply = 401
      \/ reply_status reply = 500
  | ChallengeBody challenge =>
      reply_status reply = 200 /\ is_string challenge = true
  | NoMatchBody _ matched => reply_status reply = 200 /\ matched = 0%nat
  | FailedBody _ results =>
      reply_status reply = 500
      /\ exists r, r ∈ results /\ success r = false
  | ExecutedBody _ matched results =>
      reply_status reply = 200
      /\ matched = length results /\ (0 < matched)%nat
      /\ forall r, r ∈ results -> success r = true
  end.

(** The results a reply carries. *)
Definition reply_results (reply : Reply) : list ExecutionResult :=
  match reply_body reply with
  | FailedBody _ results | ExecutedBody _ _ results => results
  | _ => []
  end.

(** The event type of a delivery as the route determines it: from the
    payload for the source [slack], from the adapter otherwise. *)
Definition delivery_event_type `{RT : JsRuntime} (adapter : SourceAdapter)
    (sourceName : jstring) (request : Request) (payload : value)
  : outcome value :=
  if str_eqb sourceName (str "slack")
  then getSlackEventType payload
  else Ok (VString (getEventType adapter request)).

(** The filter of the route throws [e] on a catalog: the callback returns
    on the automations before one that has the source and the event of
    the delivery and whose match throws [e]. *)
Definition filter_throws `{RT : JsRuntime} (sourceName : jstring)
    (eventType payload : value) (catalog : list Automation) (e : exn)
  : Prop :=
  exists before a after,
    catalog = before ++ a :: after
    /\ Forall (fun b => returns (matchesWebhook sourceName eventType payload b))
         before
    /\ isWebhookSource (source a) = true
    /\ source_type (source a) = sourceName
    /\ array_includes (default [] (events (source a))) eventType = true
    /\ evaluateMatches (match_ a) payload = Throw e.

(** A string without the characters [=] and [!] of the two operators. *)
Definition operator_free (s : jstring) : bool :=
  forallb (fun c => negb (c =? 61) && negb (c =? 33)) s.

(** The search parameters of the call of execute, in the order the URL
    has them: [cmd] and [dir] only when the sprite has them, not empty. *)
Definition exec_params (s : SpriteConfig) : list (jstring * jstring) :=
  [(str "path", path s)]
  ++ (if truthy (cmd s) then [(str "cmd", default [] (cmd s))] else [])
  ++ (if truthy (workdir s) then [(str "dir", default [] (workdir s))]
      else [])
  ++ [(str "stdin", str "true")].

(* ===================================================================== *)
(** ** Storage (storage/kv.ts) *)
(* ===================================================================== *)

(** The yaml package. *)
Class Yaml := {
  (** [YAML.parse(text)]: the document as a value, or a syntax error *)
  YAML_parse : jstring -> outcome value;
}.

(** [Array.isArray(v)] *)
Definition is_array (v : value) : bool :=
  match v with
  | VArray _ => true
  | _ => false
  end.

Section ParseAutomation.
Context `{RT : JsRuntime} `{YA : Yaml}.

(** [key in v]: a TypeError when [v] is not an object. *)
Definition in_operator (key : jstring) (v : value) : outcome bool :=
  match v with
  | VObject _ | VArray _ => Ok (has_property v key)
  | VFunction _ => Ok (proto_has v key)
  | _ =>
      Throw (JsError (str "Cannot use 'in' operator to search for a key"))
  end.

(** [throw new Error(message)] *)
Definition throw_error {A} (message : jstring) : outcome A :=
  Throw (JsError message).

(** A word in double quotes, for the messages. *)
Definition quoted (word : string) : jstring := [34] ++ str word ++ [34].

(** [a || b], where evaluating [b] may throw. *)
Definition or_else (a : bool) (b : outcome bool) : outcome bool :=
  if a then Ok true else b.

(** kv.ts, parseAutomationYaml: the document when it passes the checks. *)
Definition parseAutomationYaml (yamlContent : jstring) : outcome value :=
  automation ← YAML_parse yamlContent;
  automation_id ← get_property automation (str "id");
  if negb (to_boolean automation_id) || negb (is_string automation_id)
  then throw_error (str "Automation must have a valid " ++ quoted "id"
                    ++ str " field")
  else
    automation_sprite ← get_property automation (str "sprite");
    no_sprite ←
      or_else (negb (to_boolean automation_sprite))
        (sprite_name ← get_property automation_sprite (str "name");
         Ok (negb (to_boolean sprite_name)));
    if no_sprite : bool
    then throw_error (str "Automation must have a " ++ quoted "sprite.name"
                      ++ str " field")
    else
      automation_source ← get_property automation (str "source");
      no_source ←
        or_else (negb (to_boolean automation_source))
          (source_type ← get_property automation_source (str "type");
           Ok (negb (to_boolean source_type)));
      if no_source : bool
      then throw_error (str "Automation must have a " ++ quoted "source.type"
                        ++ str " field")
      else
        source_type ← get_property automation_source (str "type");
        _ ←
          (if strict_eq_string source_type (str "cron") then
             has_schedule ← in_operator (str "schedule") automation_source;
             no_schedule ←
               or_else (negb has_schedule)
                 (source_schedule ←
                    get_property automation_source (str "schedule");
                  Ok (negb (to_boolean source_schedule)));
             if no_schedule : bool
             then throw_error (str "Cron automation must have a "
                               ++ quoted "source.schedule" ++ str " field")
             else Ok tt
           else
             has_events ← in_operator (str "events") automation_source;
             no_events ←
               or_else (negb has_events)
                 (source_events ←
                    get_property automation_source (str "events");
                  Ok (negb (is_array source_events)));
             if no_events : bool
             then throw_error (str "Webhook automation must have a "
                               ++ quoted "source.events" ++ str " array")
             else Ok tt);
        automation_run ← get_property automation (str "run");
        if negb (to_boolean automation_run) || negb (is_string automation_run)
        then throw_error (str "Automation must have a " ++ quoted "run"
                          ++ str " command")
        else Ok automation.

End ParseAutomation.

(** The Cloudflare KV REST API, as far as kv.ts reads its answers. *)
Record KVKey := {
  key_name : jstring;
}.

Record KVError := {
  error_code : N;
  error_message : jstring;
}.

(** kv.ts, KVListResponse *)
Record KVListResponse := {
  list_success : bool;
  list_errors : list KVError;
  list_result : list KVKey;
  (** [result_info.cursor] *)
  list_cursor : option jstring;
}.

Record KVResponse := {
  kv_ok : bool;
  kv_status : N;
  kv_statusText : jstring;
  (** [response.text()] *)
  kv_text : outcome jstring;
  (** [response.json()], seen as a KVListResponse *)
  kv_json : outcome KVListResponse;
}.

Record KVRequest := {
  kv_method : jstring;
  kv_url : jstring;
  kv_query : list (jstring * jstring);
  kv_authorization : jstring;
  kv_content_type : option jstring;
  kv_body : option jstring;
}.

(** [fetch] on the API of the store. *)
Class KVService := {
  kv_fetch : KVRequest -> outcome KVResponse;
}.

Record KVConfig := {
  accountId : jstring;
  apiToken : jstring;
  namespaceId : jstring;
}.

Definition CF_API_BASE : jstring :=
  str "https://api.cloudflare.com/client/v4".

(** kv.ts, automationKey *)
Definition automationKey (automation_id : jstring) : jstring :=
  str "automation:" ++ automation_id.

(** [name.replace(/^automation:/, '')] *)
Definition strip_automation_prefix (key : jstring) : jstring :=
  if startsWith key (str "automation:")
  then drop (length (str "automation:")) key
  else key.

(** [parts.join(sep)] *)
Fixpoint join (sep : jstring) (parts : list jstring) : jstring :=
  match parts with
  | [] => []
  | [part] => part
  | part :: rest => part ++ sep ++ join sep rest
  end.

(** The result of a loop that is given a bound on its turns. *)
Inductive bounded (A : Type) : Type :=
| Finished (result : outcome A)
| OutOfTurns.
Arguments Finished {A} result.
Arguments OutOfTurns {A}.

Section Storage.
Context `{RT : JsRuntime} `{YA : Yaml} `{KV : KVService}.
(** [process.env] *)
Variable env : gmap jstring jstring.
(** The cast [as Automation] of a parsed document. *)
Variable as_Automation : value -> Automation.

(** kv.ts, getConfig *)
Definition getConfig : outcome KVConfig :=
  let account := env !! str "CF_ACCOUNT_ID" in
  let token := env !! str "CF_API_TOKEN" in
  let namespace := env !! str "CF_KV_NAMESPACE_ID" in
  if negb (truthy account) || negb (truthy token) || negb (truthy namespace)
  then throw_error
         (str "Missing Cloudflare KV configuration. Required: CF_ACCOUNT_ID, CF_API_TOKEN, CF_KV_NAMESPACE_ID")
  else Ok {| accountId := default [] account;
             apiToken := default [] token;
             namespaceId := default [] namespace |}.

(** kv.ts, getKVUrl; [None] is a call without key. *)
Definition getKVUrl (config : KVConfig) (key : option jstring)
  : outcome jstring :=
  let base :=
    CF_API_BASE ++ str "/accounts/" ++ accountId config
    ++ str "/storage/kv/namespaces/" ++ namespaceId config in
  if truthy key then
    encoded ← encodeURIComponent (default [] key);
    Ok (base ++ str "/values/" ++ encoded)
  else Ok (base ++ str "/keys").

(** kv.ts, getAutomation: the parsed document, [VNull] for [null]. *)
Definition getAutomation (automation_id : jstring) : outcome value :=
  config ← getConfig;
  url ← getKVUrl config (Some (automationKey automation_id));
  response ← kv_fetch
    {| kv_method := str "GET"; kv_url := url; kv_query := [];
       kv_authorization := str "Bearer " ++ apiToken config;
       kv_content_type := None; kv_body := None |};
  if kv_status response =? 404 then Ok VNull
  else if negb (kv_ok response) then
    throw_error (str "Failed to get automation " ++ automation_id ++ str ": "
                 ++ decimal (kv_status response) ++ str " "
                 ++ kv_statusText response)
  else
    yamlContent ← kv_text response;
    YAML_parse yamlContent.

(** kv.ts, putAutomation *)
Definition putAutomation (automation_id yamlContent : jstring)
  : outcome unit :=
  config ← getConfig;
  url ← getKVUrl config (Some (automationKey automation_id));
  response ← kv_fetch
    {| kv_method := str "PUT"; kv_url := url; kv_query := [];
       kv_authorization := str "Bearer " ++ apiToken config;
       kv_content_type := Some (str "text/plain");
       kv_body := Some yamlContent |};
  if negb (kv_ok response) then
    errorText ← kv_text response;
    throw_error (str "Failed to put automation " ++ automation_id ++ str ": "
                 ++ decimal (kv_status response) ++ str " " ++ errorText)
  else Ok tt.

(** The request of one turn of the loop of listAutomationIds. *)
Definition list_request (config : KVConfig) (url : jstring)
    (cursor : option jstring) : KVRequest :=
  let query := searchParams_set [] (str "prefix") (str "automation:") in
  let query :=
    if truthy cursor
    then searchParams_set query (str "cursor") (default [] cursor)
    else query in
  {| kv_method := str "GET"; kv_url := url; kv_query := query;
     kv_authorization := str "Bearer " ++ apiToken config;
     kv_content_type := None; kv_body := None |}.

(** The ids of the keys of one page. *)
Definition page_ids (data : KVListResponse) : list jstring :=
  map (fun key => strip_automation_prefix (key_name key)) (list_result data).

(** The do-while loop of listAutomationIds, for at most [turns] turns:
    [cursor] and [ids] are its two variables. *)
Fixpoint list_pages (turns : nat) (config : KVConfig)
    (cursor : option jstring) (ids : list jstring)
  : bounded (list jstring) :=
  match turns with
  | O => OutOfTurns
  | S turns =>
      match getKVUrl config None with
      | Throw e => Finished (Throw e)
      | Ok url =>
          match kv_fetch (list_request config url cursor) with
          | Throw e => Finished (Throw e)
          | Ok response =>
              if negb (kv_ok response) then
                Finished
                  (throw_error (str "Failed to list automations: "
                                ++ decimal (kv_status response) ++ str " "
                                ++ kv_statusText response))
              else
                match kv_json response with
                | Throw e => Finished (Throw e)
                | Ok data =>
                    if negb (list_success data) then
                      Finished
                        (throw_error
                           (str "KV API error: "
                            ++ join (str ", ")
                                 (map error_message (list_errors data))))
                    else
                      let ids := ids ++ page_ids data in
                      let cursor := list_cursor data in
                      if truthy cursor
                      then list_pages turns config cursor ids
                      else Finished (Ok ids)
                end
          end
      end
  end.

(** kv.ts, listAutomationIds *)
Definition listAutomationIds (turns : nat) : bounded (list jstring) :=
  match getConfig with
  | Throw e => Finished (Throw e)
  | Ok config => list_pages turns config None []
  end.

(** The loop of loadAllAutomations over the ids. *)
Fixpoint load_each (ids : list jstring) : outcome (list Automation) :=
  match ids with
  | [] => Ok []
  | automation_id :: rest =>
      automation ← getAutomation automation_id;
      others ← load_each rest;
      Ok (if to_boolean automation
          then as_Automation automation :: others
          else others)
  end.

(** kv.ts, loadAllAutomations *)
Definition loadAllAutomations (turns : nat) : bounded (list Automation) :=
  match listAutomationIds turns with
  | OutOfTurns => OutOfTurns
  | Finished (Throw e) => Finished (Throw e)
  | Finished (Ok ids) => Finished (load_each ids)
  end.

(** The store answers the listing that starts at [cursor] with the
    pages [pages]: each page is a success and its cursor leads to the
    next page, the last page has no cursor. *)
Inductive serves (config : KVConfig)
  : option jstring -> list KVListResponse -> Prop :=
| serves_last cursor url response data :
    getKVUrl config None = Ok url ->
    kv_fetch (list_request config url cursor) = Ok response ->
    kv_ok response = true -> kv_json response = Ok data ->
    list_success data = true -> truthy (list_cursor data) = false ->
    serves config cursor [data]
| serves_more cursor url response data pages :
    getKVUrl config None = Ok url ->
    kv_fetch (list_request config url cursor) = Ok response ->
    kv_ok response = true -> kv_json response = Ok data ->
    list_success data = true -> truthy (list_cursor data) = true ->
    serves config (list_cursor data) pages ->
    serves config cursor (data :: pages).

End Storage.

(* ===================================================================== *)
(** ** Administration (routes/admin.ts) *)
(* ===================================================================== *)

(** The JSON bodies of the admin routes this file models. *)
Inductive AdminBody :=
| AdminError (message : jstring)
| AdminStored (automation_id : jstring) (message : jstring).

Record AdminReply := {
  admin_status : N;
  admin_body : AdminBody;
}.

(** admin.ts, the middleware of the admin routes: [None] is the call of
    [next()]. *)
Definition admin_guard (env : gmap jstring jstring) (request : Request)
  : option AdminReply :=
  let adminToken := env !! str "ADMIN_TOKEN" in
  if negb (truthy adminToken)
  then Some {| admin_status := 500;
               admin_body := AdminError (str "Admin token not configured") |}
  else
    let providedToken := headers_get request (str "X-Admin-Token") in
    if negb (truthy providedToken)
       || negb (bool_decide (providedToken = adminToken))
    then Some {| admin_status := 401;
                 admin_body := AdminError (str "Unauthorized") |}
    else None.

Section Admin.
Context `{RT : JsRuntime} `{YA : Yaml} `{KV : KVService}.
Variable env : gmap jstring jstring.

(** admin.ts, the handler of [POST /automations], behind the middleware.
    The id of the document is a string once parseAutomationYaml has
    accepted it. *)
Definition admin_post_automation (request : Request) : outcome AdminReply :=
  match admin_guard env request with
  | Some refusal => Ok refusal
  | None =>
      try_catch
        (let yamlContent := body request in
         automation ← parseAutomationYaml yamlContent;
         let automation_id :=
           match read automation (str "id") with
           | VString s => s
           | _ => []
           end in
         _ ← putAutomation env automation_id yamlContent;
         Ok {| admin_status := 200;
               admin_body :=
                 AdminStored automation_id
                   (str "Automation created/updated") |})
        (fun e =>
           let 'JsError message := e in
           Ok {| admin_status := 400; admin_body := AdminError message |})
  end.

End Admin.

(* ===================================================================== *)
(** ** A concrete environment *)
(* ===================================================================== *)

(** Stand-ins for the imported services, to run the program on examples. *)
Module Demo.

Definition ascii_upper (c : N) : N :=
  if (97 <=? c) && (c <=? 122) then c - 32 else c.

(** The names of the functions of [Object.prototype]. *)
Definition object_methods : list string :=
  ["__defineGetter__"; "__defineSetter__"; "hasOwnProperty";
   "__lookupGetter__"; "__lookupSetter__"; "isPrototypeOf";
   "propertyIsEnumerable"; "toString"; "valueOf"; "toLocaleString"]%string.

(** The names of the functions of [Array.prototype] (Node 20). *)
Definition array_methods : list string :=
  ["at"; "concat"; "copyWithin"; "fill"; "find"; "findIndex"; "findLast";
   "findLastIndex"; "lastIndexOf"; "pop"; "push"; "reverse"; "shift";
   "unshift"; "slice"; "sort"; "splice"; "includes"; "indexOf"; "join";
   "keys"; "entries"; "values"; "forEach"; "filter"; "flat"; "flatMap";
   "map"; "every"; "some"; "reduce"; "reduceRight"; "toLocaleString";
   "toString"; "toReversed"; "toSorted"; "toSpliced"; "with"]%string.

Definition methods (names : list string) : list (jstring * value) :=
  map (fun n => (str n, VFunction (str n))) names.

(** [Object.prototype], as the object of its properties; its own
    prototype is [null]. *)
Definition object_prototype : value :=
  VObject ((str "constructor", VFunction (str "Object"))
           :: methods object_methods ++ [(str "__proto__", VNull)]).

(** [Array.prototype], in the same way. *)
Definition array_prototype : value :=
  VObject ((str "constructor", VFunction (str "Array"))
           :: (str "length", VNumber (number_of_Z 0))
           :: methods array_methods
           ++ [(str "__proto__", object_prototype)]).

(** The properties a plain object inherits. *)
Definition object_inherited : list (jstring * value) :=
  (str "constructor", VFunction (str "Object"))
  :: methods object_methods ++ [(str "__proto__", object_prototype)].

(** The properties an array inherits: those of [Array.prototype] before
    those of [Object.prototype]. *)
Definition array_inherited : list (jstring * value) :=
  (str "constructor", VFunction (str "Array"))
  :: methods array_methods ++ methods object_methods
  ++ [(str "__proto__", array_prototype)].

(** The lookup of a property that is not an own property, as Node does
    it for the objects and arrays of a parsed document.  Of the properties
    of a primitive only the length of a string is given, and none of a
    function: the program reads no other. *)
Definition inherited (v : value) (key : jstring) : option value :=
  match v with
  | VObject _ => own_property object_inherited key
  | VArray _ => own_property array_inherited key
  | VString s =>
      if str_eqb key (str "length")
      then Some (VNumber (number_of_Z (Z.of_nat (length s))))
      else None
  | _ => None
  end.

(** The decimal text of a number that is an integer; the fraction of
    another number is left out, and the exponent notation of large
    numbers is not used. *)
Definition number_text (n : number) : jstring :=
  match n with
  | S754_zero _ => str "0"
  | S754_nan => str "NaN"
  | S754_infinity negative =>
      (if negative then str "-" else []) ++ str "Infinity"
  | S754_finite negative m e =>
      (if negative then str "-" else [])
      ++ decimal (Z.to_N (Z.shiftl (Z.pos m) e))
  end.

(** [String(v)] for the values of a parsed document: an array joins the
    texts of its elements, an object is [[object Object]] through the
    [toString] it inherits, and an object with an own property [toString],
    which in a parsed document is no function, has no text. *)
Fixpoint text_of (v : value) : outcome jstring :=
  match v with
  | VUndefined => Ok (str "undefined")
  | VNull => Ok (str "null")
  | VBool b => Ok (if b then str "true" else str "false")
  | VNumber n => Ok (number_text n)
  | VString s => Ok s
  | VArray elems =>
      (fix join (l : list value) : outcome jstring :=
         match l with
         | [] => Ok []
         | x :: rest =>
             first ←
               match x with
               | VUndefined | VNull => Ok []
               | _ => text_of x
               end;
             match rest with
             | [] => Ok first
             | _ :: _ => others ← join rest; Ok (first ++ str "," ++ others)
             end
         end) elems
  | VObject props =>
      match own_property props (str "toString") with
      | None | Some (VFunction _) => Ok (str "[object Object]")
      | Some _ =>
          Throw (JsError (str "Cannot convert object to primitive value"))
      end
  | VFunction f => Ok (str "function " ++ f ++ str "() { [native code] }")
  end.

(** A payload whose field [a] is an object with a property [toString]
    that is a number, and its JSON text. *)
Definition unprintable : value :=
  VObject [(str "a", VObject [(str "toString", VNumber (number_of_Z 0))])].

Definition unprintable_text : jstring :=
  str "{" ++ [34] ++ str "a" ++ [34] ++ str ":{" ++ [34] ++ str "toString"
  ++ [34] ++ str ":0}}".

(** A runtime with the inherited properties of Node, the conversions of
    the values of a parsed document, [Number] on decimal digits, upper
    case on ASCII letters and [JSON.parse] on the text [{}] and on the
    text of [unprintable]. *)
Definition runtime : JsRuntime := {|
  proto_get := fun v key => default VUndefined (inherited v key);
  proto_has := fun v key => bool_decide (is_Some (inherited v key));
  StringToNumber := fun s =>
    match s with
    | [] => number_of_Z 0
    | _ :: _ =>
        if forallb is_digit s
        then number_of_Z
               (Z.of_N (fold_left (fun acc d => 10 * acc + (d - 48)) s 0))
        else S754_nan
    end;
  ToPrimitive := text_of;
  ToString := text_of;
  toUpperCase := map ascii_upper;
  JSON_parse := fun s =>
    if str_eqb s (str "{}") then Ok (VObject [])
    else if str_eqb s unprintable_text then Ok unprintable
    else Throw (JsError (str "Unexpected token"));
  encodeURIComponent := fun s => Ok s;
|}.

(** A keyed tag in place of HMAC-SHA256; UTF-8 of ASCII text. *)
Definition crypto : Crypto := {|
  hmac_sha256_hex := fun key data => key ++ str "/" ++ data;
  Buffer_from := fun s => s;
|}.

(** A template without tags renders to itself. *)
Definition mustache : Mustache := {|
  Mustache_render := fun template _ => Ok template;
|}.

(** The sprite named [down] answers 503, every other sprite 200. *)
Definition network : Network := {|
  fetch := fun req =>
    if includes (url req) (str "/sprites/down/")
    then Ok {| ok := false; status := 503; text := Ok (str "unavailable") |}
    else Ok {| ok := true; status := 200; text := Ok [] |};
|}.

(** A validator that knows one expression: as node-cron it accepts
    [0 2 * * *] and refuses [soon]. *)
Definition node_cron : NodeCron := {|
  cron_validate := fun expression => str_eqb expression (str "0 2 * * *");
|}.

Definition sprite_of (sprite_name : jstring) : SpriteConfig :=
  {| name := sprite_name; path := str "claude"; cmd := None;
     workdir := None |}.

(** A cron automation with the given id and schedule. *)
Definition cron_automation (key expression : jstring) : Automation :=
  {| id := key; description := None; sprite := sprite_of (str "worker");
     source := {| source_type := str "cron"; events := None;
                  schedule := Some expression |};
     match_ := VUndefined; run := str "tidy up" |}.

(** A webhook automation of the github adapter for the event [ping]. *)
Definition ping_automation (key sprite_name : jstring)
    (predicates : value) : Automation :=
  {| id := key; description := None; sprite := sprite_of sprite_name;
     source := {| source_type := str "github"; events := Some [VString (str "ping")];
                  schedule := None |};
     match_ := predicates; run := str "hello" |}.

Definition adapters : gmap jstring SourceAdapter :=
  <[str "github" := githubAdapter (RT := runtime) (CR := crypto)]>
    (<[str "slack" := slackAdapter (RT := runtime) (CR := crypto)]> ∅).

Definition env : gmap jstring jstring :=
  <[str "GITHUB_WEBHOOK_SECRET" := str "s3cret"]>
    (<[str "SPRITES_TOKEN" := str "token"]> ∅).

(** A signed github delivery of the event [ping] with the body [{}]. *)
Definition ping_request : Request :=
  {| headers :=
       <[str "x-hub-signature-256" := str "sha256=s3cret/{}"]>
         (<[str "x-github-event" := str "ping"]> ∅);
     body := str "{}" |}.

(** A signed github delivery of the event [ping] with the body of
    [unprintable]. *)
Definition unprintable_request : Request :=
  {| headers :=
       <[str "x-hub-signature-256" := str "sha256=s3cret/" ++ unprintable_text]>
         (<[str "x-github-event" := str "ping"]> ∅);
     body := unprintable_text |}.

(** A slack request sent at second 1000, signed with the key [key]. *)
Definition slack_request : Request :=
  {| headers :=
       <[str "x-slack-request-timestamp" := str "1000"]>
         (<[str "x-slack-signature" := str "v0=key/v0:1000:{}"]> ∅);
     body := str "{}" |}.

End Demo.

(** More stand-ins and sample data. *)
Module Sample.

(** The runtime of [Demo] with a [JSON.parse] that reads every body as
    the given payload. *)
Definition runtime_parsing (payload : value) : JsRuntime := {|
  proto_get := proto_get (JsRuntime := Demo.runtime);
  proto_has := proto_has (JsRuntime := Demo.runtime);
  StringToNumber := StringToNumber (JsRuntime := Demo.runtime);
  ToPrimitive := ToPrimitive (JsRuntime := Demo.runtime);
  ToString := ToString (JsRuntime := Demo.runtime);
  toUpperCase := toUpperCase (JsRuntime := Demo.runtime);
  JSON_parse := fun _ => Ok payload;
  encodeURIComponent := encodeURIComponent (JsRuntime := Demo.runtime);
|}.

(** The handshake Slack sends when a URL is configured. *)
Definition handshake : value :=
  VObject [(str "type", VString (str "url_verification"));
           (str "challenge", VString (str "3eZbrw1a"))].

(** An event callback whose event is [null]. *)
Definition callback_without_event : value :=
  VObject [(str "type", VString (str "event_callback"));
           (str "event", VNull)].

(** The JSON text of [callback_without_event]. *)
Definition callback_text : jstring :=
  str "{" ++ [34] ++ str "type" ++ [34] ++ str ":" ++ [34]
  ++ str "event_callback" ++ [34] ++ str "," ++ [34] ++ str "event" ++ [34]
  ++ str ":null}".

(** The runtime of [Demo] with a [JSON.parse] that also reads the text
    [callback_text]. *)
Definition runtime_reading_callback : JsRuntime := {|
  proto_get := proto_get (JsRuntime := Demo.runtime);
  proto_has := proto_has (JsRuntime := Demo.runtime);
  StringToNumber := StringToNumber (JsRuntime := Demo.runtime);
  ToPrimitive := ToPrimitive (JsRuntime := Demo.runtime);
  ToString := ToString (JsRuntime := Demo.runtime);
  toUpperCase := toUpperCase (JsRuntime := Demo.runtime);
  JSON_parse := fun s =>
    if str_eqb s callback_text then Ok callback_without_event
    else JSON_parse (JsRuntime := Demo.runtime) s;
  encodeURIComponent := encodeURIComponent (JsRuntime := Demo.runtime);
|}.

(** A slack request with the body [callback_text], sent at second 1000
    and signed with the key [key]. *)
Definition callback_request : Request :=
  {| headers :=
       <[str "x-slack-request-timestamp" := str "1000"]>
         (<[str "x-slack-signature" := str "v0=key/v0:1000:" ++ callback_text]>
            ∅);
     body := callback_text |}.

Definition slack_env : gmap jstring jstring :=
  <[str "SLACK_WEBHOOK_SECRET" := str "key"]>
    (<[str "SPRITES_TOKEN" := str "token"]> ∅).

(** The registry of index.ts over a runtime. *)
Definition registry (RT : JsRuntime) : gmap jstring SourceAdapter :=
  index_adapters (RT := RT) (CR := Demo.crypto).

(** A parser that reads the text [null] as [null] and every other text
    as the given document. *)
Definition yaml_reading (doc : value) : Yaml := {|
  YAML_parse := fun text =>
    if str_eqb text (str "null") then Ok VNull else Ok doc;
|}.

(** A document that names no executable and whose schedule is not a cron
    expression. *)
Definition loose_document : value :=
  VObject [(str "id", VString (str "nightly"));
           (str "sprite", VObject [(str "name", VString (str "worker"))]);
           (str "source", VObject [(str "type", VString (str "cron"));
                                   (str "schedule", VString (str "soon"))]);
           (str "run", VString (str "tidy up"))].

Definition kv_env : gmap jstring jstring :=
  <[str "CF_ACCOUNT_ID" := str "acct"]>
    (<[str "CF_API_TOKEN" := str "tok"]>
       (<[str "CF_KV_NAMESPACE_ID" := str "ns"]>
          (<[str "ADMIN_TOKEN" := str "admin"]> ∅))).

Definition page (names : list jstring) (cursor : option jstring)
  : KVResponse :=
  {| kv_ok := true; kv_status := 200; kv_statusText := str "OK";
     kv_text := Ok [];
     kv_json := Ok {| list_success := true; list_errors := [];
                      list_result := map Build_KVKey names;
                      list_cursor := cursor |} |}.

(** A store that lists three keys on two pages, has lost the value of the
    key [automation:gone], and holds under every other key the text
    [null] when the key ends in [empty] and the text [doc] otherwise. *)
Definition store : KVService := {|
  kv_fetch := fun req =>
    if endsWith (kv_url req) (str "/keys") then
      if bool_decide ((str "cursor", str "next") ∈ kv_query req)
      then Ok (page [str "automation:weekly"] None)
      else Ok (page [str "automation:nightly"; str "automation:gone"]
                 (Some (str "next")))
    else if endsWith (kv_url req) (str "automation:gone") then
      Ok {| kv_ok := false; kv_status := 404;
            kv_statusText := str "Not Found"; kv_text := Ok [];
            kv_json := Throw (JsError (str "Unexpected end of JSON input")) |}
    else
      Ok {| kv_ok := true; kv_status := 200; kv_statusText := str "OK";
            kv_text := Ok (if endsWith (kv_url req) (str "empty")
                           then str "null" else str "doc");
            kv_json := Throw (JsError (str "Unexpected token")) |};
|}.

(** A cast that keeps the id of a document. *)
Definition cast (doc : value) : Automation :=
  Demo.cron_automation
    (match own_property
             (match doc with VObject props => props | _ => [] end)
             (str "id") with
     | Some (VString s) => s
     | _ => []
     end)
    (str "0 2 * * *").

End Sample.

(* ===================================================================== *)
(** * Properties *)
(* ===================================================================== *)

(** ** Strings *)

Lemma startsWith_spec (s p : jstring) :
  startsWith s p = true <-> exists rest, s = p ++ rest.
Proof.
  revert s; induction p as [|a p IH]; intros s; simpl.
  - split; [intros _; by exists s | done].
  - destruct s as [|c s].
    + split; [done | intros [rest Hr]; discriminate].
    + rewrite andb_true_iff, N.eqb_eq, IH. split.
      * intros [-> [rest ->]]. by exists rest.
      * intros [rest [= -> ->]]. split; [done | by exists rest].
Qed.

Lemma includes_spec (s p : jstring) :
  includes s p = true <-> exists before after, s = before ++ p ++ after.
Proof.
  induction s as [|c s IH]; simpl.
  - rewrite orb_false_r, startsWith_spec. split.
    + intros [rest Hr]. by exists [], rest.
    + intros [before [after Hs]]. destruct before; [by exists after|done].
  - rewrite orb_true_iff, IH, startsWith_spec. split.
    + intros [[rest Hr] | [before [after Hs]]].
      * by exists [], rest.
      * exists (c :: before), after. by rewrite Hs.
    + intros [[|b before] [after Hs]].
      * left. by exists after.
      * right. exists before, after. simpl in Hs. congruence.
Qed.

Lemma split_on_nonempty (sep : N) (s : jstring) : split_on sep s <> [].
Proof.
  destruct s as [|c s]; simpl; [done|].
  destruct (c =? sep); [done|]. by destruct (split_on sep s).
Qed.

Lemma split_on_sep (sep : N) (p s : jstring) :
  exists first rest,
    split_on sep s = first :: rest
    /\ split_on sep (p ++ sep :: s) = split_on sep p ++ first :: rest.
Proof.
  destruct (split_on sep s) as [|first rest] eqn:Es;
    [by apply split_on_nonempty in Es|].
  exists first, rest. split; [done|].
  induction p as [|c p IH]; simpl.
  - by rewrite N.eqb_refl, Es.
  - destruct (c =? sep); rewrite IH; [done|].
    destruct (split_on sep p) as [|q qs] eqn:E; [|done].
    by apply split_on_nonempty in E.
Qed.

(** ** Path resolver *)

Section PathResolverFacts.
Context `{RT : JsRuntime}.

Lemma get_property_composite (v : value) (key : jstring) :
  composite v = true -> returns (get_property v key).
Proof. destruct v; simpl; try done; intros _; eexists; reflexivity. Qed.

Lemma walk_step_scalar (part : jstring) (rest : list jstring) (cur : value) :
  composite cur = false -> walk (part :: rest) cur = Ok VUndefined.
Proof. by destruct cur. Qed.

Lemma walk_step_composite (part : jstring) (rest : list jstring) (cur : value) :
  composite cur = true ->
  exists next, get_property cur part = Ok next
               /\ walk (part :: rest) cur = walk rest next.
Proof.
  intros Hc. destruct (get_property_composite cur part Hc) as [next Hn].
  exists next. split; [done|].
  destruct cur; simpl in *; try done; by rewrite ?Hn; inversion Hn.
Qed.

Lemma walk_returns (parts : list jstring) (cur : value) :
  returns (walk parts cur).
Proof.
  revert cur; induction parts as [|part rest IH]; intros cur.
  - by exists cur.
  - destruct (composite cur) eqn:Hc.
    + destruct (walk_step_composite part rest cur Hc) as [next [_ ->]].
      apply IH.
    + rewrite walk_step_scalar by done. by eexists.
Qed.

Lemma walk_through_scalar (pre : list jstring) (part : jstring)
    (rest : list jstring) (cur v : value) :
  walk pre cur = Ok v -> composite v = false ->
  walk (pre ++ part :: rest) cur = Ok VUndefined.
Proof.
  revert cur; induction pre as [|p pre IH]; intros cur Hw Hv.
  - injection Hw as ->. by apply walk_step_scalar.
  - destruct (composite cur) eqn:Hc.
    + destruct (walk_step_composite p pre cur Hc) as [next [Hn Hstep]].
      destruct (walk_step_composite p (pre ++ part :: rest) cur Hc)
        as [next' [Hn' Hstep']].
      rewrite Hn in Hn'. injection Hn' as <-.
      change ((p :: pre) ++ part :: rest) with (p :: (pre ++ part :: rest)).
      rewrite Hstep'. apply IH; [|done]. by rewrite <- Hstep.
    + by apply walk_step_scalar.
Qed.

Lemma walk_app (pre post : list jstring) (cur : value) :
  walk (pre ++ post) cur = (v ← walk pre cur; walk post v).
Proof.
  revert cur; induction pre as [|p pre IH]; intros cur; [done|].
  destruct (composite cur) eqn:Hc.
  - destruct (walk_step_composite p pre cur Hc) as [next [Hn ->]].
    change ((p :: pre) ++ post) with (p :: (pre ++ post)).
    destruct (walk_step_composite p (pre ++ post) cur Hc)
      as [next' [Hn' ->]].
    assert (next' = next) as -> by congruence. apply IH.
  - change ((p :: pre) ++ post) with (p :: (pre ++ post)).
    rewrite !walk_step_scalar by done. simpl. by destruct post.
Qed.

Lemma split_on_key (sep : N) (key : jstring) :
  forallb (fun c => negb (c =? sep)) key = true -> split_on sep key = [key].
Proof.
  induction key as [|c key IH]; simpl; [done|].
  intros [Hc Hs]%andb_true_iff. apply negb_true_iff in Hc.
  by rewrite Hc, IH.
Qed.

(** A key that an object does not have resolves to what the object
    inherits under that name. *)
Lemma getNestedValue_missing_key (root : value) (path key : jstring)
    (props : list (jstring * value)) :
  getNestedValue root path = Ok (VObject props) ->
  own_property props key = None ->
  forallb (fun c => negb (c =? 46)) key = true ->
  getNestedValue root (path ++ 46 :: key)
  = Ok (proto_get (VObject props) key).
Proof.
  unfold getNestedValue. intros Hv Hown Hkey.
  destruct (split_on_sep 46 path key) as (first & rest & Hs & ->).
  rewrite split_on_key in Hs by done. injection Hs as <- <-.
  rewrite walk_app, Hv. simpl. by rewrite Hown.
Qed.

Lemma getNestedValue_returns (obj : value) (path : jstring) :
  returns (getNestedValue obj path).
Proof. apply walk_returns. Qed.

End PathResolverFacts.

(** C6, as the code has it.  getNestedValue returns a value for every
    root and every path: it never throws.  At a segment it indexes the
    current value exactly when that value is an object or an array; on a
    scalar, [null] or [undefined] it answers [undefined].  Once a path
    resolves to a value that is not composite, every longer path through
    it resolves to [undefined].  A key that an object does not have
    resolves to what the object inherits under that name: to [undefined],
    with every longer path, only when it inherits nothing under it. *)
Theorem getNestedValue_total_and_absent `{RT : JsRuntime}
    (root : value) (path : jstring) :
  returns (getNestedValue root path)
  /\ (forall part rest cur,
        composite cur = false -> walk (part :: rest) cur = Ok VUndefined)
  /\ (forall part rest cur,
        composite cur = true ->
        exists next, get_property cur part = Ok next
                     /\ walk (part :: rest) cur = walk rest next)
  /\ (forall v suffix,
        getNestedValue root path = Ok v -> composite v = false ->
        getNestedValue root (path ++ 46 :: suffix) = Ok VUndefined)
  /\ (forall props key,
        getNestedValue root path = Ok (VObject props) ->
        own_property props key = None ->
        forallb (fun c => negb (c =? 46)) key = true ->
        getNestedValue root (path ++ 46 :: key)
        = Ok (proto_get (VObject props) key)
        /\ (proto_get (VObject props) key = VUndefined ->
            forall suffix,
              getNestedValue root (path ++ 46 :: key ++ 46 :: suffix)
              = Ok VUndefined)).
Proof.
  assert (forall r p v suffix,
            getNestedValue r p = Ok v -> composite v = false ->
            getNestedValue r (p ++ 46 :: suffix) = Ok VUndefined) as Hscalar.
  { intros r p v suffix Hv Hc. unfold getNestedValue in *.
    destruct (split_on_sep 46 p suffix) as [first [rest [_ ->]]].
    by eapply walk_through_scalar. }
  split; [apply getNestedValue_returns|].
  split; [intros; by apply walk_step_scalar|].
  split; [intros; by apply walk_step_composite|].
  split; [apply Hscalar|].
  intros props key Hv Hown Hkey.
  pose proof (getNestedValue_missing_key root path key props Hv Hown Hkey)
    as Hmissing.
  split; [done|]. intros Hnone suffix.
  replace (path ++ 46 :: key ++ 46 :: suffix)
    with ((path ++ 46 :: key) ++ 46 :: suffix)
    by (by rewrite <- app_assoc).
  apply (Hscalar root (path ++ 46 :: key) VUndefined); [|done].
  by rewrite Hmissing, Hnone.
Qed.

(** ** Match evaluator *)

Section RegexFacts.
Context {A : Type}.

Lemma greedy_star_suffix (p : N -> bool) (k : jstring -> option A)
    (s : jstring) (r : A) :
  greedy_star p k s = Some r ->
  exists before rest, s = before ++ rest /\ k rest = Some r.
Proof.
  induction s as [|c s IH]; simpl.
  - intros Hk. by exists [], [].
  - destruct (p c).
    + destruct (greedy_star p k s) as [r'|] eqn:E.
      * intros [= ->]. destruct (IH eq_refl) as [before [rest [-> Hk]]].
        by exists (c :: before), rest.
      * intros Hk. by exists [], (c :: s).
    + intros Hk. by exists [], (c :: s).
Qed.

Lemma lazy_plus_suffix (p : N -> bool) (k : jstring -> jstring -> option A)
    (acc s : jstring) (r : A) :
  lazy_plus p k acc s = Some r ->
  exists group before rest, s = before ++ rest /\ k group rest = Some r.
Proof.
  revert acc; induction s as [|c s IH]; intros acc; simpl; [done|].
  destruct (p c); [|done].
  destruct (k (rev acc ++ [c]) s) as [r'|] eqn:E.
  - intros [= ->]. by exists (rev acc ++ [c]), [c], s.
  - intros Hl. destruct (IH _ Hl) as [group [before [rest [-> Hk]]]].
    by exists group, (c :: before), rest.
Qed.

Lemma literal_starts (l : jstring) (k : jstring -> option A) (s : jstring)
    (r : A) :
  literal l k s = Some r -> startsWith s l = true.
Proof. unfold literal. by destruct (startsWith s l). Qed.

End RegexFacts.

Lemma includes_suffix (before s p : jstring) :
  startsWith s p = true -> includes (before ++ s) p = true.
Proof.
  intros [rest ->]%startsWith_spec. apply includes_spec.
  by exists before, rest.
Qed.

(** The regular expression of an operator only matches an expression that
    contains the operator. *)
Lemma match_operator_includes (op expression : jstring)
    (groups : jstring * jstring) :
  match_operator op expression = Some groups ->
  includes expression op = true.
Proof.
  unfold match_operator. intros Hm.
  apply lazy_plus_suffix in Hm as [path [b1 [r1 [-> Hm]]]].
  apply greedy_star_suffix in Hm as [b2 [r2 [-> Hm]]].
  apply literal_starts in Hm.
  rewrite app_assoc. by apply includes_suffix.
Qed.

Section MatcherFacts.
Context `{RT : JsRuntime}.

(** On a value that is no object, array or function [==] converts
    nothing and cannot throw. *)
Lemma loose_eq_returns (x lit : value) :
  composite x = false -> typeof x <> TFunction -> returns (loose_eq x lit).
Proof. destruct x; simpl; try done; intros _ _; by eexists. Qed.

Lemma evaluateExpression_no_operator (expression : jstring)
    (context : value) :
  includes expression (str "==") = false ->
  includes expression (str "!=") = false ->
  evaluateExpression expression context = Ok false.
Proof.
  intros Heq Hneq. unfold evaluateExpression.
  destruct (match_operator (str "!=") expression) as [g|] eqn:E1.
  { apply match_operator_includes in E1. congruence. }
  destruct (match_operator (str "==") expression) as [g|] eqn:E2.
  { apply match_operator_includes in E2. congruence. }
  done.
Qed.

(** [every] over callbacks that return is the conjunction of what they
    return. *)
Lemma every_conjunction {A} (f : A -> outcome bool) (xs : list A)
    (bs : list bool) :
  Forall2 (fun x b => f x = Ok b) xs bs ->
  every f xs = Ok (fold_right andb true bs).
Proof.
  induction 1 as [|x b xs bs Hx _ IH]; simpl; [done|].
  rewrite Hx. simpl. rewrite IH. by destruct b.
Qed.

(** [every] behind elements the callback accepts. *)
Lemma every_behind {A} (f : A -> outcome bool) (before after : list A)
    (x : A) :
  Forall (fun y => f y = Ok true) before ->
  every f (before ++ x :: after)
  = (b ← f x; if b : bool then every f after else Ok false).
Proof.
  induction 1 as [|y before Hy _ IH]; simpl; [done|].
  rewrite Hy. simpl. apply IH.
Qed.

Lemma every_true {A} (f : A -> outcome bool) (xs : list A) :
  every f xs = Ok true <-> Forall (fun x => f x = Ok true) xs.
Proof.
  induction xs as [|x xs IH]; simpl.
  - split; [by constructor | done].
  - rewrite Forall_cons. destruct (f x) as [[]|e]; simpl.
    + rewrite IH. split; [by intros ? | by intros [_ ?]].
    + split; [done | by intros [? _]].
    + split; [done | by intros [? _]].
Qed.

(** What [every] does other than answer true, it does at the first
    element the callback does not accept. *)
Lemma every_first {A} (f : A -> outcome bool) (xs : list A)
    (r : outcome bool) :
  r <> Ok true ->
  every f xs = r
  <-> exists before x after,
        xs = before ++ x :: after
        /\ Forall (fun y => f y = Ok true) before
        /\ f x = r.
Proof.
  intros Hr. split.
  - revert r Hr. induction xs as [|x xs IH]; intros r Hr; simpl.
    + intros <-. done.
    + destruct (f x) as [[]|e] eqn:Hx; simpl.
      * intros Hev. destruct (IH r Hr Hev) as (before & y & after & -> & Hb & Hy).
        exists (x :: before), y, after. split; [done|].
        split; [by constructor | done].
      * intros <-. exists [], x, xs. by split; [|split].
      * intros <-. exists [], x, xs. by split; [|split].
  - intros (before & x & after & -> & Hb & Hx).
    rewrite every_behind by done. rewrite Hx.
    destruct r as [[]|e]; simpl; done.
Qed.

Lemma every_map {A B} (g : A -> B) (f : B -> outcome bool) (xs : list A) :
  every f (map g xs) = every (fun x => f (g x)) xs.
Proof.
  induction xs as [|x xs IH]; simpl; [done|].
  destruct (f (g x)) as [[]|e]; simpl; [apply IH | done | done].
Qed.

(** On a list of strings evaluateMatches is [every] over
    evaluateExpression. *)
Lemma evaluateMatches_strings (exprs : list jstring) (payload : value) :
  evaluateMatches (string_array exprs) payload
  = every (fun expr => evaluateExpression expr (match_context payload))
      exprs.
Proof.
  unfold evaluateMatches, string_array. simpl.
  rewrite length_map. destruct exprs as [|expr exprs]; [done|].
  cbn [length Nat.eqb]. cbv iota.
  apply (every_map VString
           (fun expr => evaluate_element expr (match_context payload))).
Qed.

End MatcherFacts.

(** In the context of a payload [{action: "opened"}] the path
    [payload.action] resolves to a string and no path through it resolves
    to anything; the payload has no key [draft] and inherits none. *)
Lemma getNestedValue_total_and_absent_witness :
  let payload := [(str "action", VString (str "opened"))] in
  let root := match_context (VObject payload) in
  getNestedValue (RT := Demo.runtime) root (str "payload.action")
  = Ok (VString (str "opened"))
  /\ getNestedValue (RT := Demo.runtime) root
       (str "payload.action" ++ 46 :: str "length.x")
     = Ok VUndefined
  /\ getNestedValue (RT := Demo.runtime) root
       (str "payload" ++ 46 :: str "draft" ++ 46 :: str "x")
     = Ok VUndefined.
Proof.
  intros payload root. split; [by vm_compute|].
  destruct (getNestedValue_total_and_absent (RT := Demo.runtime) root
              (str "payload.action")) as (_ & _ & _ & Hsuffix & _).
  split; [apply (Hsuffix (VString (str "opened"))); by vm_compute|].
  destruct (getNestedValue_total_and_absent (RT := Demo.runtime) root
              (str "payload")) as (_ & _ & _ & _ & Hmissing).
  destruct (Hmissing payload (str "draft")) as [_ Hnone];
    [by vm_compute | by vm_compute | by vm_compute |].
  apply Hnone. by vm_compute.
Defined.

(** C6, as the spec has it, fails.  The payload [{}] has no key
    [constructor], and the path [payload.constructor] resolves to the
    function every object inherits under that name; so does
    [payload.__proto__.constructor]. *)
Lemma getNestedValue_inherited_key :
  let root := match_context (VObject []) in
  own_property [] (str "constructor") = None
  /\ getNestedValue (RT := Demo.runtime) root (str "payload.constructor")
     = Ok (VFunction (str "Object"))
  /\ getNestedValue (RT := Demo.runtime) root
       (str "payload.__proto__.constructor")
     = Ok (VFunction (str "Object")).
Proof. by vm_compute. Qed.

(** C4, as the code has it.  evaluateMatches answers true when the
    predicate list is absent or empty.  On a list of predicates it
    evaluates them in order and stops at the first that is not true: when
    every predicate evaluates to a boolean the answer is the conjunction
    of these booleans; the answer is true exactly when every predicate
    evaluates to true, false exactly when the first predicate that is not
    true evaluates to false, and it throws exactly when the evaluation of
    that predicate throws. *)
Theorem evaluateMatches_conjunction `{RT : JsRuntime} (payload : value) :
  evaluateMatches VUndefined payload = Ok true
  /\ evaluateMatches (string_array []) payload = Ok true
  /\ forall exprs : list jstring,
       let evaluate expr := evaluateExpression expr (match_context payload) in
       let first_not_true r :=
         exists before expr after,
           exprs = before ++ expr :: after
           /\ Forall (fun e => evaluate e = Ok true) before
           /\ evaluate expr = r in
       (forall bs : list bool,
          Forall2 (fun expr b => evaluate expr = Ok b) exprs bs ->
          evaluateMatches (string_array exprs) payload
          = Ok (fold_right andb true bs))
       /\ (evaluateMatches (string_array exprs) payload = Ok true
           <-> Forall (fun expr => evaluate expr = Ok true) exprs)
       /\ (evaluateMatches (string_array exprs) payload = Ok false
           <-> first_not_true (Ok false))
       /\ (forall e,
             evaluateMatches (string_array exprs) payload = Throw e
             <-> first_not_true (Throw e)).
Proof.
  split; [done|]. split; [done|]. intros exprs evaluate first_not_true.
  rewrite evaluateMatches_strings. fold evaluate.
  split; [apply every_conjunction|].
  split; [apply every_true|].
  split; [by apply every_first|].
  intros e. by apply every_first.
Qed.

(** C4, as the spec has it, fails.  Against a payload whose field [a] is
    the object [{toString: 0}], which has no primitive, the predicate
    [payload.a == 1] throws, and so does the list that holds only it: the
    list has no answer.  After a predicate that is false the list answers
    false, before it the list throws. *)
Lemma evaluateMatches_conversion_throws :
  let payload :=
    VObject [(str "a", VObject [(str "toString", VNumber (number_of_Z 0))])] in
  let e := JsError (str "Cannot convert object to primitive value") in
  evaluateMatches (RT := Demo.runtime)
    (string_array [str "payload.a == 1"]) payload = Throw e
  /\ evaluateMatches (RT := Demo.runtime)
       (string_array [str "payload.b == 1"; str "payload.a == 1"]) payload
     = Ok false
  /\ evaluateMatches (RT := Demo.runtime)
       (string_array [str "payload.a == 1"; str "payload.b == 1"]) payload
     = Throw e.
Proof. by vm_compute. Qed.

(** C5.  A predicate that contains neither [==] nor [!=] evaluates to
    false, without throwing, in every context.  A predicate list that
    holds such a predicate never matches, and answers false when the
    predicates before it evaluate without throwing. *)
Theorem evaluateExpression_fails_closed `{RT : JsRuntime} (expression : jstring) :
  includes expression (str "==") = false ->
  includes expression (str "!=") = false ->
  (forall context, evaluateExpression expression context = Ok false)
  /\ (forall exprs payload,
        In expression exprs ->
        evaluateMatches (string_array exprs) payload <> Ok true)
  /\ (forall before after payload,
        Forall (fun expr =>
                  returns (evaluateExpression expr (match_context payload)))
          before ->
        evaluateMatches (string_array (before ++ expression :: after))
          payload = Ok false).
Proof.
  intros Heq Hneq.
  assert (forall context, evaluateExpression expression context = Ok false)
    as Hfalse by (intros; by apply evaluateExpression_no_operator).
  split; [done|]. split.
  - intros exprs payload Hin. rewrite evaluateMatches_strings.
    intros Htrue%every_true. rewrite Forall_forall in Htrue.
    apply list_elem_of_In in Hin. apply Htrue in Hin.
    rewrite Hfalse in Hin. done.
  - intros before after payload Hbefore. rewrite evaluateMatches_strings.
    induction Hbefore as [|expr before [b Hb] _ IH]; simpl.
    + by rewrite Hfalse.
    + rewrite Hb. simpl. by destruct b.
Qed.

(** A predicate with a single [=] has no operator: it evaluates to false,
    and so does a list that holds it after a predicate that is true. *)
Lemma evaluateExpression_fails_closed_witness :
  let payload := VObject [(str "action", VString (str "opened"))] in
  evaluateExpression (RT := Demo.runtime) (str "payload.action = opened")
    (match_context payload) = Ok false
  /\ evaluateMatches (RT := Demo.runtime)
       (string_array
          [str "payload.action == opened"; str "payload.action = opened"])
       payload = Ok false.
Proof.
  intros payload.
  destruct (evaluateExpression_fails_closed (RT := Demo.runtime)
              (str "payload.action = opened"))
    as (Hone & _ & Hlist); [by vm_compute | by vm_compute |].
  split; [apply Hone|].
  apply (Hlist [str "payload.action == opened"] []).
  repeat constructor. eexists. by vm_compute.
Defined.

(** The scenarios of the specification for one predicate. *)
Example scenario_predicate_opened :
  let predicate := str "payload.action == " ++ [34] ++ str "opened" ++ [34] in
  let evaluate payload :=
    evaluateMatches (RT := Demo.runtime) (string_array [predicate]) payload in
  evaluate (VObject [(str "action", VString (str "opened"))]) = Ok true
  /\ evaluate (VObject [(str "action", VString (str "closed"))]) = Ok false
  /\ evaluate (VObject []) = Ok false.
Proof. by vm_compute. Qed.

(** ** Source adapters *)

(** C7.  slackAdapter.validate answers false for a request whose timestamp
    header is a number more than 300 seconds away from the clock, whatever
    signature it carries, and for a request without timestamp header or
    without signature header. *)
Theorem slack_validate_replay_window `{CR : Crypto}
    (now : Z) (request : Request) (secret : jstring) :
  (forall timestamp t,
      headers_get request (str "X-Slack-Request-Timestamp") = Some timestamp ->
      parseInt10 timestamp = Some t ->
      (Z.abs (now - t) > 300)%Z ->
      slack_validate now request secret = Ok false)
  /\ (headers_get request (str "X-Slack-Request-Timestamp") = None
      \/ headers_get request (str "X-Slack-Signature") = None ->
      slack_validate now request secret = Ok false).
Proof.
  split.
  - intros timestamp t Hts Ht Hold. unfold slack_validate.
    rewrite Hts. simpl default. rewrite Ht.
    destruct (negb (truthy (Some timestamp)) || _); [done|].
    replace (Z.abs (now - t) >? MAX_REQUEST_AGE_SECONDS)%Z with true; [done|].
    symmetry. apply Z.gtb_lt. unfold MAX_REQUEST_AGE_SECONDS. lia.
  - intros [Hn | Hn]; unfold slack_validate; rewrite Hn; simpl.
    + done.
    + by rewrite orb_true_r.
Qed.

(** The request of the example is accepted while it is fresh, with the
    signature it carries, and refused after 300 seconds. *)
Lemma slack_validate_replay_window_witness :
  slack_validate (CR := Demo.crypto) 1300 Demo.slack_request (str "key")
  = Ok true
  /\ slack_validate (CR := Demo.crypto) 1301 Demo.slack_request (str "key")
     = Ok false.
Proof.
  split; [by vm_compute|].
  apply (proj1 (slack_validate_replay_window (CR := Demo.crypto) 1301
                  Demo.slack_request (str "key")) (str "1000") 1000%Z);
    [by vm_compute | by vm_compute | lia].
Defined.

(** C1.  agentmailAdapter.validate answers true for every request: also
    for one without signature header, which the check its documentation
    describes refuses. *)
Theorem agentmail_validate_accepts_unsigned `{RT : JsRuntime} `{CR : Crypto}
    (now : Z) (text secret : jstring) :
  let request := {| headers := ∅; body := text |} in
  headers_get request (str "X-Agentmail-Signature") = None
  /\ validate agentmailAdapter now request secret = Ok true
  /\ agentmail_validate_documented request secret = Ok false.
Proof.
  simpl. split; [apply lookup_empty|]. split; [done|].
  unfold agentmail_validate_documented, headers_get. simpl.
  by rewrite lookup_empty.
Qed.

(** ** Scheduler *)

Lemma NoDup_fmap_eq {A B} (f : A -> B) (l : list A) (x y : A) :
  NoDup (f <$> l) -> x ∈ l -> y ∈ l -> f x = f y -> x = y.
Proof.
  induction l as [|a l IH]; [by intros _ ?%elem_of_nil|].
  rewrite fmap_cons, NoDup_cons, !elem_of_cons.
  intros [Ha Hl] [-> | Hx] [-> | Hy] Hf; [done| | |by apply IH].
  - destruct Ha. rewrite Hf. by apply list_elem_of_fmap_2.
  - destruct Ha. rewrite <- Hf. by apply list_elem_of_fmap_2.
Qed.

Lemma filter_filter_absorb {A} (P Q : A -> Prop)
    `{!forall x, Decision (P x)} `{!forall x, Decision (Q x)} (l : list A) :
  (forall x, x ∈ l -> P x -> Q x) ->
  filter P (filter Q l) = filter P l.
Proof.
  induction l as [|a l IH]; [done|]. intros Hl.
  rewrite !filter_cons.
  destruct (decide (Q a)) as [Hq|Hq], (decide (P a)) as [Hp|Hp].
  - rewrite filter_cons_True by done. f_equal. apply IH.
    intros x Hx. apply Hl. by right.
  - rewrite filter_cons_False by done. apply IH.
    intros x Hx. apply Hl. by right.
  - destruct Hq. apply Hl; [by left | done].
  - apply IH. intros x Hx. apply Hl. by right.
Qed.

Lemma NoDup_fmap_filter {A B} (f : A -> B) (P : A -> Prop)
    `{!forall x, Decision (P x)} (l : list A) :
  NoDup (f <$> l) -> NoDup (f <$> filter P l).
Proof.
  intros Hl. eapply sublist_NoDup; [exact Hl|].
  apply fmap_sublist, sublist_filter.
Qed.

Section SchedulerFacts.
Context `{CRON : NodeCron}.

Lemma scheduler_init_inv : scheduler_inv scheduler_init.
Proof.
  split; simpl.
  - constructor.
  - by intros t ?%elem_of_nil.
  - by intros t ?%elem_of_nil.
  - intros key t. by rewrite lookup_empty.
Qed.

(** No timer fires an id the map does not hold. *)
Lemma active_timers_unregistered (key : jstring) (st : Scheduler) :
  scheduler_inv st -> scheduledTasks st !! key = None ->
  active_timers key st = [].
Proof.
  intros Hinv Hnone. apply elem_of_nil_inv. intros t.
  unfold active_timers. rewrite list_elem_of_filter. intros [<- Ht].
  apply (inv_timer_tracked _ Hinv) in Ht. congruence.
Qed.

(** The timers of an id the map holds: the one task of the entry. *)
Lemma active_timers_registered (key : jstring) (task : ScheduledTask)
    (st : Scheduler) :
  scheduler_inv st -> scheduledTasks st !! key = Some task ->
  forall t, t ∈ active_timers key st -> t = task.
Proof.
  intros Hinv Hsome t. unfold active_timers.
  rewrite list_elem_of_filter. intros [<- Ht].
  apply (inv_timer_tracked _ Hinv) in Ht. congruence.
Qed.

Lemma active_timers_at_most_one (key : jstring) (st : Scheduler) :
  scheduler_inv st -> (length (active_timers key st) <= 1)%nat.
Proof.
  intros Hinv.
  destruct (scheduledTasks st !! key) as [task|] eqn:E.
  - pose proof (active_timers_registered key task st Hinv E) as Hall.
    assert (NoDup (task_ref <$> active_timers key st)) as Hnd.
    { apply NoDup_fmap_filter, (inv_refs_distinct _ Hinv). }
    destruct (active_timers key st) as [|t1 [|t2 l]]; simpl; [lia | lia |].
    rewrite (Hall t1), (Hall t2) in Hnd by (rewrite !elem_of_cons; auto).
    rewrite !fmap_cons, NoDup_cons, elem_of_cons in Hnd.
    destruct Hnd as [Hnd _]. destruct Hnd. by left.
  - rewrite active_timers_unregistered by done. simpl. lia.
Qed.

(** Stopping the task of an entry and deleting the entry. *)
Section Drop.
Variables (key : jstring) (task : ScheduledTask) (st : Scheduler).
Hypothesis Hinv : scheduler_inv st.
Hypothesis Htask : scheduledTasks st !! key = Some task.

Lemma drop_inv : scheduler_inv (tasks_delete key (task_stop task st)).
Proof.
  destruct (inv_task_running _ Hinv key task Htask) as [Hin Hid].
  split; simpl.
  - apply NoDup_fmap_filter, (inv_refs_distinct _ Hinv).
  - intros t [_ Ht]%list_elem_of_filter. by apply (inv_refs_fresh _ Hinv).
  - intros t [Href Ht]%list_elem_of_filter.
    rewrite lookup_delete_ne; [by apply (inv_timer_tracked _ Hinv)|].
    intros Hk. apply (inv_timer_tracked _ Hinv) in Ht.
    rewrite <- Hk, Htask in Ht. congruence.
  - intros k t. destruct (decide (key = k)) as [->|Hne].
    { by rewrite lookup_delete_eq. }
    rewrite lookup_delete_ne by done. intros Hk.
    destruct (inv_task_running _ Hinv k t Hk) as [Ht Hidt].
    split; [|done]. apply list_elem_of_filter. split; [|done].
    intros Href. destruct Hne.
    assert (t = task) as ->; [|congruence].
    by apply (NoDup_fmap_eq task_ref (timers st));
      [apply (inv_refs_distinct _ Hinv)| | |].
Qed.

Lemma drop_active_key :
  active_timers key (tasks_delete key (task_stop task st)) = [].
Proof.
  apply active_timers_unregistered; [apply drop_inv|].
  simpl. apply lookup_delete_eq.
Qed.

Lemma drop_active_other (k : jstring) :
  k <> key ->
  active_timers k (tasks_delete key (task_stop task st))
  = active_timers k st.
Proof.
  intros Hne. unfold active_timers. simpl.
  apply filter_filter_absorb. intros t Ht Hk Href.
  destruct (inv_task_running _ Hinv key task Htask) as [Hin Hid].
  destruct Hne.
  assert (t = task) as ->; [|congruence].
  by apply (NoDup_fmap_eq task_ref (timers st));
    [apply (inv_refs_distinct _ Hinv)| | |].
Qed.

End Drop.

(** *** unregisterCronJob *)

Lemma unregisterCronJob_inv (key : jstring) (st : Scheduler) :
  scheduler_inv st -> scheduler_inv (snd (unregisterCronJob key st)).
Proof.
  intros Hinv. unfold unregisterCronJob.
  destruct (scheduledTasks st !! key) as [task|] eqn:E; simpl; [|done].
  by apply drop_inv.
Qed.

Lemma unregisterCronJob_other (key k : jstring) (st : Scheduler) :
  scheduler_inv st -> k <> key ->
  scheduledTasks (snd (unregisterCronJob key st)) !! k
  = scheduledTasks st !! k
  /\ active_timers k (snd (unregisterCronJob key st)) = active_timers k st.
Proof.
  intros Hinv Hne. unfold unregisterCronJob.
  destruct (scheduledTasks st !! key) as [task|] eqn:E; simpl; [|done].
  split; [by apply lookup_delete_ne | by apply drop_active_other].
Qed.

(** *** registerCronJob *)

Lemma stop_existing_inv (a : Automation) (st : Scheduler) :
  scheduler_inv st -> scheduler_inv (stop_existing a st).
Proof.
  intros Hinv. unfold stop_existing.
  destruct (scheduledTasks st !! id a) as [task|] eqn:E; [|done].
  by apply drop_inv.
Qed.

Lemma stop_existing_lookup (a : Automation) (st : Scheduler) :
  scheduledTasks (stop_existing a st) !! id a = None.
Proof.
  unfold stop_existing.
  destruct (scheduledTasks st !! id a) as [task|] eqn:E; [|done].
  simpl. apply lookup_delete_eq.
Qed.

Lemma stop_existing_next_ref (a : Automation) (st : Scheduler) :
  next_ref (stop_existing a st) = next_ref st.
Proof.
  unfold stop_existing. by destruct (scheduledTasks st !! id a).
Qed.

Lemma stop_existing_other (a : Automation) (k : jstring) (st : Scheduler) :
  scheduler_inv st -> k <> id a ->
  scheduledTasks (stop_existing a st) !! k = scheduledTasks st !! k
  /\ active_timers k (stop_existing a st) = active_timers k st.
Proof.
  intros Hinv Hne. unfold stop_existing.
  destruct (scheduledTasks st !! id a) as [task|] eqn:E; [|done].
  split; [by apply lookup_delete_ne | by apply drop_active_other].
Qed.

Lemma registerCronJob_rejects (a : Automation) (st : Scheduler) :
  accepted a = false -> registerCronJob a st = (false, st).
Proof.
  unfold accepted, registerCronJob.
  destruct (isCronSource (source a)); simpl; [|done].
  by intros ->.
Qed.

Lemma registerCronJob_accepts (a : Automation) (st : Scheduler) :
  accepted a = true ->
  registerCronJob a st =
  (true,
   {| scheduledTasks :=
        <[id a := new_task a st]> (scheduledTasks (stop_existing a st));
      timers := new_task a st :: timers (stop_existing a st);
      next_ref := S (next_ref st) |}).
Proof.
  unfold accepted, registerCronJob.
  intros [-> ->]%andb_true_iff. simpl.
  unfold cron_schedule, tasks_set, new_task. simpl.
  by rewrite stop_existing_next_ref.
Qed.

Lemma registerCronJob_fst (a : Automation) (st : Scheduler) :
  fst (registerCronJob a st) = accepted a.
Proof.
  destruct (accepted a) eqn:E.
  - by rewrite registerCronJob_accepts.
  - by rewrite registerCronJob_rejects.
Qed.

Lemma registerCronJob_inv (a : Automation) (st : Scheduler) :
  scheduler_inv st -> scheduler_inv (snd (registerCronJob a st)).
Proof.
  intros Hinv. destruct (accepted a) eqn:E;
    [|by rewrite registerCronJob_rejects].
  rewrite registerCronJob_accepts by done. simpl.
  pose proof (stop_existing_inv a st Hinv) as Hs.
  pose proof (stop_existing_lookup a st) as Hnone.
  assert (forall t, t ∈ timers (stop_existing a st) ->
                    (task_ref t < next_ref st)%nat) as Hfresh.
  { intros t Ht. rewrite <- (stop_existing_next_ref a st).
    by apply (inv_refs_fresh _ Hs). }
  split; simpl.
  - apply NoDup_cons. split.
    + intros [t [Href Ht]]%list_elem_of_fmap. apply Hfresh in Ht.
      simpl in Href. lia.
    + apply (inv_refs_distinct _ Hs).
  - intros t [->|Ht]%elem_of_cons; simpl; [lia|].
    apply Hfresh in Ht. lia.
  - intros t [->|Ht]%elem_of_cons; simpl.
    + apply lookup_insert_eq.
    + apply (inv_timer_tracked _ Hs) in Ht.
      rewrite lookup_insert_ne; [done|]. intros Hk. congruence.
  - intros k t. destruct (decide (id a = k)) as [<-|Hne].
    + rewrite lookup_insert_eq. intros [= <-]. split; [by left | done].
    + rewrite lookup_insert_ne by done. intros Hk.
      destruct (inv_task_running _ Hs k t Hk). split; [by right | done].
Qed.

(** After an accepted registration the id has one timer, the new one. *)
Lemma registerCronJob_active (a : Automation) (st : Scheduler) :
  scheduler_inv st -> accepted a = true ->
  scheduledTasks (snd (registerCronJob a st)) !! id a
  = Some (new_task a st)
  /\ active_timers (id a) (snd (registerCronJob a st)) = [new_task a st].
Proof.
  intros Hinv Hacc. rewrite registerCronJob_accepts by done. simpl.
  split; [apply lookup_insert_eq|].
  unfold active_timers. simpl. rewrite filter_cons_True by done.
  f_equal.
  apply (active_timers_unregistered (id a) (stop_existing a st)).
  - by apply stop_existing_inv.
  - apply stop_existing_lookup.
Qed.

(** A registration leaves the other ids as they are. *)
Lemma registerCronJob_other (a : Automation) (k : jstring) (st : Scheduler) :
  scheduler_inv st -> k <> id a ->
  scheduledTasks (snd (registerCronJob a st)) !! k = scheduledTasks st !! k
  /\ active_timers k (snd (registerCronJob a st)) = active_timers k st.
Proof.
  intros Hinv Hne. destruct (accepted a) eqn:E;
    [|by rewrite registerCronJob_rejects].
  rewrite registerCronJob_accepts by done. simpl.
  destruct (stop_existing_other a k st Hinv Hne) as [Hl Ha].
  split.
  - rewrite lookup_insert_ne by done. exact Hl.
  - unfold active_timers in *. simpl.
    rewrite filter_cons_False; [exact Ha|]. simpl. congruence.
Qed.

(** *** stopAllCronJobs *)

Lemma stop_all_timers (entries : list (jstring * ScheduledTask))
    (st : Scheduler) (t : ScheduledTask) :
  t ∈ timers (foldl (fun st entry => task_stop (snd entry) st) st entries)
  <-> t ∈ timers st
      /\ forall entry, entry ∈ entries -> task_ref t <> task_ref (snd entry).
Proof.
  revert st; induction entries as [|e entries IH]; intros st; simpl.
  - split; [|by intros [? _]]. intros Ht. split; [done|].
    by intros entry ?%elem_of_nil.
  - rewrite IH. simpl. rewrite list_elem_of_filter. split.
    + intros [[Href Ht] Hall]. split; [done|].
      intros entry [->|Hin]%elem_of_cons; [done | by apply Hall].
    + intros [Ht Hall]. split; [split; [|done]|].
      * apply Hall. by left.
      * intros entry Hin. apply Hall. by right.
Qed.

Lemma stopAllCronJobs_inv (st : Scheduler) :
  scheduler_inv st -> scheduler_inv (stopAllCronJobs st).
Proof.
  intros Hinv.
  assert (timers (stopAllCronJobs st) = []) as Hnil.
  { apply elem_of_nil_inv. intros t. unfold stopAllCronJobs. simpl.
    rewrite stop_all_timers. intros [Ht Hall].
    apply (inv_timer_tracked _ Hinv) in Ht.
    apply elem_of_map_to_list in Ht. by apply Hall in Ht. }
  split; rewrite ?Hnil; simpl.
  - constructor.
  - by intros t ?%elem_of_nil.
  - by intros t ?%elem_of_nil.
  - intros key t. by rewrite lookup_empty.
Qed.

(** *** syncCronJobs *)

Lemma sync_remove_inv (cronIds : gset jstring) (st : Scheduler)
    (key : jstring) :
  scheduler_inv st -> scheduler_inv (sync_remove cronIds st key).
Proof.
  intros Hinv. unfold sync_remove.
  destruct (negb _); [by apply unregisterCronJob_inv | done].
Qed.

Lemma sync_remove_keeps (cronIds : gset jstring) (st : Scheduler)
    (key k : jstring) :
  scheduler_inv st -> k ∈ cronIds ->
  scheduledTasks (sync_remove cronIds st key) !! k = scheduledTasks st !! k
  /\ active_timers k (sync_remove cronIds st key) = active_timers k st.
Proof.
  intros Hinv Hk. unfold sync_remove.
  destruct (bool_decide (key ∈ cronIds)) eqn:E; simpl; [done|].
  apply unregisterCronJob_other; [done|].
  intros ->. apply bool_decide_eq_false in E. done.
Qed.

Lemma sync_remove_all (cronIds : gset jstring) (keys : list jstring)
    (st : Scheduler) :
  scheduler_inv st ->
  scheduler_inv (foldl (sync_remove cronIds) st keys)
  /\ forall k, k ∈ cronIds ->
       scheduledTasks (foldl (sync_remove cronIds) st keys) !! k
       = scheduledTasks st !! k
       /\ active_timers k (foldl (sync_remove cronIds) st keys)
          = active_timers k st.
Proof.
  revert st; induction keys as [|key keys IH]; intros st Hinv; simpl.
  - done.
  - destruct (IH (sync_remove cronIds st key)) as [Hi Hk].
    { by apply sync_remove_inv. }
    split; [done|]. intros k Hin.
    destruct (Hk k Hin) as [-> ->].
    by apply sync_remove_keeps.
Qed.

(** The scheduler the second loop leaves. *)
Lemma sync_register_snd (l : list Automation) (counts : SyncResult)
    (st : Scheduler) :
  snd (foldl sync_register (counts, st) l)
  = foldl (fun st a => snd (registerCronJob a st)) st l.
Proof.
  revert counts st; induction l as [|a l IH]; intros counts st; simpl;
    [done|].
  destruct (registerCronJob a st) as [[] st']; simpl; apply IH.
Qed.

Lemma register_all_inv (l : list Automation) (st : Scheduler) :
  scheduler_inv st ->
  scheduler_inv (foldl (fun st a => snd (registerCronJob a st)) st l).
Proof.
  revert st; induction l as [|a l IH]; intros st Hinv; simpl; [done|].
  by apply IH, registerCronJob_inv.
Qed.

Lemma register_all_other (l : list Automation) (k : jstring)
    (st : Scheduler) :
  scheduler_inv st -> k ∉ id <$> l ->
  scheduledTasks (foldl (fun st a => snd (registerCronJob a st)) st l) !! k
  = scheduledTasks st !! k
  /\ active_timers k (foldl (fun st a => snd (registerCronJob a st)) st l)
     = active_timers k st.
Proof.
  revert st; induction l as [|a l IH]; intros st Hinv Hk; simpl; [done|].
  rewrite fmap_cons, not_elem_of_cons in Hk. destruct Hk as [Hne Hk].
  destruct (IH (snd (registerCronJob a st))) as [-> ->];
    [by apply registerCronJob_inv | done |].
  by apply registerCronJob_other.
Qed.


Lemma syncCronJobs_inv (loaded : outcome (list Automation))
    (st : Scheduler) :
  scheduler_inv st -> scheduler_inv (snd (syncCronJobs loaded st)).
Proof.
  intros Hinv. destruct loaded as [automations|e]; simpl; [|done].
  rewrite sync_register_snd. apply register_all_inv.
  by apply sync_remove_all.
Qed.

End SchedulerFacts.

(** C8.  The scheduler keeps at most one active timer for each automation
    id.  The state of the loaded module satisfies the invariant
    [scheduler_inv], every operation preserves it, and under it an id has
    at most one timer.  A registration that is accepted leaves exactly one
    timer for the id, the task it has just created: a timer the id had
    before is stopped and removed.  So registering the same id twice leaves
    exactly one active timer for it. *)
Theorem scheduler_one_timer_per_id `{CRON : NodeCron} :
  scheduler_inv scheduler_init
  /\ forall st : Scheduler, scheduler_inv st ->
       (forall key, (length (active_timers key st) <= 1)%nat)
       /\ (forall a, scheduler_inv (snd (registerCronJob a st)))
       /\ (forall key, scheduler_inv (snd (unregisterCronJob key st)))
       /\ scheduler_inv (stopAllCronJobs st)
       /\ (forall loaded, scheduler_inv (snd (syncCronJobs loaded st)))
       /\ (forall a, fst (registerCronJob a st) = true ->
              active_timers (id a) (snd (registerCronJob a st))
              = [new_task a st])
       /\ (forall a1 a2,
              id a1 = id a2 ->
              fst (registerCronJob a2 (snd (registerCronJob a1 st))) = true ->
              length (active_timers (id a1)
                        (snd (registerCronJob a2
                                (snd (registerCronJob a1 st))))) = 1%nat).
Proof.
  split; [apply scheduler_init_inv|]. intros st Hinv.
  split; [intros; by apply active_timers_at_most_one|].
  split; [intros; by apply registerCronJob_inv|].
  split; [intros; by apply unregisterCronJob_inv|].
  split; [by apply stopAllCronJobs_inv|].
  split; [intros; by apply syncCronJobs_inv|].
  split.
  - intros a Hacc. rewrite registerCronJob_fst in Hacc.
    by apply registerCronJob_active.
  - intros a1 a2 Hid Hacc. rewrite registerCronJob_fst in Hacc.
    rewrite Hid.
    destruct (registerCronJob_active a2 (snd (registerCronJob a1 st)))
      as [_ ->]; [by apply registerCronJob_inv | done | done].
Qed.

(** Registering the same automation twice from the first state of the
    module leaves one timer. *)
Lemma scheduler_one_timer_per_id_witness :
  let a := Demo.cron_automation (str "nightly") (str "0 2 * * *") in
  length
    (active_timers (id a)
       (snd (registerCronJob (CRON := Demo.node_cron) a
               (snd (registerCronJob (CRON := Demo.node_cron) a
                       scheduler_init)))))
  = 1%nat.
Proof.
  intros a.
  destruct (scheduler_one_timer_per_id (CRON := Demo.node_cron))
    as [Hinit Hall].
  destruct (Hall scheduler_init Hinit) as (_ & _ & _ & _ & _ & _ & Htwice).
  apply Htwice; [reflexivity | by vm_compute].
Defined.




(** ** Executor *)

Section ExecutorFacts.
Context `{RT : JsRuntime} `{MU : Mustache} `{NET : Network}.
Variable env : gmap jstring jstring.

(** execute returns a result for the automation it was given, whatever
    the steps inside it do. *)
Lemma execute_returns (automation : Automation) (payload : value) :
  exists result,
    execute env automation payload = Ok result
    /\ automationId result = id automation.
Proof.
  unfold execute. destruct (truthy (env !! str "SPRITES_TOKEN")); simpl.
  2: { by eexists. }
  destruct (render _ _) as [prompt|[m]]; simpl; [|by eexists].
  destruct (encodeURIComponent _) as [encoded|[m]]; simpl; [|by eexists].
  destruct (fetch _) as [response|[m]]; simpl; [|by eexists].
  destruct (ok response); simpl; [by eexists|].
  destruct (text response) as [errorText|[m]]; simpl; by eexists.
Qed.

(** A result reports success only when every step went through: the
    credential is set, the template rendered, the call was sent and its
    response has a success status. *)
Lemma execute_success (automation : Automation) (payload : value)
    (result : ExecutionResult) :
  execute env automation payload = Ok result -> success result = true ->
  truthy (env !! str "SPRITES_TOKEN") = true
  /\ exists prompt request response,
       render (run automation)
         {| ctx_payload := payload; ctx_sprite := sprite automation |}
       = Ok prompt
       /\ request_body request = prompt
       /\ fetch request = Ok response
       /\ ok response = true.
Proof.
  unfold execute. destruct (truthy (env !! str "SPRITES_TOKEN")); simpl.
  2: { intros [= <-]. done. }
  destruct (render _ _) as [prompt|[m]]; simpl; [|by intros [= <-]].
  destruct (encodeURIComponent _) as [encoded|[m]]; simpl;
    [|by intros [= <-]].
  destruct (fetch _) as [response|[m]] eqn:Hf; simpl; [|by intros [= <-]].
  destruct (ok response) eqn:Hok; simpl.
  - intros _ _. split; [done|]. eexists prompt, _, response.
    split; [done|]. split; [|split; [exact Hf | exact Hok]]. done.
  - destruct (text response) as [errorText|[m]]; simpl; by intros [= <-].
Qed.

Lemma Promise_all_fulfilled {A B} (f : A -> outcome B) (xs : list A) :
  (forall x, returns (f x)) ->
  exists ys, Promise_all (map f xs) = Ok ys
             /\ Forall2 (fun x y => f x = Ok y) xs ys.
Proof.
  intros Hf. induction xs as [|x xs [ys [Hall Hys]]]; simpl.
  - by exists [].
  - destruct (Hf x) as [y Hy]. exists (y :: ys).
    rewrite Hy. simpl. rewrite Hall. simpl. split; [done|].
    by constructor.
Qed.

Lemma executeAll_returns (automations : list Automation) (payload : value) :
  exists results,
    executeAll env automations payload = Ok results
    /\ Forall2 (fun automation result =>
                  execute env automation payload = Ok result)
         automations results.
Proof.
  apply Promise_all_fulfilled. intros automation.
  destruct (execute_returns automation payload) as [result [Hr _]].
  by exists result.
Qed.

End ExecutorFacts.

(** C10.  execute returns a result for every automation and never throws:
    without the credential the result is a failure, and a result is a
    success only when the template rendered and the call was answered with
    a success status.  executeAll returns a list of the length of its
    input whose i-th result is the result of execute on the i-th
    automation and carries its id. *)
Theorem executeAll_resolves `{RT : JsRuntime} `{MU : Mustache}
    `{NET : Network} (env : gmap jstring jstring)
    (automations : list Automation) (payload : value) :
  (forall automation,
     exists result,
       execute env automation payload = Ok result
       /\ automationId result = id automation
       /\ (truthy (env !! str "SPRITES_TOKEN") = false ->
           success result = false)
       /\ (success result = true ->
           exists prompt request response,
             render (run automation)
               {| ctx_payload := payload; ctx_sprite := sprite automation |}
             = Ok prompt
             /\ request_body request = prompt
             /\ fetch request = Ok response
             /\ ok response = true))
  /\ exists results,
       executeAll env automations payload = Ok results
       /\ length results = length automations
       /\ forall i automation,
            automations !! i = Some automation ->
            exists result,
              results !! i = Some result
              /\ execute env automation payload = Ok result
              /\ automationId result = id automation.
Proof.
  split.
  - intros automation.
    destruct (execute_returns env automation payload) as [result [Hr Hid]].
    exists result. split; [done|]. split; [done|]. split.
    + intros Htoken. destruct (success result) eqn:Hs; [|done].
      destruct (execute_success env _ _ _ Hr Hs) as [Ht _]. congruence.
    + intros Hs. by destruct (execute_success env _ _ _ Hr Hs) as [_ ?].
  - destruct (executeAll_returns env automations payload)
      as [results [Hall Hres]].
    exists results. split; [done|].
    split; [symmetry; by eapply Forall2_length|].
    intros i automation Hi.
    destruct (Forall2_lookup_l _ _ _ _ _ Hres Hi) as [result [Hr Hex]].
    exists result. split; [done|]. split; [done|].
    destruct (execute_returns env automation payload) as [r [Hr' Hid]].
    congruence.
Qed.

(** Two automations run with the credential set, the second on a sprite
    that is down: two results, in order, the second a failure.  Without the
    credential the result is a failure. *)
Lemma executeAll_resolves_witness :
  let up := Demo.ping_automation (str "a") (str "up") VUndefined in
  let down := Demo.ping_automation (str "b") (str "down") VUndefined in
  (exists results,
     executeAll (RT := Demo.runtime) (MU := Demo.mustache)
       (NET := Demo.network) Demo.env [up; down] VUndefined = Ok results
     /\ length results = 2%nat
     /\ exists result,
          results !! 1%nat = Some result
          /\ execute (RT := Demo.runtime) (MU := Demo.mustache)
               (NET := Demo.network) Demo.env down VUndefined = Ok result
          /\ automationId result = str "b")
  /\ exists result,
       execute (RT := Demo.runtime) (MU := Demo.mustache)
         (NET := Demo.network) ∅ up VUndefined = Ok result
       /\ success result = false.
Proof.
  intros up down. split.
  - destruct (executeAll_resolves (RT := Demo.runtime) (MU := Demo.mustache)
                (NET := Demo.network) Demo.env [up; down] VUndefined)
      as [_ [results [Hres [Hlen Heach]]]].
    exists results. split; [done|]. split; [done|].
    by apply (Heach 1%nat down).
  - destruct (executeAll_resolves (RT := Demo.runtime) (MU := Demo.mustache)
                (NET := Demo.network) ∅ [up] VUndefined) as [Hone _].
    destruct (Hone up) as [result (Hr & _ & Htoken & _)].
    exists result. split; [done|]. by apply Htoken.
Defined.

(** ** Dispatcher *)

Lemma array_includes_string (xs : list value) (e : jstring) :
  array_includes xs (VString e) = bool_decide (VString e ∈ xs).
Proof.
  unfold array_includes. induction xs as [|x xs IH]; cbn [existsb].
  - symmetry. apply bool_decide_eq_false_2, not_elem_of_nil.
  - rewrite IH.
    assert (forall b : bool,
              (b = true <-> VString e = x) ->
              b || bool_decide (VString e ∈ xs)
              = bool_decide (VString e ∈ x :: xs)) as Hor.
    { intros b Hb. destruct b.
      - symmetry. apply bool_decide_eq_true_2, elem_of_cons. left.
        by apply Hb.
      - apply bool_decide_ext. rewrite elem_of_cons.
        split; [by right|]. intros [Heq|?]; [|done].
        apply Hb in Heq. done. }
    apply Hor. destruct x; simpl; try (split; done).
    unfold str_eqb. rewrite bool_decide_eq_true.
    split; [by intros -> | by intros [= ->]].
Qed.

Lemma failures_exist (results : list ExecutionResult) :
  (0 <? length (List.filter (fun r => negb (success r)) results))%nat = true
  <-> exists r, r ∈ results /\ success r = false.
Proof.
  rewrite Nat.ltb_lt. split.
  - destruct (List.filter _ results) as [|r l] eqn:E; simpl; [lia|].
    intros _. exists r.
    assert (In r (List.filter (fun r => negb (success r)) results)) as Hin
      by (rewrite E; by left).
    apply filter_In in Hin as [Hin Hs]. rewrite list_elem_of_In.
    split; [done|]. by destruct (success r).
  - intros [r [Hin Hs]].
    assert (In r (List.filter (fun r => negb (success r)) results)) as Hr.
    { apply filter_In. rewrite <- list_elem_of_In. by rewrite Hs. }
    destruct (List.filter _ results); [done | simpl; lia].
Qed.

Section DispatcherFacts.
Context `{RT : JsRuntime}.

(** The callback of the filter decides the rule of the specification,
    when the match predicates it comes to evaluate do not throw. *)
Lemma matchesWebhook_decides (sourceName eventLabel : jstring)
    (payload : value) (a : Automation) :
  (webhook_source_applies sourceName eventLabel a ->
   returns (evaluateMatches (match_ a) payload)) ->
  matchesWebhook sourceName (VString eventLabel) payload a
  = Ok (bool_decide (webhook_rule_applies sourceName eventLabel payload a)).
Proof.
  intros Hret.
  destruct (decide (webhook_rule_applies sourceName eventLabel payload a))
    as [HP|HP].
  - rewrite bool_decide_eq_true_2 by done.
    destruct HP as (H1 & H2 & H3 & H4). unfold matchesWebhook.
    rewrite H1. simpl. unfold str_eqb.
    rewrite bool_decide_eq_true_2 by done. simpl.
    rewrite array_includes_string, bool_decide_eq_true_2 by done. simpl.
    by rewrite H4.
  - rewrite bool_decide_eq_false_2 by done. unfold matchesWebhook.
    destruct (isWebhookSource (source a)) eqn:H1; simpl; [|done].
    unfold str_eqb. case_bool_decide as H2; simpl; [|done].
    rewrite array_includes_string. case_bool_decide as H3; simpl; [|done].
    destruct Hret as [[] H4]; [done| |]; rewrite H4; simpl; [|done].
    by destruct HP.
Qed.

Lemma filter_matchesWebhook (sourceName eventLabel : jstring)
    (payload : value) (catalog : list Automation) :
  (forall a, a ∈ catalog ->
     webhook_source_applies sourceName eventLabel a ->
     returns (evaluateMatches (match_ a) payload)) ->
  filter_outcome (matchesWebhook sourceName (VString eventLabel) payload)
    catalog
  = Ok (filter (webhook_rule_applies sourceName eventLabel payload) catalog).
Proof.
  induction catalog as [|a catalog IH]; intros Hret; simpl; [done|].
  rewrite matchesWebhook_decides by (apply Hret; by left).
  rewrite IH by (intros b Hb; apply Hret; by right).
  simpl. rewrite filter_cons.
  destruct (decide (webhook_rule_applies sourceName eventLabel payload a)).
  - by rewrite bool_decide_eq_true_2.
  - by rewrite bool_decide_eq_false_2.
Qed.

End DispatcherFacts.

(** C3, as the code has it.  For an inbound webhook of a registered
    source that passed validation, with a parsed payload that is not a
    Slack handshake, an event label [eventLabel] and a loaded catalog, and
    when no match predicate throws on the payload in an automation of the
    catalog that has the source and the event of the webhook: the
    automations the route selects are exactly those of the catalog, in
    its order, that the rule of the specification applies to.  When there
    is none the reply is 200 with zero matches.  Otherwise executeAll runs
    on the selected automations, and the reply is 500 with all the results
    when one of them failed, 200 with all the results when all
    succeeded. *)
Theorem webhook_post_dispatch `{RT : JsRuntime} `{MU : Mustache}
    `{NET : Network}
    (adapters : gmap jstring SourceAdapter) (env : gmap jstring jstring)
    (now : Z) (catalog : list Automation) (sourceName eventLabel : jstring)
    (request : Request) (adapter : SourceAdapter) (secret : jstring)
    (payload : value) :
  adapters !! sourceName = Some adapter ->
  env !! (toUpperCase sourceName ++ str "_WEBHOOK_SECRET") = Some secret ->
  secret <> [] ->
  validate adapter now request secret = Ok true ->
  parsePayload adapter request = Ok payload ->
  str_eqb sourceName (str "slack") && isUrlVerification payload = false ->
  (if str_eqb sourceName (str "slack")
   then getSlackEventType payload
   else Ok (VString (getEventType adapter request)))
  = Ok (VString eventLabel) ->
  (forall a, a ∈ catalog ->
     webhook_source_applies sourceName eventLabel a ->
     returns (evaluateMatches (match_ a) payload)) ->
  let selected :=
    filter (webhook_rule_applies sourceName eventLabel payload) catalog in
  let reply :=
    webhook_post adapters env now (Ok catalog) sourceName request in
  (selected = [] ->
   reply = Ok (json (NoMatchBody (str "No matching automations") 0) 200))
  /\ (selected <> [] ->
      exists results,
        executeAll env selected payload = Ok results
        /\ ((exists r, r ∈ results /\ success r = false) ->
            reply = Ok (json (FailedBody
                                (str "One or more automations failed")
                                results) 500))
        /\ ((forall r, r ∈ results -> success r = true) ->
            reply = Ok (json (ExecutedBody
                                (str "All automations executed successfully")
                                (length selected) results) 200))).
Proof.
  intros Hadapter Hsecret Hne Hvalid Hparse Hshake Hevent Hret selected reply.
  assert (reply =
          (results ← (if (length selected =? 0)%nat then Ok []
                      else executeAll env selected payload);
           if (length selected =? 0)%nat
           then Ok (json (NoMatchBody (str "No matching automations") 0) 200)
           else if (0 <? length (List.filter (fun r => negb (success r))
                                   results))%nat
           then Ok (json (FailedBody (str "One or more automations failed")
                            results) 500)
           else Ok (json (ExecutedBody
                            (str "All automations executed successfully")
                            (length selected) results) 200))) as ->.
  { unfold reply, webhook_post. rewrite Hadapter, Hsecret.
    destruct secret as [|c secret]; [done|]. simpl truthy. simpl negb.
    cbv iota. simpl default. rewrite Hvalid. simpl.
    rewrite Hparse. simpl. rewrite Hshake, Hevent. simpl.
    rewrite filter_matchesWebhook by done. simpl. fold selected.
    by destruct (length selected =? 0)%nat. }
  split.
  - intros ->. done.
  - intros Hsel.
    destruct (executeAll_returns env selected payload) as [results [Hr _]].
    exists results. split; [done|].
    replace (length selected =? 0)%nat with false
      by (symmetry; apply Nat.eqb_neq; by destruct selected).
    rewrite Hr. simpl. split.
    + intros Hf. apply failures_exist in Hf. by rewrite Hf.
    + intros Hall.
      destruct (0 <? length _)%nat eqn:E; [|done].
      apply failures_exist in E as [r [Hin Hs]].
      apply Hall in Hin. congruence.
Qed.

(** A signed github delivery of the event [ping], over a catalog with
    three automations for it, one whose sprite is down and one whose
    predicate is false, and a cron automation: the two others are run, and
    the reply is 500 with both results. *)
Lemma webhook_post_dispatch_witness :
  let up := Demo.ping_automation (str "a") (str "up") VUndefined in
  let down :=
    Demo.ping_automation (str "b") (str "down")
      (string_array [str "payload.zen != 1"]) in
  let skipped :=
    Demo.ping_automation (str "c") (str "up")
      (string_array [str "payload.zen == 1"]) in
  let nightly := Demo.cron_automation (str "nightly") (str "0 2 * * *") in
  let results :=
    [ {| automationId := str "a"; success := true; error := None |};
      {| automationId := str "b"; success := false;
         error := Some (str "Sprites API error: 503 - unavailable") |} ] in
  filter (webhook_rule_applies (RT := Demo.runtime) (str "github")
            (str "ping") (VObject []))
    [up; nightly; skipped; down] = [up; down]
  /\ webhook_post (RT := Demo.runtime) (MU := Demo.mustache)
       (NET := Demo.network) Demo.adapters Demo.env
       0 (Ok [up; nightly; skipped; down]) (str "github") Demo.ping_request
     = Ok (json (FailedBody (str "One or more automations failed") results)
             500).
Proof.
  intros up down skipped nightly results. split; [by vm_compute|].
  assert (forall a, a ∈ [up; nightly; skipped; down] ->
            webhook_source_applies (str "github") (str "ping") a ->
            returns (evaluateMatches (RT := Demo.runtime) (match_ a)
                       (VObject []))) as Hret.
  { intros a Ha _.
    repeat (apply elem_of_cons in Ha as [->|Ha]);
      [eexists; by vm_compute ..|].
    by apply elem_of_nil in Ha. }
  destruct (webhook_post_dispatch (RT := Demo.runtime)
              (MU := Demo.mustache) (NET := Demo.network)
              Demo.adapters Demo.env 0 [up; nightly; skipped; down]
              (str "github") (str "ping") Demo.ping_request
              (githubAdapter (RT := Demo.runtime) (CR := Demo.crypto))
              (str "s3cret") (VObject [])
              ltac:(by vm_compute) ltac:(by vm_compute) ltac:(done)
              ltac:(by vm_compute) ltac:(by vm_compute)
              ltac:(by vm_compute) ltac:(by vm_compute) Hret)
    as [_ Hrun].
  destruct Hrun as [results' [Hres [Hfail _]]]; [by vm_compute|].
  assert (results' = results) as ->.
  { vm_compute in Hres. injection Hres as <-. by vm_compute. }
  apply Hfail.
  exists {| automationId := str "b"; success := false;
            error := Some (str "Sprites API error: 503 - unavailable") |}.
  split; [|done].
  unfold results. apply elem_of_cons. right. apply elem_of_cons. by left.
Defined.

(** C3, as the spec has it, fails.  A signed github delivery of the event
    [ping] whose payload is [{a: {toString: 0}}], over a catalog with one
    automation for that event and the predicate [payload.a == 1]: the
    delivery is validated and parsed, the rule applies to no automation,
    and the route does not answer with zero matches: it throws, in the
    comparison. *)
Lemma webhook_post_match_throws :
  let watch :=
    Demo.ping_automation (str "a") (str "up")
      (string_array [str "payload.a == 1"]) in
  let adapter := githubAdapter (RT := Demo.runtime) (CR := Demo.crypto) in
  Demo.adapters !! str "github" = Some adapter
  /\ validate adapter 0 Demo.unprintable_request (str "s3cret") = Ok true
  /\ parsePayload adapter Demo.unprintable_request = Ok Demo.unprintable
  /\ filter (webhook_rule_applies (RT := Demo.runtime) (str "github")
              (str "ping") Demo.unprintable) [watch] = []
  /\ webhook_post (RT := Demo.runtime) (MU := Demo.mustache)
       (NET := Demo.network) Demo.adapters Demo.env 0 (Ok [watch])
       (str "github") Demo.unprintable_request
     = Throw (JsError (str "Cannot convert object to primitive value")).
Proof. by vm_compute. Qed.

(* ===================================================================== *)
(** * Further properties of the code *)
(* ===================================================================== *)

(** ** Validation of the adapters *)

Section ValidationFacts.
Context `{CR : Crypto}.

(** The comparison all adapters end with: the length guard keeps
    timingSafeEqual from throwing, and the answer is the equality of the
    two buffers. *)
Lemma guarded_compare (a b : list N) :
  try_catch
    (if negb (length a =? length b)%nat then Ok false
     else timingSafeEqual a b)
    (fun _ => Ok false)
  = Ok (bool_decide (a = b)).
Proof.
  unfold timingSafeEqual.
  destruct (length a =? length b)%nat eqn:E; simpl; [done|].
  f_equal. symmetry. apply bool_decide_eq_false_2. intros ->.
  by rewrite Nat.eqb_refl in E.
Qed.

End ValidationFacts.

(** X1.  githubAdapter.validate never throws, and accepts a request exactly
    when it carries a non-empty X-Hub-Signature-256 header whose bytes are
    those of [sha256=] followed by the HMAC of the body under the secret. *)
Theorem github_validate_accepts `{CR : Crypto}
    (now : Z) (request : Request) (secret : jstring) :
  exists answer,
    github_validate now request secret = Ok answer
    /\ (answer = true <->
        exists signature,
          headers_get request (str "X-Hub-Signature-256") = Some signature
          /\ signature <> []
          /\ Buffer_from signature
             = Buffer_from
                 (str "sha256=" ++ hmac_sha256_hex secret (body request))).
Proof.
  unfold github_validate.
  destruct (headers_get request (str "X-Hub-Signature-256"))
    as [[|c signature]|] eqn:E; simpl.
  - exists false. split; [done|]. split; [done|].
    intros (s & [= <-] & Hs & _). done.
  - rewrite guarded_compare. eexists. split; [done|].
    rewrite bool_decide_eq_true. split.
    + intros Hb. by exists (c :: signature).
    + by intros (s & [= <-] & _ & Hb).
  - exists false. split; [done|]. split; [done|].
    by intros (s & Hs & _).
Qed.

(** X2.  slackAdapter.validate never throws, and accepts a request exactly
    when both headers are there and not empty, the timestamp is not a
    number more than 300 seconds from the clock (a timestamp parseInt
    cannot read passes this test), and the bytes of the signature are
    those of [v0=] followed by the HMAC of [v0:timestamp:body]. *)
Theorem slack_validate_accepts `{CR : Crypto}
    (now : Z) (request : Request) (secret : jstring) :
  exists answer,
    slack_validate now request secret = Ok answer
    /\ (answer = true <->
        exists timestamp signature,
          headers_get request (str "X-Slack-Request-Timestamp")
          = Some timestamp
          /\ headers_get request (str "X-Slack-Signature") = Some signature
          /\ timestamp <> [] /\ signature <> []
          /\ (forall t, parseInt10 timestamp = Some t ->
                        (Z.abs (now - t) <= 300)%Z)
          /\ Buffer_from signature
             = Buffer_from
                 (str "v0="
                  ++ hmac_sha256_hex secret
                       (str "v0:" ++ timestamp ++ str ":" ++ body request))).
Proof.
  unfold slack_validate.
  destruct (headers_get request (str "X-Slack-Request-Timestamp"))
    as [[|c ts]|] eqn:Ets; simpl.
  - exists false. split; [done|]. split; [done|].
    intros (t & s & [= <-] & _ & Ht & _). done.
  - destruct (headers_get request (str "X-Slack-Signature"))
      as [[|d sig]|] eqn:Esig; simpl.
    + exists false. split; [done|]. split; [done|].
      intros (t & s & _ & [= <-] & _ & Hs & _). done.
    + destruct (parseInt10 (c :: ts)) as [t|] eqn:Et.
      * destruct (Z.abs (now - t) >? MAX_REQUEST_AGE_SECONDS)%Z eqn:Eold.
        -- exists false. split; [done|]. split; [done|].
           intros (t' & s & [= <-] & _ & _ & _ & Hfresh & _).
           apply Hfresh in Et. apply Z.gtb_lt in Eold.
           unfold MAX_REQUEST_AGE_SECONDS in Eold. lia.
        -- rewrite guarded_compare. eexists. split; [done|].
           rewrite bool_decide_eq_true. split.
           ++ intros Hb. exists (c :: ts), (d :: sig).
              repeat split; try done.
              intros t' Ht'. rewrite Et in Ht'. injection Ht' as <-.
              rewrite Z.gtb_ltb in Eold. apply Z.ltb_ge in Eold.
              unfold MAX_REQUEST_AGE_SECONDS in Eold. lia.
           ++ by intros (t' & s & [= <-] & [= <-] & _ & _ & _ & Hb).
      * rewrite guarded_compare. eexists. split; [done|].
        rewrite bool_decide_eq_true. split.
        -- intros Hb. exists (c :: ts), (d :: sig).
           repeat split; try done. intros t'. by rewrite Et.
        -- by intros (t' & s & [= <-] & [= <-] & _ & _ & _ & Hb).
    + exists false. split; [done|]. split; [done|].
      by intros (t & s & _ & Hs & _).
  - exists false. split; [done|]. split; [done|].
    by intros (t & s & Ht & _).
Qed.

(** X3.  genericAdapter.validate never throws, and accepts a request
    exactly when its X-Webhook-Secret header is not empty and has the
    bytes of the configured secret. *)
Theorem generic_validate_accepts `{CR : Crypto}
    (now : Z) (request : Request) (secret : jstring) :
  exists answer,
    generic_validate now request secret = Ok answer
    /\ (answer = true <->
        exists provided,
          headers_get request (str "X-Webhook-Secret") = Some provided
          /\ provided <> []
          /\ Buffer_from secret = Buffer_from provided).
Proof.
  unfold generic_validate.
  destruct (headers_get request (str "X-Webhook-Secret"))
    as [[|c provided]|] eqn:E; simpl.
  - exists false. split; [done|]. split; [done|].
    intros (s & [= <-] & Hs & _). done.
  - rewrite guarded_compare. eexists. split; [done|].
    rewrite bool_decide_eq_true. split.
    + intros Hb. by exists (c :: provided).
    + by intros (s & [= <-] & _ & Hb).
  - exists false. split; [done|]. split; [done|].
    by intros (s & Hs & _).
Qed.

(** ** Slack event types *)

Section SlackFacts.
Context `{RT : JsRuntime}.

Lemma read_composite (v : value) (key : jstring) :
  composite v = true -> get_property v key = Ok (read v key).
Proof.
  intros Hc. unfold read.
  by destruct (get_property_composite v key Hc) as [x ->].
Qed.

Lemma isEventCallback_inv (payload : value) :
  isEventCallback payload = true ->
  composite payload = true
  /\ typeof (read payload (str "event")) = TObject.
Proof.
  unfold isEventCallback, composite.
  rewrite !andb_true_iff, !bool_decide_eq_true.
  intros [[[[[Ht Hn] _] _] _] He]. by rewrite Hn.
Qed.

End SlackFacts.

(** X4.  getSlackEventType throws exactly on a payload that is not a URL
    verification, has the type [event_callback] and an [event] that is
    [null]: isEventCallback accepts [null] as an object, and
    [payload.event.type] is read without a guard. *)
Theorem getSlackEventType_throws `{RT : JsRuntime} (payload : value) :
  (exists e, getSlackEventType payload = Throw e)
  <-> isUrlVerification payload = false
      /\ isEventCallback payload = true
      /\ read payload (str "event") = VNull.
Proof.
  unfold getSlackEventType.
  destruct (isUrlVerification payload).
  { split; [by intros [e ?] | by intros [? _]]. }
  destruct (isEventCallback payload) eqn:Ecb.
  - destruct (isEventCallback_inv payload Ecb) as [Hc Hev].
    rewrite (read_composite payload _ Hc). simpl.
    destruct (read payload (str "event")) eqn:Er; simpl in *; try done.
    + split; [done | by eexists].
    + split; [by intros [e ?] | by intros (_ & _ & ?)].
    + split; [by intros [e ?] | by intros (_ & _ & ?)].
  - split; [|by intros (_ & ? & _)].
    intros [e He]. by destruct (_ && _).
Qed.

(** ** The webhook route *)

Lemma filter_outcome_elem {A} (f : A -> outcome bool) (xs kept : list A) :
  filter_outcome f xs = Ok kept ->
  forall x, x ∈ kept -> x ∈ xs /\ f x = Ok true.
Proof.
  revert kept; induction xs as [|a xs IH]; intros kept; simpl.
  - intros [= <-] x Hx. by apply elem_of_nil in Hx.
  - destruct (f a) as [keep|e] eqn:Ea; simpl; [|done].
    destruct (filter_outcome f xs) as [kept'|e]; simpl; [|done].
    intros [= <-] x Hx. destruct keep.
    + apply elem_of_cons in Hx as [->|Hx]; [by split; [left|]|].
      destruct (IH kept' eq_refl x Hx). split; [by right | done].
    + destruct (IH kept' eq_refl x Hx). split; [by right | done].
Qed.

Section RouteFacts.
Context `{RT : JsRuntime} `{MU : Mustache} `{NET : Network}.
Variable adapters : gmap jstring SourceAdapter.
Variable env : gmap jstring jstring.

(** The ways the route has to answer. *)
Lemma webhook_post_inv (now : Z) (loaded : outcome (list Automation))
    (sourceName : jstring) (request : Request) (reply : Reply) :
  webhook_post adapters env now loaded sourceName request = Ok reply ->
  reply = json (ErrorBody (str "Unknown source: " ++ sourceName)) 400
  \/ reply = json (ErrorBody (str "Webhook secret not configured")) 500
  \/ reply = json (ErrorBody (str "Invalid signature")) 401
  \/ reply = json (ErrorBody (str "Failed to load automations")) 500
  \/ (exists payload,
        isUrlVerification payload = true
        /\ reply = json (ChallengeBody (read payload (str "challenge"))) 200)
  \/ (exists payload eventType catalog matching,
        loaded = Ok catalog
        /\ filter_outcome (matchesWebhook sourceName eventType payload)
             catalog = Ok matching
        /\ ((matching = []
             /\ reply = json (NoMatchBody (str "No matching automations") 0)
                          200)
            \/ exists results,
                 matching <> []
                 /\ executeAll env matching payload = Ok results
                 /\ reply =
                    if (0 <? length (List.filter
                                       (fun r => negb (success r))
                                       results))%nat
                    then json (FailedBody
                                 (str "One or more automations failed")
                                 results) 500
                    else json (ExecutedBody
                                 (str "All automations executed successfully")
                                 (length matching) results) 200)).
Proof.
  unfold webhook_post.
  destruct (adapters !! sourceName) as [adapter|]; [|intros [= <-]; auto].
  destruct (truthy _); simpl; [|intros [= <-]; auto].
  destruct (validate adapter now request _) as [[]|e]; simpl;
    [|intros [= <-]; auto 6|done].
  destruct (parsePayload adapter request) as [payload|e]; simpl; [|done].
  destruct (str_eqb sourceName (str "slack") && isUrlVerification payload)
    eqn:Eshake.
  { intros [= <-]. apply andb_true_iff in Eshake as [_ Hv].
    do 4 right. left. by exists payload. }
  destruct (if str_eqb sourceName (str "slack") then _ else _)
    as [eventType|e]; simpl; [|done].
  destruct (log_event_type eventType) as [[]|e]; simpl; [|done].
  destruct loaded as [catalog|e]; [|intros [= <-]; auto 6].
  destruct (filter_outcome _ catalog) as [matching|e] eqn:Ef; simpl; [|done].
  intros Hreply. do 5 right.
  exists payload, eventType, catalog, matching.
  split; [done|]. split; [done|].
  destruct matching as [|a matching]; simpl in Hreply.
  { left. split; [done|]. by injection Hreply as <-. }
  right.
  destruct (executeAll env (a :: matching) payload) as [results|e] eqn:Eall;
    simpl in Hreply; [|done].
  exists results. split; [done|]. split; [done|].
  destruct (0 <? _)%nat; by injection Hreply as <-.
Qed.

End RouteFacts.

(** X5.  Whenever the route answers, the status goes with the body: an
    error has 400, 401 or 500; the echo of a challenge has 200 and the
    challenge is a string; no match has 200 and counts zero; a failure has
    500 and holds a failed result; a success has 200, counts as many
    matches as it holds results, at least one, and every result
    succeeded. *)
Theorem webhook_post_consistent `{RT : JsRuntime} `{MU : Mustache}
    `{NET : Network} (adapters : gmap jstring SourceAdapter)
    (env : gmap jstring jstring) (now : Z)
    (loaded : outcome (list Automation)) (sourceName : jstring)
    (request : Request) (reply : Reply) :
  webhook_post adapters env now loaded sourceName request = Ok reply ->
  reply_consistent reply.
Proof.
  intros Hreply. apply webhook_post_inv in Hreply.
  destruct Hreply as [->|[->|[->|[->|[Hshake|Hrun]]]]];
    unfold reply_consistent; simpl; auto.
  - destruct Hshake as (payload & Hv & ->). simpl. split; [done|].
    unfold isUrlVerification in Hv. by apply andb_true_iff in Hv as [_ ?].
  - destruct Hrun as (payload & eventType & catalog & matching & _ & _ & H).
    destruct H as [[_ ->]|(results & Hne & Hall & ->)]; [done|].
    destruct (executeAll_returns env matching payload)
      as (results' & Hall' & Hres).
    assert (results' = results) as -> by congruence.
    destruct (0 <? _)%nat eqn:Efail; simpl.
    + split; [done|]. by apply failures_exist.
    + split; [done|]. split; [by eapply Forall2_length|].
      split; [destruct matching; [done | simpl; lia]|].
      intros r Hr. destruct (success r) eqn:Hs; [done|].
      assert ((0 <? length (List.filter (fun r => negb (success r))
                              results))%nat = true) as Hf
        by (apply failures_exist; by exists r).
      congruence.
Qed.

(** X6.  The results of a reply belong to automations of the catalog that
    have a webhook source of the type of the route: an automation with a
    cron source or of another source is never run by a webhook. *)
Theorem webhook_post_runs_own_source `{RT : JsRuntime} `{MU : Mustache}
    `{NET : Network} (adapters : gmap jstring SourceAdapter)
    (env : gmap jstring jstring) (now : Z) (catalog : list Automation)
    (sourceName : jstring) (request : Request) (reply : Reply) :
  webhook_post adapters env now (Ok catalog) sourceName request = Ok reply ->
  forall result, result ∈ reply_results reply ->
    exists automation,
      automation ∈ catalog
      /\ automationId result = id automation
      /\ isWebhookSource (source automation) = true
      /\ isCronSource (source automation) = false
      /\ source_type (source automation) = sourceName.
Proof.
  intros Hreply result Hin. apply webhook_post_inv in Hreply.
  destruct Hreply as [->|[->|[->|[->|[Hshake|Hrun]]]]];
    try (by apply elem_of_nil in Hin).
  { destruct Hshake as (payload & _ & ->). by apply elem_of_nil in Hin. }
  destruct Hrun as (payload & eventType & catalog' & matching & Hc & Hf & H).
  injection Hc as <-.
  destruct H as [[_ ->]|(results & Hne & Hall & ->)];
    [by apply elem_of_nil in Hin|].
  assert (result ∈ results) as Hr.
  { by destruct (0 <? _)%nat. }
  destruct (executeAll_returns env matching payload)
    as (results' & Hall' & Hres).
  assert (results' = results) as -> by congruence.
  apply list_elem_of_lookup in Hr as [i Hi].
  destruct (Forall2_lookup_r _ _ _ _ _ Hres Hi) as (a & Ha & Hex).
  destruct (execute_returns env a payload) as (r' & Hr' & Hid).
  assert (r' = result) as -> by congruence.
  apply list_elem_of_lookup_2 in Ha.
  destruct (filter_outcome_elem _ _ _ Hf a Ha) as [Hcat Hm].
  exists a. split; [done|]. split; [done|].
  unfold matchesWebhook in Hm.
  destruct (isWebhookSource (source a)) eqn:Hw; simpl in Hm; [|done].
  destruct (str_eqb (source_type (source a)) sourceName) eqn:Hs;
    simpl in Hm; [|done].
  split; [done|]. split.
  - unfold isWebhookSource, isCronSource in *.
    by destruct (str_eqb (source_type (source a)) (str "cron")).
  - by apply bool_decide_eq_true in Hs.
Qed.

Section MoreRouteFacts.
Context `{RT : JsRuntime}.

(** The callback of the filter throws exactly when it comes to the match
    predicates and their evaluation throws. *)
Lemma matchesWebhook_throw (sourceName : jstring)
    (eventType payload : value) (a : Automation) (e : exn) :
  matchesWebhook sourceName eventType payload a = Throw e
  <-> isWebhookSource (source a) = true
      /\ source_type (source a) = sourceName
      /\ array_includes (default [] (events (source a))) eventType = true
      /\ evaluateMatches (match_ a) payload = Throw e.
Proof.
  unfold matchesWebhook.
  destruct (isWebhookSource (source a)); simpl;
    [|by split; [|intros (? & _)]].
  unfold str_eqb. case_bool_decide as Hs; simpl;
    [|by split; [|intros (_ & ? & _)]].
  destruct (array_includes _ _); simpl;
    [|by split; [|intros (_ & _ & ? & _)]].
  destruct (evaluateMatches (match_ a) payload) as [[]|e']; simpl.
  - by split; [|intros (_ & _ & _ & ?)].
  - by split; [|intros (_ & _ & _ & ?)].
  - split; [by intros [= ->] | by intros (_ & _ & _ & [= ->])].
Qed.

(** A filter throws at the first element its callback throws on. *)
Lemma filter_outcome_throw {A} (f : A -> outcome bool) (xs : list A)
    (e : exn) :
  filter_outcome f xs = Throw e
  <-> exists before x after,
        xs = before ++ x :: after
        /\ Forall (fun y => returns (f y)) before
        /\ f x = Throw e.
Proof.
  split.
  - induction xs as [|x xs IH]; simpl; [done|].
    destruct (f x) as [keep|e'] eqn:Hx; simpl.
    + destruct (filter_outcome f xs) as [kept|e'']; simpl; [done|].
      intros [= ->]. destruct (IH eq_refl) as (before & y & after & -> & Hb & Hy).
      exists (x :: before), y, after. split; [done|].
      split; [constructor; [by eexists | done] | done].
    + intros [= ->]. by exists [], x, xs.
  - intros (before & x & after & -> & Hb & Hx).
    induction Hb as [|y before [keep Hy] _ IH]; simpl.
    + by rewrite Hx.
    + rewrite Hy. simpl. by rewrite IH.
Qed.

(** Entries of the catalog the callback refuses can be left out. *)
Lemma filter_outcome_without {A} (f : A -> outcome bool) (P : A -> bool)
    (xs : list A) :
  (forall x, P x = false -> f x = Ok false) ->
  filter_outcome f (List.filter P xs) = filter_outcome f xs.
Proof.
  intros Hf. induction xs as [|x xs IH]; simpl; [done|].
  destruct (P x) eqn:Ep; simpl; rewrite IH; [done|].
  rewrite (Hf x Ep). simpl. by destruct (filter_outcome f xs).
Qed.

End MoreRouteFacts.

(** The reply to a signed delivery, over a catalog with one automation
    whose sprite is down, is consistent. *)
Lemma webhook_post_consistent_witness :
  let down := Demo.ping_automation (str "b") (str "down") VUndefined in
  let reply :=
    json (FailedBody (str "One or more automations failed")
            [{| automationId := str "b"; success := false;
                error := Some (str "Sprites API error: 503 - unavailable") |}])
      500 in
  webhook_post (RT := Demo.runtime) (MU := Demo.mustache)
    (NET := Demo.network) Demo.adapters Demo.env 0 (Ok [down])
    (str "github") Demo.ping_request = Ok reply
  /\ reply_consistent reply.
Proof.
  intros down reply.
  assert (webhook_post (RT := Demo.runtime) (MU := Demo.mustache)
            (NET := Demo.network) Demo.adapters Demo.env 0 (Ok [down])
            (str "github") Demo.ping_request = Ok reply) as Hreply
    by (by vm_compute).
  split; [done|].
  exact (webhook_post_consistent (RT := Demo.runtime) (MU := Demo.mustache)
           (NET := Demo.network) Demo.adapters Demo.env 0 (Ok [down])
           (str "github") Demo.ping_request reply Hreply).
Defined.

(** Over a catalog with a cron automation and a github automation, the
    one result of a github delivery is that of the github automation. *)
Lemma webhook_post_runs_own_source_witness :
  let up := Demo.ping_automation (str "a") (str "up") VUndefined in
  let nightly := Demo.cron_automation (str "nightly") (str "0 2 * * *") in
  let result := {| automationId := str "a"; success := true;
                   error := None |} in
  exists automation,
    automation ∈ [nightly; up]
    /\ automationId result = id automation
    /\ isWebhookSource (source automation) = true
    /\ isCronSource (source automation) = false
    /\ source_type (source automation) = str "github".
Proof.
  intros up nightly result.
  apply (webhook_post_runs_own_source (RT := Demo.runtime)
           (MU := Demo.mustache) (NET := Demo.network)
           Demo.adapters Demo.env 0 [nightly; up] (str "github")
           Demo.ping_request
           (json (ExecutedBody (str "All automations executed successfully")
                    1 [result]) 200)
           ltac:(by vm_compute) result).
  simpl. by left.
Defined.

(** X7.  A request that is refused is answered without a look at the
    catalog and without a call: the reply to an unknown source is 400, to
    a source without configured secret 500, to a request the adapter does
    not validate 401, whatever the catalog, the template engine and the
    network are. *)
Theorem webhook_post_refuses `{RT : JsRuntime}
    (adapters : gmap jstring SourceAdapter) (env : gmap jstring jstring)
    (now : Z) (sourceName : jstring) (request : Request) :
  let secret := env !! (toUpperCase sourceName ++ str "_WEBHOOK_SECRET") in
  (adapters !! sourceName = None ->
   forall (MU : Mustache) (NET : Network) loaded,
     webhook_post adapters env now loaded sourceName request
     = Ok (json (ErrorBody (str "Unknown source: " ++ sourceName)) 400))
  /\ (forall adapter,
        adapters !! sourceName = Some adapter ->
        truthy secret = false ->
        forall (MU : Mustache) (NET : Network) loaded,
          webhook_post adapters env now loaded sourceName request
          = Ok (json (ErrorBody (str "Webhook secret not configured")) 500))
  /\ (forall adapter,
        adapters !! sourceName = Some adapter ->
        truthy secret = true ->
        validate adapter now request (default [] secret) = Ok false ->
        forall (MU : Mustache) (NET : Network) loaded,
          webhook_post adapters env now loaded sourceName request
          = Ok (json (ErrorBody (str "Invalid signature")) 401)).
Proof.
  simpl. split; [|split].
  - intros Ha MU NET loaded. unfold webhook_post. by rewrite Ha.
  - intros adapter Ha Hs MU NET loaded. unfold webhook_post.
    by rewrite Ha, Hs.
  - intros adapter Ha Hs Hv MU NET loaded. unfold webhook_post.
    rewrite Ha, Hs. simpl. by rewrite Hv.
Qed.

(** A github delivery without signature is answered 401, also when the
    catalog cannot be loaded. *)
Lemma webhook_post_refuses_witness :
  webhook_post (RT := Demo.runtime) (MU := Demo.mustache)
    (NET := Demo.network) Demo.adapters Demo.env 0
    (Throw (JsError (str "KV API error"))) (str "github")
    {| headers := ∅; body := str "{}" |}
  = Ok (json (ErrorBody (str "Invalid signature")) 401).
Proof.
  destruct (webhook_post_refuses (RT := Demo.runtime) Demo.adapters Demo.env
              0 (str "github") {| headers := ∅; body := str "{}" |})
    as (_ & _ & Hinvalid).
  apply (Hinvalid (githubAdapter (RT := Demo.runtime) (CR := Demo.crypto)));
    by vm_compute.
Defined.

(** X8.  The handshake of Slack: a validated request to the source [slack]
    whose payload is a URL verification is answered 200 with the challenge
    of the payload, a string, whatever the catalog is; no automation is
    matched or run. *)
Theorem webhook_post_handshake `{RT : JsRuntime}
    (adapters : gmap jstring SourceAdapter) (env : gmap jstring jstring)
    (now : Z) (request : Request) (adapter : SourceAdapter)
    (secret : jstring) (payload : value) :
  adapters !! str "slack" = Some adapter ->
  env !! (toUpperCase (str "slack") ++ str "_WEBHOOK_SECRET") = Some secret ->
  secret <> [] ->
  validate adapter now request secret = Ok true ->
  parsePayload adapter request = Ok payload ->
  isUrlVerification payload = true ->
  exists challenge,
    read payload (str "challenge") = VString challenge
    /\ forall (MU : Mustache) (NET : Network) loaded,
         webhook_post adapters env now loaded (str "slack") request
         = Ok (json (ChallengeBody (VString challenge)) 200).
Proof.
  intros Ha Hs Hne Hv Hp Hshake.
  assert (is_string (read payload (str "challenge")) = true) as Hc.
  { unfold isUrlVerification in Hshake.
    by apply andb_true_iff in Hshake as [_ ?]. }
  destruct (read payload (str "challenge")) as [| | | |challenge| | |] eqn:Er;
    try done.
  exists challenge. split; [done|]. intros MU NET loaded.
  unfold webhook_post. rewrite Ha, Hs.
  destruct secret as [|c secret]; [done|]. simpl. rewrite Hv. simpl.
  rewrite Hp. simpl. rewrite Hshake.
  replace (str_eqb (str "slack") (str "slack")) with true
    by (symmetry; by apply bool_decide_eq_true_2).
  simpl. by rewrite Er.
Qed.

(** The handshake, signed and sent at second 1000. *)
Lemma webhook_post_handshake_witness :
  webhook_post (RT := Sample.runtime_parsing Sample.handshake)
    (MU := Demo.mustache) (NET := Demo.network)
    (Sample.registry (Sample.runtime_parsing Sample.handshake))
    Sample.slack_env 1000 (Throw (JsError (str "KV API error")))
    (str "slack") Demo.slack_request
  = Ok (json (ChallengeBody (VString (str "3eZbrw1a"))) 200).
Proof.
  destruct (webhook_post_handshake
              (RT := Sample.runtime_parsing Sample.handshake)
              (Sample.registry (Sample.runtime_parsing Sample.handshake))
              Sample.slack_env 1000 Demo.slack_request
              (slackAdapter (RT := Sample.runtime_parsing Sample.handshake)
                 (CR := Demo.crypto))
              (str "key") Sample.handshake
              ltac:(by vm_compute) ltac:(by vm_compute) ltac:(done)
              ltac:(by vm_compute) ltac:(by vm_compute)
              ltac:(by vm_compute))
    as (challenge & Hc & Hreply).
  vm_compute in Hc. injection Hc as <-. apply Hreply.
Defined.

(** X9.  The route throws in these places and in no other: where
    validate throws; where parsePayload throws (a body that is not JSON);
    for the source [slack], where getSlackEventType throws; where the log
    line cannot print the event type; and in the filter, at the first
    automation of the catalog that has the source and the event of the
    webhook and whose match throws.  A catalog that cannot be loaded and
    the execution of the automations never make it throw.  The
    automations of the catalog are as types.ts declares them, but for
    their match and the elements of their events, which are any
    values. *)
Theorem webhook_post_throws `{RT : JsRuntime} `{MU : Mustache}
    `{NET : Network} (adapters : gmap jstring SourceAdapter)
    (env : gmap jstring jstring) (now : Z)
    (loaded : outcome (list Automation)) (sourceName : jstring)
    (request : Request) (e : exn) :
  webhook_post adapters env now loaded sourceName request = Throw e
  <-> exists adapter secret,
        adapters !! sourceName = Some adapter
        /\ env !! (toUpperCase sourceName ++ str "_WEBHOOK_SECRET")
           = Some secret
        /\ secret <> []
        /\ (validate adapter now request secret = Throw e
            \/ validate adapter now request secret = Ok true
               /\ (parsePayload adapter request = Throw e
                   \/ exists payload,
                        parsePayload adapter request = Ok payload
                        /\ str_eqb sourceName (str "slack")
                           && isUrlVerification payload = false
                        /\ (delivery_event_type adapter sourceName request
                              payload = Throw e
                            \/ exists eventType,
                                 delivery_event_type adapter sourceName
                                   request payload = Ok eventType
                                 /\ (log_event_type eventType = Throw e
                                     \/ log_event_type eventType = Ok tt
                                        /\ exists catalog,
                                             loaded = Ok catalog
                                             /\ filter_throws sourceName
                                                  eventType payload catalog
                                                  e)))).
Proof.
  unfold webhook_post.
  destruct (adapters !! sourceName) as [adapter|];
    [|split; [done | by intros (? & ? & ? & _)]].
  destruct (env !! _) as [[|c secret]|] eqn:Es; simpl.
  { split; [done | by intros (? & ? & _ & [= <-] & ? & _)]. }
  2: { split; [done | by intros (? & ? & _ & ? & _)]. }
  assert (forall P : SourceAdapter -> jstring -> Prop,
            (exists adapter' secret',
               Some adapter = Some adapter'
               /\ Some (c :: secret) = Some secret' /\ secret' <> []
               /\ P adapter' secret')
            <-> P adapter (c :: secret)) as Hex.
  { intros P. split.
    - by intros (? & ? & [= <-] & [= <-] & _ & ?).
    - intros HP. by exists adapter, (c :: secret). }
  rewrite (Hex (fun adapter secret => _ \/ _)). clear Hex.
  destruct (validate adapter now request (c :: secret)) as [[]|e'];
    simpl.
  3: { split; [intros [= ->]; by left | by intros [[= ->]|[? _]]]. }
  2: { split; [done | by intros [?|[? _]]]. }
  destruct (parsePayload adapter request) as [payload|e']; simpl.
  2: { split; [intros [= ->]; right; split; [done | by left]|].
       intros [?|[_ [[= ->]|(? & ? & _)]]]; done. }
  assert (forall P : value -> Prop,
            (Ok true = Throw e
             \/ Ok true = Ok true
                /\ (Ok payload = Throw e
                    \/ exists payload', Ok payload = Ok payload'
                                        /\ P payload'))
            <-> P payload) as Hex.
  { intros P. split.
    - by intros [?|[_ [?|(? & [= <-] & ?)]]].
    - intros HP. right. split; [done|]. right. by exists payload. }
  rewrite (Hex (fun payload => _ /\ _)). clear Hex.
  destruct (str_eqb sourceName (str "slack") && isUrlVerification payload)
    eqn:Eshake.
  { split; [done | by intros [? _]]. }
  assert (forall P : Prop, (false = false /\ P) <-> P) as Hex
    by (intros P; split; [by intros [_ ?] | done]).
  rewrite Hex. clear Hex.
  fold (delivery_event_type adapter sourceName request payload).
  destruct (delivery_event_type adapter sourceName request payload)
    as [eventType|e']; simpl.
  2: { split; [intros [= ->]; by left | by intros [[= ->]|(? & ? & _)]]. }
  assert (forall P : value -> Prop,
            (Ok eventType = Throw e
             \/ exists eventType', Ok eventType = Ok eventType'
                                   /\ P eventType')
            <-> P eventType) as Hex.
  { intros P. split.
    - by intros [?|(? & [= <-] & ?)].
    - intros HP. right. by exists eventType. }
  rewrite (Hex (fun eventType => _ \/ _)). clear Hex.
  destruct (log_event_type eventType) as [[]|e']; simpl.
  2: { split; [intros [= ->]; by left | by intros [[= ->]|[? _]]]. }
  destruct loaded as [catalog|e'].
  2: { split; [done | by intros [?|[_ (? & ? & _)]]]. }
  assert (filter_outcome (matchesWebhook sourceName eventType payload)
            catalog = Throw e
          <-> filter_throws sourceName eventType payload catalog e)
    as Hfilter.
  { rewrite filter_outcome_throw. unfold filter_throws.
    split; intros (before & a & after & Hc & Hb & Ha);
      exists before, a, after; (split; [done|]); (split; [done|]);
      by apply matchesWebhook_throw. }
  destruct (filter_outcome (matchesWebhook sourceName eventType payload)
              catalog) as [matching|e'] eqn:Ef; simpl.
  - split.
    + intros Hthrow. exfalso.
      destruct (length matching =? 0)%nat; [done|].
      destruct (executeAll_returns env matching payload)
        as (results & Hr & _).
      rewrite Hr in Hthrow. simpl in Hthrow. by destruct (0 <? _)%nat.
    + intros [?|[_ (catalog' & [= <-] & Hf)]]; [done|].
      by apply Hfilter in Hf.
  - split.
    + intros [= ->]. right. split; [done|]. exists catalog.
      split; [done|]. by apply Hfilter.
    + intros [?|[_ (catalog' & [= <-] & Hf)]]; [done|].
      apply Hfilter in Hf. congruence.
Qed.

(** A signed Slack event callback whose event is [null] makes the route
    throw, in getSlackEventType; a signed github delivery makes it throw
    in the filter, on a predicate that compares an object that has no
    primitive. *)
Lemma webhook_post_throws_witness :
  let RT := Sample.runtime_reading_callback in
  let watch :=
    Demo.ping_automation (str "a") (str "up")
      (string_array [str "payload.a == 1"]) in
  webhook_post (RT := RT) (MU := Demo.mustache) (NET := Demo.network)
    (Sample.registry RT) Sample.slack_env 1000 (Ok []) (str "slack")
    Sample.callback_request
  = Throw (JsError (str "Cannot read properties of null (reading 'type')"))
  /\ webhook_post (RT := Demo.runtime) (MU := Demo.mustache)
       (NET := Demo.network) Demo.adapters Demo.env 0 (Ok [watch])
       (str "github") Demo.unprintable_request
     = Throw (JsError (str "Cannot convert object to primitive value")).
Proof.
  intros RT watch. split; [by vm_compute|].
  apply (proj2 (webhook_post_throws (RT := Demo.runtime)
                  (MU := Demo.mustache) (NET := Demo.network)
                  Demo.adapters Demo.env 0 (Ok [watch]) (str "github")
                  Demo.unprintable_request _)).
  exists (githubAdapter (RT := Demo.runtime) (CR := Demo.crypto)),
    (str "s3cret").
  split; [by vm_compute|]. split; [by vm_compute|]. split; [done|].
  right. split; [by vm_compute|]. right. exists Demo.unprintable.
  split; [by vm_compute|]. split; [by vm_compute|]. right.
  exists (VString (str "ping")). split; [by vm_compute|]. right.
  split; [done|]. exists [watch]. split; [done|].
  exists [], watch, []. split; [done|]. split; [done|]. by vm_compute.
Defined.

(** X10.  The registry of the server holds the adapters [github] and
    [slack] only: a webhook sent to any other source, the agentmail and
    generic adapters included, is answered 400. *)
Theorem index_adapters_sources `{RT : JsRuntime} `{CR : Crypto}
    (sourceName : jstring) :
  (is_Some (index_adapters !! sourceName)
   <-> sourceName = str "github" \/ sourceName = str "slack")
  /\ (sourceName <> str "github" -> sourceName <> str "slack" ->
      forall (MU : Mustache) (NET : Network) env now loaded request,
        webhook_post index_adapters env now loaded sourceName request
        = Ok (json (ErrorBody (str "Unknown source: " ++ sourceName)) 400)).
Proof.
  assert (forall s, s <> str "github" -> s <> str "slack" ->
                    index_adapters !! s = None) as Hnone.
  { intros s Hg Hs. unfold index_adapters.
    rewrite !lookup_insert_ne by done. apply lookup_empty. }
  split.
  - split.
    + intros Hsome.
      destruct (decide (sourceName = str "github")) as [|Hg]; [by left|].
      destruct (decide (sourceName = str "slack")) as [|Hs]; [by right|].
      rewrite Hnone in Hsome by done. by destruct Hsome.
    + unfold index_adapters. intros [->| ->].
      * rewrite lookup_insert_ne by done. rewrite lookup_insert_eq.
        by eexists.
      * rewrite lookup_insert_eq. by eexists.
  - intros Hg Hs MU NET env now loaded request.
    unfold webhook_post. by rewrite Hnone.
Qed.

(** A delivery to [/webhook/agentmail] is answered 400. *)
Lemma index_adapters_sources_witness :
  webhook_post (RT := Demo.runtime) (MU := Demo.mustache)
    (NET := Demo.network)
    (index_adapters (RT := Demo.runtime) (CR := Demo.crypto)) Demo.env 0
    (Ok []) (str "agentmail") {| headers := ∅; body := str "{}" |}
  = Ok (json (ErrorBody (str "Unknown source: agentmail")) 400).
Proof.
  by apply (proj2 (index_adapters_sources (RT := Demo.runtime)
                     (CR := Demo.crypto) (str "agentmail"))).
Defined.

(** X11.  Behind the agentmail adapter every delivery has the event label
    [unknown]: getEventType answers it for every request, and the route
    reads the label of the payload for the source [slack] only.  So the
    automations that do not list the event [unknown] play no part in the
    reply. *)
Theorem agentmail_label_unknown `{RT : JsRuntime} `{MU : Mustache}
    `{NET : Network}
    (adapters : gmap jstring SourceAdapter) (env : gmap jstring jstring)
    (now : Z) (catalog : list Automation) (sourceName : jstring)
    (request : Request) :
  adapters !! sourceName = Some agentmailAdapter ->
  sourceName <> str "slack" ->
  webhook_post adapters env now (Ok catalog) sourceName request
  = webhook_post adapters env now
      (Ok (List.filter
             (fun a => bool_decide
                         (VString (str "unknown")
                          ∈ default [] (events (source a))))
             catalog))
      sourceName request.
Proof.
  intros Ha Hne. unfold webhook_post. rewrite Ha.
  destruct (truthy _); simpl; [|done].
  destruct (request_json request) as [payload|e]; simpl; [|done].
  replace (str_eqb sourceName (str "slack")) with false
    by (symmetry; by apply bool_decide_eq_false_2).
  simpl. rewrite filter_outcome_without; [done|].
  intros a Hu. unfold matchesWebhook.
  destruct (isWebhookSource _); simpl; [|done].
  destruct (str_eqb _ _); simpl; [|done].
  by rewrite array_includes_string, Hu.
Qed.

(** An agentmail automation for the event [message.received] is never
    run: the reply is that of the empty catalog. *)
Lemma agentmail_label_unknown_witness :
  let mail :=
    {| id := str "mail"; description := None;
       sprite := Demo.sprite_of (str "up");
       source := {| source_type := str "agentmail";
                    events := Some [VString (str "message.received")];
                    schedule := None |};
       match_ := VUndefined; run := str "answer" |} in
  let adapters : gmap jstring SourceAdapter :=
    <[str "agentmail" := agentmailAdapter (RT := Demo.runtime)]> ∅ in
  let env : gmap jstring jstring :=
    <[str "AGENTMAIL_WEBHOOK_SECRET" := str "key"]> Demo.env in
  webhook_post (RT := Demo.runtime) (MU := Demo.mustache)
    (NET := Demo.network) adapters env 0 (Ok [mail]) (str "agentmail")
    {| headers := ∅; body := str "{}" |}
  = Ok (json (NoMatchBody (str "No matching automations") 0) 200).
Proof.
  intros mail adapters env.
  rewrite (agentmail_label_unknown (RT := Demo.runtime)
             (MU := Demo.mustache) (NET := Demo.network) adapters env 0
             [mail] (str "agentmail") {| headers := ∅; body := str "{}" |}
             ltac:(by vm_compute) ltac:(done)).
  by vm_compute.
Defined.

(** ** The regular expressions of the match evaluator *)

Section RegexSound.
Context {A : Type}.

Lemma greedy_star_sound (p : N -> bool) (k : jstring -> option A)
    (s : jstring) (r : A) :
  greedy_star p k s = Some r ->
  exists run rest,
    s = run ++ rest /\ forallb p run = true /\ k rest = Some r.
Proof.
  induction s as [|c s IH]; simpl.
  - intros Hk. by exists [], [].
  - destruct (p c) eqn:Hc.
    + destruct (greedy_star p k s) as [r'|] eqn:E.
      * intros [= ->]. destruct (IH eq_refl) as (run & rest & -> & Hp & Hk).
        exists (c :: run), rest. simpl. by rewrite Hc.
      * intros Hk. by exists [], (c :: s).
    + intros Hk. by exists [], (c :: s).
Qed.

Lemma greedy_star_complete (p : N -> bool) (k : jstring -> option A)
    (run rest : jstring) :
  forallb p run = true -> is_Some (k rest) ->
  is_Some (greedy_star p k (run ++ rest)).
Proof.
  intros Hrun Hk. induction run as [|c run IH]; simpl.
  - destruct rest as [|c rest]; simpl; [done|].
    destruct (p c); [|done]. by destruct (greedy_star p k rest).
  - simpl in Hrun. apply andb_true_iff in Hrun as [-> Hrun].
    destruct (IH Hrun) as [r ->]. by eexists.
Qed.

Lemma lazy_plus_sound (p : N -> bool) (k : jstring -> jstring -> option A)
    (acc s : jstring) (r : A) :
  lazy_plus p k acc s = Some r ->
  exists group rest,
    s = group ++ rest /\ group <> [] /\ forallb p group = true
    /\ k (rev acc ++ group) rest = Some r.
Proof.
  revert acc; induction s as [|c s IH]; intros acc; simpl; [done|].
  destruct (p c) eqn:Hc; [|done].
  destruct (k (rev acc ++ [c]) s) as [r'|] eqn:E.
  - intros [= ->]. exists [c], s. simpl. by rewrite Hc.
  - intros Hl. destruct (IH _ Hl) as (group & rest & -> & _ & Hp & Hk).
    exists (c :: group), rest. simpl in *. rewrite Hc.
    by rewrite <- app_assoc in Hk.
Qed.

Lemma lazy_plus_complete (p : N -> bool) (k : jstring -> jstring -> option A)
    (acc group rest : jstring) :
  group <> [] -> forallb p group = true ->
  (forall g, is_Some (k g rest)) ->
  is_Some (lazy_plus p k acc (group ++ rest)).
Proof.
  intros Hne Hp Hk. revert acc.
  induction group as [|c group IH]; intros acc; [done|]. simpl in *.
  apply andb_true_iff in Hp as [-> Hp].
  destruct group as [|d group].
  - simpl. by destruct (Hk (rev acc ++ [c])) as [r ->].
  - destruct (k (rev acc ++ [c]) ((d :: group) ++ rest)) as [r|];
      [by eexists|].
    by apply IH.
Qed.

Lemma greedy_plus_sound (p : N -> bool) (k : jstring -> jstring -> option A)
    (acc s : jstring) (r : A) :
  greedy_plus p k acc s = Some r ->
  exists group rest,
    s = group ++ rest /\ group <> [] /\ forallb p group = true
    /\ k (rev acc ++ group) rest = Some r.
Proof.
  revert acc; induction s as [|c s IH]; intros acc; simpl; [done|].
  destruct (p c) eqn:Hc; [|done].
  destruct (greedy_plus p k (c :: acc) s) as [r'|] eqn:E.
  - intros [= ->]. destruct (IH _ E) as (group & rest & -> & _ & Hp & Hk).
    exists (c :: group), rest. simpl in *. rewrite Hc.
    by rewrite <- app_assoc in Hk.
  - intros Hk. exists [c], s. simpl. by rewrite Hc.
Qed.

Lemma greedy_plus_complete (p : N -> bool)
    (k : jstring -> jstring -> option A) (acc group rest : jstring) :
  group <> [] -> forallb p group = true ->
  (forall g, is_Some (k g rest)) ->
  is_Some (greedy_plus p k acc (group ++ rest)).
Proof.
  intros Hne Hp Hk. revert acc.
  induction group as [|c group IH]; intros acc; [done|]. simpl in *.
  apply andb_true_iff in Hp as [-> Hp].
  destruct group as [|d group].
  - simpl. destruct (greedy_plus p k (c :: acc) rest); [by eexists|].
    apply Hk.
  - by destruct (IH ltac:(done) Hp (c :: acc)) as [r ->].
Qed.

Lemma literal_sound (l : jstring) (k : jstring -> option A) (s : jstring)
    (r : A) :
  literal l k s = Some r -> exists rest, s = l ++ rest /\ k rest = Some r.
Proof.
  unfold literal. destruct (startsWith s l) eqn:E; [|done].
  apply startsWith_spec in E as [rest ->]. intros Hk. exists rest.
  split; [done|]. by rewrite drop_app_length in Hk.
Qed.

Lemma literal_complete (l : jstring) (k : jstring -> option A)
    (rest : jstring) :
  literal l k (l ++ rest) = k rest.
Proof.
  unfold literal.
  replace (startsWith (l ++ rest) l) with true
    by (symmetry; apply startsWith_spec; by exists rest).
  by rewrite drop_app_length.
Qed.

End RegexSound.

Lemma match_operator_sound (op expression path lit : jstring) :
  match_operator op expression = Some (path, lit) ->
  exists ws1 ws2,
    expression = path ++ ws1 ++ op ++ ws2 ++ lit
    /\ path <> [] /\ lit <> []
    /\ forallb dot path = true /\ forallb dot lit = true
    /\ forallb is_space ws1 = true /\ forallb is_space ws2 = true.
Proof.
  unfold match_operator. intros Hm.
  apply lazy_plus_sound in Hm as (g1 & r1 & -> & Hg1 & Hd1 & Hm).
  apply greedy_star_sound in Hm as (ws1 & r2 & -> & Hw1 & Hm).
  apply literal_sound in Hm as (r3 & -> & Hm).
  apply greedy_star_sound in Hm as (ws2 & r4 & -> & Hw2 & Hm).
  apply greedy_plus_sound in Hm as (g2 & r5 & -> & Hg2 & Hd2 & Hm).
  destruct r5; [|done]. simpl in Hm. injection Hm as <- <-.
  exists ws1, ws2. by rewrite app_nil_r.
Qed.

Lemma match_operator_complete (op path ws1 ws2 lit : jstring) :
  path <> [] -> lit <> [] ->
  forallb dot path = true -> forallb dot lit = true ->
  forallb is_space ws1 = true -> forallb is_space ws2 = true ->
  is_Some (match_operator op (path ++ ws1 ++ op ++ ws2 ++ lit)).
Proof.
  intros Hp Hl Hdp Hdl Hw1 Hw2. unfold match_operator.
  apply lazy_plus_complete; [done | done |]. intros g.
  apply greedy_star_complete; [done|]. rewrite literal_complete.
  apply greedy_star_complete; [done|].
  rewrite <- (app_nil_r lit).
  apply greedy_plus_complete; [done | done |]. intros g'. by eexists.
Qed.

(** X12.  The regular expression of an operator matches exactly the
    expressions of the form path, white space, operator, white space,
    literal, where path and literal are not empty and hold no line
    terminator; the two groups of a match are such a path and literal. *)
Theorem match_operator_matches (op expression : jstring) :
  (forall path lit,
     match_operator op expression = Some (path, lit) ->
     exists ws1 ws2,
       expression = path ++ ws1 ++ op ++ ws2 ++ lit
       /\ path <> [] /\ lit <> []
       /\ forallb dot path = true /\ forallb dot lit = true
       /\ forallb is_space ws1 = true /\ forallb is_space ws2 = true)
  /\ (is_Some (match_operator op expression)
      <-> exists path ws1 ws2 lit,
            expression = path ++ ws1 ++ op ++ ws2 ++ lit
            /\ path <> [] /\ lit <> []
            /\ forallb dot path = true /\ forallb dot lit = true
            /\ forallb is_space ws1 = true
            /\ forallb is_space ws2 = true).
Proof.
  split; [intros path lit; apply match_operator_sound|]. split.
  - intros [[path lit] Hm]. exists path.
    destruct (match_operator_sound _ _ _ _ Hm) as (ws1 & ws2 & H).
    by exists ws1, ws2, lit.
  - intros (path & ws1 & ws2 & lit & -> & Hp & Hl & Hdp & Hdl & Hw1 & Hw2).
    by apply match_operator_complete.
Qed.

(** An operator with nothing before it, or nothing after it, is no
    predicate. *)
Lemma match_operator_matches_witness :
  match_operator (str "==") (str "== 1") = None
  /\ match_operator (str "==") (str "payload.a == ") = Some (str "payload.a", str " ")
  /\ match_operator (str "==") (str "payload.a ==") = None
  /\ exists ws1 ws2,
       str "a  != b" = str "a" ++ ws1 ++ str "!=" ++ ws2 ++ str "b"
       /\ str "a" <> [] /\ str "b" <> []
       /\ forallb dot (str "a") = true /\ forallb dot (str "b") = true
       /\ forallb is_space ws1 = true /\ forallb is_space ws2 = true.
Proof.
  split; [by vm_compute|]. split; [by vm_compute|].
  split; [by vm_compute|].
  apply (proj1 (match_operator_matches (str "!=") (str "a  != b"))).
  by vm_compute.
Defined.

(** ** White space *)

Lemma trim_start_spaces (ws s : jstring) :
  forallb is_space ws = true -> trim_start (ws ++ s) = trim_start s.
Proof.
  induction ws as [|c ws IH]; simpl; [done|].
  intros [-> Hws]%andb_true_iff. by apply IH.
Qed.

Lemma trim_start_app (a b : jstring) :
  trim_start (a ++ b) =
  match trim_start a with
  | [] => trim_start b
  | rest => rest ++ b
  end.
Proof.
  induction a as [|c a IH]; simpl; [by destruct (trim_start b)|].
  by destruct (is_space c).
Qed.

Lemma trim_start_all_spaces (ws : jstring) :
  forallb is_space ws = true -> trim_start ws = [].
Proof.
  intros Hws. rewrite <- (app_nil_r ws). by rewrite trim_start_spaces.
Qed.

Lemma forallb_rev {A} (f : A -> bool) (l : list A) :
  forallb f (rev l) = forallb f l.
Proof.
  induction l as [|x l IH]; simpl; [done|].
  rewrite forallb_app, IH. simpl. rewrite andb_true_r. apply andb_comm.
Qed.

Lemma trim_spaces_before (ws s : jstring) :
  forallb is_space ws = true -> trim (ws ++ s) = trim s.
Proof. intros Hws. unfold trim. by rewrite trim_start_spaces. Qed.

Lemma trim_spaces_after (s ws : jstring) :
  forallb is_space ws = true -> trim (s ++ ws) = trim s.
Proof.
  intros Hws. unfold trim. rewrite trim_start_app.
  destruct (trim_start s) as [|c rest] eqn:E.
  - by rewrite (trim_start_all_spaces ws).
  - rewrite rev_app_distr. rewrite (trim_start_spaces (rev ws)); [done|].
    by rewrite forallb_rev.
Qed.

(** A string that neither starts nor ends with white space is trimmed. *)
Lemma trim_tight (c d : N) (s : jstring) :
  is_space c = false -> is_space d = false ->
  trim (c :: s ++ [d]) = c :: s ++ [d].
Proof.
  intros Hc Hd.
  assert (rev (c :: s ++ [d]) = d :: rev s ++ [c]) as E1
    by (simpl; by rewrite rev_app_distr).
  assert (rev (d :: rev s ++ [c]) = c :: s ++ [d]) as E2
    by (simpl; by rewrite rev_app_distr, rev_involutive).
  unfold trim. cbn [trim_start]. rewrite Hc, E1. cbn [trim_start].
  by rewrite Hd.
Qed.

(** ** What a predicate evaluates to *)

Lemma operator_free_inside (a b : jstring) (c : N) :
  c = 61 \/ c = 33 -> operator_free (a ++ c :: b) = false.
Proof.
  intros Hc. unfold operator_free. rewrite forallb_app. simpl.
  destruct Hc as [-> | ->]; simpl; by rewrite ?andb_false_r.
Qed.

(** In a string made of two parts without [=] and [!] around an operator,
    the operator is found in one place. *)
Lemma split_at_operator (o : N) (a b p l : jstring) :
  o = 61 \/ o = 33 ->
  operator_free p = true -> operator_free l = true ->
  a ++ [o; 61] ++ b = p ++ [o; 61] ++ l -> a = p /\ b = l.
Proof.
  intros Ho Hp Hl. revert a. induction p as [|c p IH]; intros a Heq.
  - destruct a as [|x [|y a]]; simpl in Heq.
    + by injection Heq as ->.
    + injection Heq as -> -> <-.
      pose proof (operator_free_inside [] b 61 ltac:(auto)) as Hx.
      change ([] ++ 61 :: b) with (61 :: b) in Hx. congruence.
    + injection Heq as -> -> <-.
      pose proof (operator_free_inside a (61 :: b) o Ho) as Hx.
      congruence.
  - destruct a as [|x a]; simpl in Heq.
    + injection Heq as <- _.
      pose proof (operator_free_inside [] p o Ho) as Hx.
      change ([] ++ o :: p) with (o :: p) in Hx. congruence.
    + injection Heq as -> Heq.
      assert (operator_free p = true) as Hp'.
      { unfold operator_free in *. simpl in Hp.
        by apply andb_true_iff in Hp as [_ ?]. }
      destruct (IH Hp' a Heq) as [-> ->]. done.
Qed.

Lemma includes_bang (s : jstring) :
  forallb (fun c => negb (c =? 33)) s = true ->
  includes s (str "!=") = false.
Proof.
  intros Hs. destruct (includes s (str "!=")) eqn:E; [|done].
  apply includes_spec in E as (before & after & ->).
  rewrite forallb_app in Hs. apply andb_true_iff in Hs as [_ Hs].
  by vm_compute in Hs.
Qed.

Lemma operator_free_no_bang (s : jstring) :
  operator_free s = true -> forallb (fun c => negb (c =? 33)) s = true.
Proof.
  unfold operator_free. induction s as [|c s IH]; simpl; [done|].
  intros [[_ ->]%andb_true_iff Hs]%andb_true_iff. by apply IH.
Qed.

Section PredicateFacts.
Context `{RT : JsRuntime}.

Lemma parseLiteral_trim (a b : jstring) :
  trim a = trim b -> parseLiteral a = parseLiteral b.
Proof. intros Ht. unfold parseLiteral. by rewrite Ht. Qed.

(** The groups the regular expression of an operator finds in a path and
    a literal put around the operator. *)
Lemma match_operator_around (o : N) (path lit : jstring) :
  o = 61 \/ o = 33 ->
  path <> [] -> lit <> [] ->
  forallb dot path = true -> forallb dot lit = true ->
  operator_free path = true -> operator_free lit = true ->
  exists g1 g2,
    match_operator [o; 61] (path ++ [o; 61] ++ lit) = Some (g1, g2)
    /\ trim g1 = trim path /\ parseLiteral g2 = parseLiteral lit.
Proof.
  intros Ho Hp Hl Hdp Hdl Hfp Hfl.
  destruct (match_operator_complete [o; 61] path [] [] lit)
    as [[g1 g2] Hm]; try done.
  simpl in Hm. exists g1, g2. split; [done|].
  destruct (match_operator_sound _ _ _ _ Hm)
    as (ws1 & ws2 & Heq & _ & _ & _ & _ & Hw1 & Hw2).
  symmetry in Heq. rewrite !app_assoc in Heq.
  rewrite <- (app_assoc _ ws2 g2), <- (app_assoc (g1 ++ ws1)) in Heq.
  apply (split_at_operator o (g1 ++ ws1) (ws2 ++ g2)) in Heq
    as [<- <-]; try done.
  split.
  - symmetry. by apply trim_spaces_after.
  - apply parseLiteral_trim. symmetry. by apply trim_spaces_before.
Qed.

(** A predicate made of a path and a literal without [=], [!] and line
    terminators around [==] or [!=]. *)
Lemma evaluateExpression_operator (path lit : jstring) (context : value) :
  path <> [] -> lit <> [] ->
  forallb dot path = true -> forallb dot lit = true ->
  operator_free path = true -> operator_free lit = true ->
  exists v,
    getNestedValue context (trim path) = Ok v
    /\ evaluateExpression (path ++ str "==" ++ lit) context
       = loose_eq v (parseLiteral lit)
    /\ evaluateExpression (path ++ str "!=" ++ lit) context
       = (equal ← loose_eq v (parseLiteral lit); Ok (negb equal)).
Proof.
  intros Hp Hl Hdp Hdl Hfp Hfl.
  destruct (getNestedValue_returns context (trim path)) as [v Hv].
  exists v. split; [done|]. split.
  - unfold evaluateExpression.
    assert (match_operator (str "!=") (path ++ str "==" ++ lit) = None)
      as ->.
    { destruct (match_operator _ _) as [g|] eqn:E; [|done].
      apply match_operator_includes in E.
      rewrite includes_bang in E; [done|].
      rewrite !forallb_app.
      rewrite (operator_free_no_bang path), (operator_free_no_bang lit)
        by done.
      by vm_compute. }
    destruct (match_operator_around 61 path lit) as (g1 & g2 & Hm & Ht & Hlit);
      auto.
    change (str "==") with [61; 61]. rewrite Hm, Ht, Hv, Hlit. done.
  - unfold evaluateExpression.
    destruct (match_operator_around 33 path lit) as (g1 & g2 & Hm & Ht & Hlit);
      auto.
    change (str "!=") with [33; 61]. rewrite Hm, Ht, Hv, Hlit. done.
Qed.

End PredicateFacts.

(** X13.  A predicate [path == literal], with a path and a literal that
    hold no [=], no [!] and no line terminator, does what the loose
    equality of the value the trimmed path resolves to and the parsed
    literal does: it answers what the comparison answers and throws what
    the comparison throws, and [path != literal] answers the negation.
    The comparison throws only in the conversion of an object, array or
    function to a primitive; on every other value it answers, as numbers
    unless both sides are strings. *)
Theorem evaluateExpression_compares `{RT : JsRuntime}
    (path lit : jstring) (context : value) :
  path <> [] -> lit <> [] ->
  forallb dot path = true -> forallb dot lit = true ->
  operator_free path = true -> operator_free lit = true ->
  exists v,
    getNestedValue context (trim path) = Ok v
    /\ evaluateExpression (path ++ str "==" ++ lit) context
       = loose_eq v (parseLiteral lit)
    /\ evaluateExpression (path ++ str "!=" ++ lit) context
       = (equal ← loose_eq v (parseLiteral lit); Ok (negb equal))
    /\ (forall e,
          loose_eq v (parseLiteral lit) = Throw e ->
          (composite v = true \/ typeof v = TFunction)
          /\ ToPrimitive v = Throw e)
    /\ (composite v = false -> typeof v <> TFunction ->
        loose_eq v (parseLiteral lit)
        = Ok (if is_nullish v then false
              else loose_eq_primitive v (parseLiteral lit))).
Proof.
  intros Hp Hl Hdp Hdl Hfp Hfl.
  destruct (evaluateExpression_operator path lit context)
    as (v & Hv & Heq & Hneq); try done.
  exists v. split; [done|]. split; [done|]. split; [done|]. split.
  - intros e. destruct v; simpl; try done;
      destruct (ToPrimitive _) as [p|e'] eqn:Ep; simpl; try done;
      intros [= ->]; auto.
  - intros Hc Hf. by destruct v.
Qed.

(** The number 42 of a payload against the literal [42]. *)
Lemma evaluateExpression_compares_witness :
  let context :=
    match_context (VObject [(str "number", VNumber (number_of_Z 42))]) in
  evaluateExpression (RT := Demo.runtime) (str "payload.number == 42")
    context = Ok true
  /\ evaluateExpression (RT := Demo.runtime) (str "payload.number != 42")
       context = Ok false.
Proof.
  intros context.
  destruct (evaluateExpression_compares (RT := Demo.runtime)
              (str "payload.number ") (str " 42") context
              ltac:(done) ltac:(done) ltac:(by vm_compute)
              ltac:(by vm_compute) ltac:(by vm_compute)
              ltac:(by vm_compute))
    as (v & Hv & Heq & Hneq & _).
  vm_compute in Hv. injection Hv as <-.
  change (str "payload.number == 42")
    with (str "payload.number " ++ str "==" ++ str " 42").
  change (str "payload.number != 42")
    with (str "payload.number " ++ str "!=" ++ str " 42").
  rewrite Heq, Hneq. by vm_compute.
Defined.

(** X14.  On a path that resolves to [undefined] or [null] (a field the
    payload does not have), such a predicate with [==] is false and with
    [!=] is true, whatever the literal is. *)
Theorem evaluateExpression_missing_field `{RT : JsRuntime}
    (path lit : jstring) (context v : value) :
  path <> [] -> lit <> [] ->
  forallb dot path = true -> forallb dot lit = true ->
  operator_free path = true -> operator_free lit = true ->
  getNestedValue context (trim path) = Ok v -> is_nullish v = true ->
  evaluateExpression (path ++ str "==" ++ lit) context = Ok false
  /\ evaluateExpression (path ++ str "!=" ++ lit) context = Ok true.
Proof.
  intros Hp Hl Hdp Hdl Hfp Hfl Hv Hn.
  destruct (evaluateExpression_operator path lit context)
    as (v' & Hv' & -> & ->); try done.
  assert (v' = v) as -> by congruence.
  by destruct v.
Qed.

(** A payload without the field [draft]. *)
Lemma evaluateExpression_missing_field_witness :
  let context := match_context (VObject []) in
  evaluateExpression (RT := Demo.runtime) (str "payload.draft == false")
    context = Ok false
  /\ evaluateExpression (RT := Demo.runtime) (str "payload.draft != false")
       context = Ok true.
Proof.
  intros context.
  apply (evaluateExpression_missing_field (RT := Demo.runtime)
           (str "payload.draft ") (str " false") context VUndefined);
    by vm_compute.
Defined.

(** ** Literals *)

(** X15.  A literal in double quotes or in single quotes, with white
    space around it or not, is the string between the quotes, whatever
    that string is: [true], digits or quotes between the quotes are taken
    as text. *)
Theorem parseLiteral_quoted `{RT : JsRuntime}
    (q : N) (s ws1 ws2 : jstring) :
  q = 34 \/ q = 39 ->
  forallb is_space ws1 = true -> forallb is_space ws2 = true ->
  parseLiteral (ws1 ++ [q] ++ s ++ [q] ++ ws2) = VString s.
Proof.
  intros Hq Hw1 Hw2. unfold parseLiteral.
  assert (is_space q = false) as Hsp by (by destruct Hq as [-> | ->]).
  assert (trim (ws1 ++ [q] ++ s ++ [q] ++ ws2) = q :: s ++ [q]) as ->.
  { rewrite trim_spaces_before by done.
    change ([q] ++ s ++ [q] ++ ws2) with (q :: s ++ [q] ++ ws2).
    rewrite (app_assoc s [q] ws2).
    change (q :: (s ++ [q]) ++ ws2) with ((q :: s ++ [q]) ++ ws2).
    rewrite trim_spaces_after by done. by apply trim_tight. }
  cbv zeta.
  assert (str_eqb (q :: s ++ [q]) (str "true") = false) as ->.
  { apply bool_decide_eq_false_2. intros H. vm_compute in H.
    injection H as -> _. by destruct Hq. }
  assert (str_eqb (q :: s ++ [q]) (str "false") = false) as ->.
  { apply bool_decide_eq_false_2. intros H. vm_compute in H.
    injection H as -> _. by destruct Hq. }
  assert (rev (q :: s ++ [q]) = q :: rev s ++ [q]) as Hrev
    by (simpl; by rewrite rev_app_distr).
  assert (startsWith (q :: s ++ [q]) [q] = true) as Hstart
    by (simpl; by rewrite N.eqb_refl).
  assert (endsWith (q :: s ++ [q]) [q] = true) as Hend.
  { unfold endsWith. rewrite Hrev. simpl. by rewrite N.eqb_refl. }
  assert (slice_1_m1 (q :: s ++ [q]) = s) as Hslice.
  { unfold slice_1_m1.
    replace (length (q :: s ++ [q]) - 2)%nat with (length s)
      by (simpl; rewrite length_app; simpl; lia).
    change (drop 1 (q :: s ++ [q])) with (s ++ [q]).
    apply take_app_length. }
  destruct Hq as [-> | ->].
  - rewrite Hstart, Hend. simpl. by rewrite Hslice.
  - rewrite Hstart, Hend, orb_true_r. by rewrite Hslice.
Qed.

(** The word [true] is a boolean; in quotes it is a string. *)
Lemma parseLiteral_quoted_witness :
  parseLiteral (RT := Demo.runtime) (str " true") = VBool true
  /\ parseLiteral (RT := Demo.runtime) (str " " ++ [34] ++ str "true" ++ [34] ++ [])
     = VString (str "true").
Proof.
  split; [by vm_compute|].
  apply (parseLiteral_quoted (RT := Demo.runtime) 34 (str "true")
           (str " ") []); auto.
Defined.

(** ** Lists of predicates *)

Section MatchListFacts.
Context `{RT : JsRuntime}.

(** Over callbacks that return, [every] is the conjunction of the
    booleans they return. *)
Lemma every_forallb {A} (f : A -> outcome bool) (xs : list A) :
  Forall (fun x => returns (f x)) xs ->
  every f xs
  = Ok (forallb (fun x => match f x with
                          | Ok b => b
                          | Throw _ => false
                          end) xs).
Proof.
  induction 1 as [|x xs [b Hb] _ IH]; simpl; [done|].
  rewrite Hb. simpl. rewrite IH. by destruct b.
Qed.

End MatchListFacts.

Lemma forallb_permutation {A} (f : A -> bool) (l l' : list A) :
  l ≡ₚ l' -> forallb f l = forallb f l'.
Proof.
  induction 1 as [|x l l' _ IH|x y l|l l' l'' _ IH1 _ IH2]; simpl.
  - done.
  - by rewrite IH.
  - by destruct (f x), (f y).
  - by rewrite IH1.
Qed.

(** X16.  Whether evaluateMatches answers true does not depend on the
    order of the predicates, and when no predicate throws neither does
    its answer; a list made of two lists matches exactly when both
    match. *)
Theorem evaluateMatches_order `{RT : JsRuntime} (payload : value) :
  (forall exprs exprs',
     exprs ≡ₚ exprs' ->
     (evaluateMatches (string_array exprs) payload = Ok true
      <-> evaluateMatches (string_array exprs') payload = Ok true)
     /\ (Forall (fun expr =>
                   returns (evaluateExpression expr (match_context payload)))
           exprs ->
         evaluateMatches (string_array exprs) payload
         = evaluateMatches (string_array exprs') payload))
  /\ (forall exprs1 exprs2,
        evaluateMatches (string_array (exprs1 ++ exprs2)) payload = Ok true
        <-> evaluateMatches (string_array exprs1) payload = Ok true
            /\ evaluateMatches (string_array exprs2) payload = Ok true).
Proof.
  split.
  - intros exprs exprs' Hperm. rewrite !evaluateMatches_strings. split.
    + rewrite !every_true, !Forall_forall.
      split; intros H x Hx; apply H; [by rewrite Hperm | by rewrite <- Hperm].
    + intros Hret.
      assert (Forall (fun expr =>
                        returns (evaluateExpression expr
                                   (match_context payload))) exprs')
        as Hret'.
      { rewrite Forall_forall in *. intros x Hx. apply Hret.
        by rewrite Hperm. }
      rewrite !every_forallb by done. f_equal.
      by apply forallb_permutation.
  - intros exprs1 exprs2. rewrite !evaluateMatches_strings, !every_true.
    apply Forall_app.
Qed.

(** Two predicates in both orders. *)
Lemma evaluateMatches_order_witness :
  let payload := VObject [(str "action", VString (str "opened"))] in
  evaluateMatches (RT := Demo.runtime)
    (string_array [str "payload.action == opened"; str "payload.draft == 1"])
    payload
  = evaluateMatches (RT := Demo.runtime)
      (string_array
         [str "payload.draft == 1"; str "payload.action == opened"])
      payload.
Proof.
  intros payload.
  apply (proj1 (evaluateMatches_order (RT := Demo.runtime) payload)
           [str "payload.action == opened"; str "payload.draft == 1"]
           [str "payload.draft == 1"; str "payload.action == opened"]
           ltac:(apply perm_swap)).
  repeat constructor; eexists; by vm_compute.
Defined.

(** ** Paths *)

(** X17.  Resolving [key.rest] in an object or array is resolving [rest]
    in what its property [key] holds, for a key without dot; resolving
    [key] alone gives that property.  For an object the property is the
    first own property of that name, when there is one. *)
Theorem getNestedValue_descends `{RT : JsRuntime}
    (current : value) (key rest : jstring) (v : value) :
  composite current = true ->
  forallb (fun c => negb (c =? 46)) key = true ->
  get_property current key = Ok v ->
  getNestedValue current key = Ok v
  /\ getNestedValue current (key ++ 46 :: rest) = getNestedValue v rest
  /\ (forall props x,
        current = VObject props -> own_property props key = Some x ->
        v = x).
Proof.
  intros Hc Hkey Hv. split; [|split].
  - unfold getNestedValue. rewrite split_on_key by done.
    destruct (walk_step_composite key [] current Hc) as (next & Hn & ->).
    simpl. congruence.
  - unfold getNestedValue.
    destruct (split_on_sep 46 key rest) as (first & parts & -> & ->).
    rewrite split_on_key by done.
    destruct (walk_step_composite key (first :: parts) current Hc)
      as (next & Hn & Hw).
    simpl app. rewrite Hw. congruence.
  - intros props x -> Hx. simpl in Hv. rewrite Hx in Hv. congruence.
Qed.

(** The path [payload.user.name] in the context of a payload
    [{user: {name: "ann"}}]. *)
Lemma getNestedValue_descends_witness :
  let user := VObject [(str "name", VString (str "ann"))] in
  let context := match_context (VObject [(str "user", user)]) in
  getNestedValue (RT := Demo.runtime) context (str "payload.user.name")
  = Ok (VString (str "ann")).
Proof.
  intros user context.
  destruct (getNestedValue_descends (RT := Demo.runtime) context
              (str "payload") (str "user.name")
              (VObject [(str "user", user)])
              ltac:(done) ltac:(by vm_compute) ltac:(by vm_compute))
    as (_ & Hstep & _).
  change (str "payload.user.name")
    with (str "payload" ++ 46 :: str "user.name").
  rewrite Hstep. by vm_compute.
Defined.

(** ** More on the scheduler *)

Section SchedulerMore.
Context `{CRON : NodeCron}.

Lemma stopAllCronJobs_timers (st : Scheduler) :
  scheduler_inv st -> timers (stopAllCronJobs st) = [].
Proof.
  intros Hinv. apply elem_of_nil_inv. intros t.
  unfold stopAllCronJobs. simpl. rewrite stop_all_timers.
  intros [Ht Hall]. apply (inv_timer_tracked _ Hinv) in Ht.
  apply elem_of_map_to_list in Ht. by apply Hall in Ht.
Qed.

Lemma getActiveCronJobs_elem (key : jstring) (st : Scheduler) :
  key ∈ getActiveCronJobs st <-> is_Some (scheduledTasks st !! key).
Proof.
  unfold getActiveCronJobs. rewrite list_elem_of_In, in_map_iff. split.
  - intros [[k t] [Hk Hin]]. simpl in Hk. subst k.
    apply list_elem_of_In, elem_of_map_to_list in Hin. by eexists.
  - intros [t Ht]. exists (key, t). split; [done|].
    by apply list_elem_of_In, elem_of_map_to_list.
Qed.

Lemma sync_remove_lookup_none (cronIds : gset jstring) (st : Scheduler)
    (key k : jstring) :
  scheduledTasks st !! k = None ->
  scheduledTasks (sync_remove cronIds st key) !! k = None.
Proof.
  intros Hk. unfold sync_remove. destruct (negb _); [|done].
  unfold unregisterCronJob.
  destruct (scheduledTasks st !! key); simpl; [|done].
  destruct (decide (key = k)) as [->|Hne].
  - apply lookup_delete_eq.
  - by rewrite lookup_delete_ne.
Qed.

Lemma sync_remove_stale (cronIds : gset jstring) (st : Scheduler)
    (key : jstring) :
  key ∉ cronIds -> scheduledTasks (sync_remove cronIds st key) !! key = None.
Proof.
  intros Hk. unfold sync_remove.
  rewrite bool_decide_eq_false_2 by done. simpl.
  unfold unregisterCronJob.
  destruct (scheduledTasks st !! key) eqn:E; simpl; [|done].
  apply lookup_delete_eq.
Qed.

Lemma sync_remove_all_stale (cronIds : gset jstring) (keys : list jstring)
    (st : Scheduler) (k : jstring) :
  k ∉ cronIds ->
  k ∈ keys \/ scheduledTasks st !! k = None ->
  scheduledTasks (foldl (sync_remove cronIds) st keys) !! k = None.
Proof.
  intros Hk. revert st. induction keys as [|key keys IH]; intros st Hin.
  - simpl. destruct Hin as [Hin|Hin]; [by apply elem_of_nil in Hin | done].
  - simpl. apply IH. destruct Hin as [Hin|Hin].
    + apply elem_of_cons in Hin as [->|Hin]; [|by left].
      right. by apply sync_remove_stale.
    + right. by apply sync_remove_lookup_none.
Qed.





End SchedulerMore.

(** X18.  unregisterCronJob answers true exactly when the id has a job;
    afterwards the id has no entry and no timer, and the entry and the
    timers of every other id are what they were. *)
Theorem unregisterCronJob_removes (key : jstring) (st : Scheduler) :
  scheduler_inv st ->
  (fst (unregisterCronJob key st) = true
   <-> is_Some (scheduledTasks st !! key))
  /\ scheduledTasks (snd (unregisterCronJob key st)) !! key = None
  /\ active_timers key (snd (unregisterCronJob key st)) = []
  /\ forall k, k <> key ->
       scheduledTasks (snd (unregisterCronJob key st)) !! k
       = scheduledTasks st !! k
       /\ active_timers k (snd (unregisterCronJob key st))
          = active_timers k st.
Proof.
  intros Hinv.
  assert (scheduledTasks (snd (unregisterCronJob key st)) !! key = None)
    as Hnone.
  { unfold unregisterCronJob.
    destruct (scheduledTasks st !! key) eqn:E; simpl; [|done].
    apply lookup_delete_eq. }
  split; [|split; [done|split]].
  - unfold unregisterCronJob.
    destruct (scheduledTasks st !! key); simpl.
    + split; [by eexists | done].
    + split; [done | by intros [? ?]].
  - apply active_timers_unregistered; [|done].
    by apply unregisterCronJob_inv.
  - intros k Hne. by apply unregisterCronJob_other.
Qed.

(** Two jobs, one of them unregistered. *)
Lemma unregisterCronJob_removes_witness :
  let st :=
    snd (syncCronJobs (CRON := Demo.node_cron)
           (Ok [Demo.cron_automation (str "nightly") (str "0 2 * * *");
                Demo.cron_automation (str "weekly") (str "0 2 * * *")])
           scheduler_init) in
  scheduledTasks (snd (unregisterCronJob (str "nightly") st))
    !! str "nightly" = None
  /\ active_timers (str "nightly")
       (snd (unregisterCronJob (str "nightly") st)) = []
  /\ length (active_timers (str "weekly")
               (snd (unregisterCronJob (str "nightly") st))) = 1%nat.
Proof.
  intros st.
  assert (scheduler_inv st) as Hinv.
  { apply (syncCronJobs_inv (CRON := Demo.node_cron)), scheduler_init_inv. }
  destruct (unregisterCronJob_removes (str "nightly") st Hinv)
    as (_ & Hnone & Hact & Hother).
  split; [done|]. split; [done|].
  destruct (Hother (str "weekly") ltac:(done)) as [_ ->]. by vm_compute.
Defined.

(** X19.  stopAllCronJobs leaves no job and no timer: every timer that
    runs is stopped, and getActiveCronJobs lists nothing. *)
Theorem stopAllCronJobs_stops_all (st : Scheduler) :
  scheduler_inv st ->
  timers (stopAllCronJobs st) = []
  /\ scheduledTasks (stopAllCronJobs st) = ∅
  /\ getActiveCronJobs (stopAllCronJobs st) = [].
Proof.
  intros Hinv. split; [by apply stopAllCronJobs_timers|].
  split; [done|]. unfold getActiveCronJobs, stopAllCronJobs. simpl.
  by rewrite map_to_list_empty.
Qed.

(** Two jobs, stopped. *)
Lemma stopAllCronJobs_stops_all_witness :
  let st :=
    snd (syncCronJobs (CRON := Demo.node_cron)
           (Ok [Demo.cron_automation (str "nightly") (str "0 2 * * *");
                Demo.cron_automation (str "weekly") (str "0 2 * * *")])
           scheduler_init) in
  length (timers st) = 2%nat
  /\ timers (stopAllCronJobs st) = []
  /\ scheduledTasks (stopAllCronJobs st) = ∅
  /\ getActiveCronJobs (stopAllCronJobs st) = [].
Proof.
  intros st. split; [by vm_compute|].
  apply stopAllCronJobs_stops_all.
  apply (syncCronJobs_inv (CRON := Demo.node_cron)), scheduler_init_inv.
Defined.

(** X20.  After a reconciliation, an id that is not the id of a cron
    automation of the catalog has no job and no timer: the jobs of
    automations that were deleted, or are no longer cron automations, are
    stopped. *)
Theorem syncCronJobs_removes_stale `{CRON : NodeCron}
    (catalog : list Automation) (st : Scheduler) (key : jstring) :
  scheduler_inv st ->
  key ∉ id <$> List.filter (fun a => isCronSource (source a)) catalog ->
  scheduledTasks (snd (syncCronJobs (Ok catalog) st)) !! key = None
  /\ active_timers key (snd (syncCronJobs (Ok catalog) st)) = [].
Proof.
  intros Hinv Hkey.
  assert (scheduledTasks (snd (syncCronJobs (Ok catalog) st)) !! key = None)
    as Hnone.
  { simpl. rewrite sync_register_snd.
    set (l := List.filter (fun a => isCronSource (source a)) catalog) in *.
    set (cronIds := list_to_set (map id l) : gset jstring).
    destruct (sync_remove_all cronIds (getActiveCronJobs st) st Hinv)
      as [Hinv1 _].
    destruct (register_all_other l key _ Hinv1 Hkey) as [-> _].
    apply sync_remove_all_stale.
    - unfold cronIds. by rewrite elem_of_list_to_set.
    - destruct (scheduledTasks st !! key) eqn:E; [|by right].
      left. apply getActiveCronJobs_elem. by eexists. }
  split; [done|].
  apply active_timers_unregistered; [|done]. by apply syncCronJobs_inv.
Qed.

(** A job whose automation has left the catalog. *)
Lemma syncCronJobs_removes_stale_witness :
  let st :=
    snd (syncCronJobs (CRON := Demo.node_cron)
           (Ok [Demo.cron_automation (str "nightly") (str "0 2 * * *")])
           scheduler_init) in
  length (active_timers (str "nightly") st) = 1%nat
  /\ scheduledTasks
       (snd (syncCronJobs (CRON := Demo.node_cron) (Ok []) st))
       !! str "nightly" = None
  /\ active_timers (str "nightly")
       (snd (syncCronJobs (CRON := Demo.node_cron) (Ok []) st)) = [].
Proof.
  intros st. split; [by vm_compute|].
  apply (syncCronJobs_removes_stale (CRON := Demo.node_cron) [] st).
  - apply (syncCronJobs_inv (CRON := Demo.node_cron)), scheduler_init_inv.
  - apply not_elem_of_nil.
Defined.


(** X22.  Under the invariant of the scheduler, getActiveCronJobs lists
    exactly the ids that have a timer, each of them has one timer, and
    every timer that runs fires an automation whose id is listed. *)
Theorem getActiveCronJobs_timers (st : Scheduler) :
  scheduler_inv st ->
  (forall key,
     key ∈ getActiveCronJobs st <-> length (active_timers key st) = 1%nat)
  /\ (forall key,
        key ∉ getActiveCronJobs st -> active_timers key st = [])
  /\ (forall t,
        t ∈ timers st -> id (task_automation t) ∈ getActiveCronJobs st).
Proof.
  intros Hinv.
  assert (forall key, key ∉ getActiveCronJobs st ->
                      active_timers key st = []) as Hout.
  { intros key Hk. apply active_timers_unregistered; [done|].
    destruct (scheduledTasks st !! key) eqn:E; [|done].
    destruct Hk. apply getActiveCronJobs_elem. by eexists. }
  split; [|split; [done|]].
  - intros key. split.
    + intros [task Ht]%getActiveCronJobs_elem.
      pose proof (active_timers_at_most_one key st Hinv) as Hle.
      destruct (inv_task_running _ Hinv key task Ht) as [Hin Hid].
      assert (task ∈ active_timers key st) as Hact.
      { unfold active_timers. by apply list_elem_of_filter. }
      destruct (active_timers key st) as [|t l]; [by apply elem_of_nil in Hact|].
      simpl in *. lia.
    + intros Hlen.
      destruct (decide (key ∈ getActiveCronJobs st)) as [|Hk]; [done|].
      by rewrite (Hout key Hk) in Hlen.
  - intros t Ht. apply getActiveCronJobs_elem.
    apply (inv_timer_tracked _ Hinv) in Ht. by eexists.
Qed.

(** After a reconciliation from the first state, one id is listed. *)
Lemma getActiveCronJobs_timers_witness :
  let st :=
    snd (syncCronJobs (CRON := Demo.node_cron)
           (Ok [Demo.cron_automation (str "nightly") (str "0 2 * * *")])
           scheduler_init) in
  getActiveCronJobs st = [str "nightly"]
  /\ length (active_timers (str "nightly") st) = 1%nat.
Proof.
  intros st. split; [by vm_compute|].
  assert (scheduler_inv st) as Hinv.
  { apply (syncCronJobs_inv (CRON := Demo.node_cron)), scheduler_init_inv. }
  apply (proj1 (getActiveCronJobs_timers st Hinv)).
  apply (bool_decide_unpack _). by vm_compute.
Defined.



(** ** More on the executor *)

Lemma searchParams_set_fresh (params : list (jstring * jstring))
    (key v : jstring) :
  Forall (fun kv => fst kv <> key) params ->
  searchParams_set params key v = params ++ [(key, v)].
Proof.
  induction 1 as [|[k x] params Hk _ IH]; simpl; [done|].
  unfold str_eqb. rewrite bool_decide_eq_false_2 by done. by rewrite IH.
Qed.

Ltac differ := intros Hsame; vm_compute in Hsame; discriminate Hsame.

Lemma exec_params_built (s : SpriteConfig) :
  let params := [] in
  let params := searchParams_set params (str "path") (path s) in
  let params :=
    if truthy (cmd s)
    then searchParams_set params (str "cmd") (default [] (cmd s))
    else params in
  let params :=
    if truthy (workdir s)
    then searchParams_set params (str "dir") (default [] (workdir s))
    else params in
  searchParams_set params (str "stdin") (str "true") = exec_params s.
Proof.
  unfold exec_params. cbv zeta. cbn [searchParams_set].
  destruct (truthy (cmd s)), (truthy (workdir s));
    repeat (rewrite searchParams_set_fresh;
            [|repeat constructor; simpl; differ]);
    by rewrite <- ?app_assoc.
Qed.

Section ExecutorMore.
Context `{RT : JsRuntime} `{MU : Mustache} `{NET : Network}.
Variable env : gmap jstring jstring.

(** execute, once the credential is there, the template is rendered and
    the name of the sprite encoded: the one call it sends and what it
    makes of the answer. *)
Lemma execute_call (automation : Automation) (payload : value)
    (token prompt encoded : jstring) :
  env !! str "SPRITES_TOKEN" = Some token -> token <> [] ->
  render (run automation)
    {| ctx_payload := payload; ctx_sprite := sprite automation |}
  = Ok prompt ->
  encodeURIComponent (name (sprite automation)) = Ok encoded ->
  execute env automation payload =
  match fetch {| url := SPRITES_API_BASE ++ str "/sprites/" ++ encoded
                        ++ str "/exec";
                 searchParams := exec_params (sprite automation);
                 authorization := str "Bearer " ++ token;
                 content_type := str "text/plain; charset=utf-8";
                 request_body := prompt |} with
  | Ok response =>
      if ok response
      then Ok {| automationId := id automation; success := true;
                 error := None |}
      else match text response with
           | Ok errorText =>
               Ok {| automationId := id automation; success := false;
                     error := Some (str "Sprites API error: "
                                    ++ decimal (status response)
                                    ++ str " - " ++ errorText) |}
           | Throw (JsError m) =>
               Ok {| automationId := id automation; success := false;
                     error := Some m |}
           end
  | Throw (JsError m) =>
      Ok {| automationId := id automation; success := false;
            error := Some m |}
  end.
Proof.
  intros Htoken Hne Hrender Hencode. unfold execute.
  rewrite Htoken. destruct token as [|c token]; [done|].
  cbn [truthy negb default]. cbv iota. rewrite Hrender. cbn [mbind outcome_bind].
  rewrite Hencode. cbn [mbind outcome_bind].
  rewrite (exec_params_built (sprite automation)).
  destruct (fetch _) as [response|[m]]; simpl; [|done].
  destruct (ok response); simpl; [done|].
  by destruct (text response) as [errorText|[m]].
Qed.

End ExecutorMore.

(** X24.  A result of execute is a success exactly when it carries no
    error: every failure comes with its detail, and a success with
    none. *)
Theorem execute_error_detail `{RT : JsRuntime} `{MU : Mustache}
    `{NET : Network} (env : gmap jstring jstring) (automation : Automation)
    (payload : value) (result : ExecutionResult) :
  execute env automation payload = Ok result ->
  (success result = true <-> error result = None).
Proof.
  unfold execute. destruct (truthy (env !! str "SPRITES_TOKEN")); simpl.
  2: { by intros [= <-]. }
  destruct (render _ _) as [prompt|[m]]; simpl; [|by intros [= <-]].
  destruct (encodeURIComponent _) as [encoded|[m]]; simpl;
    [|by intros [= <-]].
  destruct (fetch _) as [response|[m]]; simpl; [|by intros [= <-]].
  destruct (ok response); simpl; [by intros [= <-]|].
  destruct (text response) as [errorText|[m]]; simpl; by intros [= <-].
Qed.

(** The result of a call to a sprite that is down. *)
Lemma execute_error_detail_witness :
  let down := Demo.ping_automation (str "b") (str "down") VUndefined in
  let result :=
    {| automationId := str "b"; success := false;
       error := Some (str "Sprites API error: 503 - unavailable") |} in
  execute (RT := Demo.runtime) (MU := Demo.mustache) (NET := Demo.network)
    Demo.env down VUndefined = Ok result
  /\ (success result = true <-> error result = None).
Proof.
  intros down result.
  assert (execute (RT := Demo.runtime) (MU := Demo.mustache)
            (NET := Demo.network) Demo.env down VUndefined = Ok result)
    as Hr by (by vm_compute).
  split; [done|].
  exact (execute_error_detail (RT := Demo.runtime) (MU := Demo.mustache)
           (NET := Demo.network) Demo.env down VUndefined result Hr).
Defined.

(** X25.  With the credential set, the template rendered and the name of
    the sprite encoded, execute sends one call: to the exec URL of the
    sprite, with the search parameters [path], then [cmd] and [dir] when
    the sprite has them, then [stdin=true], the bearer credential and the
    prompt as body.  An answer with a success status gives a success; any
    other answer a failure that names the status and the text of the
    answer; a call that throws a failure with the message thrown. *)
Theorem execute_sends `{RT : JsRuntime} `{MU : Mustache} `{NET : Network}
    (env : gmap jstring jstring) (automation : Automation) (payload : value)
    (token prompt encoded : jstring) :
  env !! str "SPRITES_TOKEN" = Some token -> token <> [] ->
  render (run automation)
    {| ctx_payload := payload; ctx_sprite := sprite automation |}
  = Ok prompt ->
  encodeURIComponent (name (sprite automation)) = Ok encoded ->
  let request :=
    {| url := SPRITES_API_BASE ++ str "/sprites/" ++ encoded ++ str "/exec";
       searchParams := exec_params (sprite automation);
       authorization := str "Bearer " ++ token;
       content_type := str "text/plain; charset=utf-8";
       request_body := prompt |} in
  (forall response,
     fetch request = Ok response -> ok response = true ->
     execute env automation payload
     = Ok {| automationId := id automation; success := true;
             error := None |})
  /\ (forall response errorText,
        fetch request = Ok response -> ok response = false ->
        text response = Ok errorText ->
        execute env automation payload
        = Ok {| automationId := id automation; success := false;
                error := Some (str "Sprites API error: "
                               ++ decimal (status response)
                               ++ str " - " ++ errorText) |})
  /\ (forall m,
        fetch request = Throw (JsError m) ->
        execute env automation payload
        = Ok {| automationId := id automation; success := false;
                error := Some m |}).
Proof.
  intros Htoken Hne Hrender Hencode request.
  pose proof (execute_call env automation payload token prompt encoded
                Htoken Hne Hrender Hencode) as Hcall.
  fold request in Hcall. split; [|split].
  - intros response Hf Hok. by rewrite Hcall, Hf, Hok.
  - intros response errorText Hf Hok Htext.
    by rewrite Hcall, Hf, Hok, Htext.
  - intros m Hf. by rewrite Hcall, Hf.
Qed.

(** The call for a sprite with a working directory and no arguments. *)
Lemma execute_sends_witness :
  let a :=
    {| id := str "a"; description := None;
       sprite := {| name := str "down"; path := str "claude"; cmd := Some [];
                    workdir := Some (str "/home/user/repo") |};
       source := {| source_type := str "github"; events := Some [VString (str "ping")];
                    schedule := None |};
       match_ := VUndefined; run := str "hello" |} in
  exec_params (sprite a)
  = [(str "path", str "claude"); (str "dir", str "/home/user/repo");
     (str "stdin", str "true")]
  /\ execute (RT := Demo.runtime) (MU := Demo.mustache)
       (NET := Demo.network) Demo.env a VUndefined
     = Ok {| automationId := str "a"; success := false;
             error := Some (str "Sprites API error: 503 - unavailable") |}.
Proof.
  intros a. split; [by vm_compute|].
  destruct (execute_sends (RT := Demo.runtime) (MU := Demo.mustache)
              (NET := Demo.network) Demo.env a VUndefined (str "token")
              (str "hello") (str "down")
              ltac:(by vm_compute) ltac:(done) ltac:(by vm_compute)
              ltac:(by vm_compute))
    as (_ & Hfail & _).
  apply (Hfail {| ok := false; status := 503;
                  text := Ok (str "unavailable") |} (str "unavailable"));
    by vm_compute.
Defined.

(** ** Storage *)

Section ParseFacts.
Context `{RT : JsRuntime} `{YA : Yaml}.

Lemma get_property_read (v : value) (key : jstring) (x : value) :
  get_property v key = Ok x -> read v key = x.
Proof. intros Hx. unfold read. by rewrite Hx. Qed.

End ParseFacts.

(** What a document has once parseAutomationYaml has accepted it. *)
Lemma parseAutomationYaml_checks `{RT : JsRuntime} `{YA : Yaml}
    (yamlContent : jstring) (doc : value) :
  parseAutomationYaml yamlContent = Ok doc ->
  YAML_parse yamlContent = Ok doc
  /\ is_nullish doc = false
  /\ (exists s, read doc (str "id") = VString s /\ s <> [])
  /\ to_boolean (read (read doc (str "sprite")) (str "name")) = true
  /\ to_boolean (read (read doc (str "source")) (str "type")) = true
  /\ (if strict_eq_string (read (read doc (str "source")) (str "type"))
            (str "cron")
      then to_boolean (read (read doc (str "source")) (str "schedule"))
           = true
      else is_array (read (read doc (str "source")) (str "events")) = true)
  /\ (exists s, read doc (str "run") = VString s /\ s <> []).
Proof.
  unfold parseAutomationYaml.
  destruct (YAML_parse yamlContent) as [automation|e]; simpl; [|done].
  destruct (get_property automation (str "id")) as [aid|e] eqn:Eid;
    simpl; [|done].
  apply get_property_read in Eid as Hid.
  destruct (to_boolean aid) eqn:Tid; simpl; [|done].
  destruct (is_string aid) eqn:Sid; simpl; [|done].
  destruct (get_property automation (str "sprite")) as [asprite|e]
    eqn:Esprite; simpl; [|done].
  apply get_property_read in Esprite as Hsprite.
  unfold or_else.
  destruct (to_boolean asprite) eqn:Tsprite; simpl; [|done].
  destruct (get_property asprite (str "name")) as [sname|e] eqn:Ename;
    simpl; [|done].
  apply get_property_read in Ename as Hname.
  destruct (to_boolean sname) eqn:Tname; simpl; [|done].
  destruct (get_property automation (str "source")) as [asource|e]
    eqn:Esource; simpl; [|done].
  apply get_property_read in Esource as Hsource.
  destruct (to_boolean asource) eqn:Tsource; simpl; [|done].
  destruct (get_property asource (str "type")) as [stype|e] eqn:Etype;
    simpl; [|done].
  apply get_property_read in Etype as Htype.
  destruct (to_boolean stype) eqn:Ttype; simpl; [|done].
  intros Hrest.
  assert (is_nullish automation = false) as Hnn.
  { destruct automation; try done; by simpl in Eid. }
  assert (exists s, aid = VString s /\ s <> []) as Hstring.
  { destruct aid; try done. eexists. split; [done|].
    simpl in Tid. intros ->. done. }
  assert ((if strict_eq_string stype (str "cron")
           then to_boolean (read asource (str "schedule")) = true
           else is_array (read asource (str "events")) = true)
          /\ exists arun,
               get_property automation (str "run") = Ok arun
               /\ to_boolean arun = true /\ is_string arun = true
               /\ doc = automation) as [Hshape Hrun].
  { destruct (strict_eq_string stype (str "cron")).
    - destruct (in_operator (str "schedule") asource) as [[]|e]; simpl in *;
        try done.
      destruct (get_property asource (str "schedule")) as [sched|e] eqn:Es;
        simpl in *; [|done].
      apply get_property_read in Es as ->.
      destruct (to_boolean sched); simpl in *; [|done].
      split; [done|].
      destruct (get_property automation (str "run")) as [arun|e] eqn:Er;
        simpl in Hrest; [|done].
      destruct (to_boolean arun) eqn:Tr; simpl in Hrest; [|done].
      destruct (is_string arun) eqn:Sr; simpl in Hrest; [|done].
      exists arun. by injection Hrest as <-.
    - destruct (in_operator (str "events") asource) as [[]|e]; simpl in *;
        try done.
      destruct (get_property asource (str "events")) as [evs|e] eqn:Es;
        simpl in *; [|done].
      apply get_property_read in Es as ->.
      destruct (is_array evs); simpl in *; [|done].
      split; [done|].
      destruct (get_property automation (str "run")) as [arun|e] eqn:Er;
        simpl in Hrest; [|done].
      destruct (to_boolean arun) eqn:Tr; simpl in Hrest; [|done].
      destruct (is_string arun) eqn:Sr; simpl in Hrest; [|done].
      exists arun. by injection Hrest as <-. }
  destruct Hrun as (arun & Erun & Trun & Srun & ->).
  apply get_property_read in Erun as Hrun.
  rewrite Hid, Hsprite, Hname, Hsource, Htype, Hrun.
  repeat split; try done.
  destruct arun; try done. eexists. split; [done|].
  simpl in Trun. intros ->. done.
Qed.

(** X26.  A text parseAutomationYaml accepts is returned as the parsed
    document, and the document has a non-empty string [id], a
    [sprite.name] and a [source.type] that are not falsy, a
    [source.schedule] that is not falsy when the type is [cron] and an
    array [source.events] otherwise, and a non-empty string [run].  A
    document that is [null] is refused.  Nothing else is checked:
    [sprite.path] may be missing and the schedule need not be a cron
    expression. *)
Theorem parseAutomationYaml_accepts `{RT : JsRuntime} `{YA : Yaml}
    (yamlContent : jstring) (doc : value) :
  parseAutomationYaml yamlContent = Ok doc ->
  YAML_parse yamlContent = Ok doc
  /\ is_nullish doc = false
  /\ (exists s, read doc (str "id") = VString s /\ s <> [])
  /\ to_boolean (read (read doc (str "sprite")) (str "name")) = true
  /\ to_boolean (read (read doc (str "source")) (str "type")) = true
  /\ (if strict_eq_string (read (read doc (str "source")) (str "type"))
            (str "cron")
      then to_boolean (read (read doc (str "source")) (str "schedule"))
           = true
      else is_array (read (read doc (str "source")) (str "events")) = true)
  /\ (exists s, read doc (str "run") = VString s /\ s <> []).
Proof. apply parseAutomationYaml_checks. Qed.

(** A document without executable and with the schedule [soon] is
    accepted; the empty document is refused. *)
Lemma parseAutomationYaml_accepts_witness :
  parseAutomationYaml (RT := Demo.runtime)
    (YA := Sample.yaml_reading Sample.loose_document) (str "id: nightly")
  = Ok Sample.loose_document
  /\ (exists e,
        parseAutomationYaml (RT := Demo.runtime)
          (YA := Sample.yaml_reading Sample.loose_document) (str "null")
        = Throw e)
  /\ to_boolean (read (RT := Demo.runtime)
                   (read (RT := Demo.runtime) Sample.loose_document
                      (str "source")) (str "schedule")) = true.
Proof.
  assert (parseAutomationYaml (RT := Demo.runtime)
            (YA := Sample.yaml_reading Sample.loose_document)
            (str "id: nightly") = Ok Sample.loose_document) as Hok
    by (by vm_compute).
  split; [done|]. split; [eexists; vm_compute; reflexivity|].
  destruct (parseAutomationYaml_accepts (RT := Demo.runtime)
              (YA := Sample.yaml_reading Sample.loose_document)
              (str "id: nightly") Sample.loose_document Hok)
    as (_ & _ & _ & _ & _ & Hshape & _).
  exact Hshape.
Defined.

Lemma strip_automation_prefix_key (automation_id : jstring) :
  strip_automation_prefix (automationKey automation_id) = automation_id.
Proof.
  unfold strip_automation_prefix, automationKey.
  replace (startsWith (str "automation:" ++ automation_id)
             (str "automation:")) with true
    by (symmetry; apply startsWith_spec; by eexists).
  apply drop_app_length.
Qed.

Section StorageFacts.
Context `{RT : JsRuntime} `{YA : Yaml} `{KV : KVService}.
Variable env : gmap jstring jstring.
Variable as_Automation : value -> Automation.

Lemma list_pages_serves (config : KVConfig) (cursor : option jstring)
    (pages : list KVListResponse) :
  serves config cursor pages ->
  forall turns ids,
    (length pages <= turns)%nat ->
    list_pages turns config cursor ids
    = Finished (Ok (ids ++ concat (map page_ids pages))).
Proof.
  induction 1 as [cursor url response data Hu Hf Hok Hj Hs Hc
                 |cursor url response data pages Hu Hf Hok Hj Hs Hc _ IH];
    intros [|turns] ids Hlen; simpl in Hlen; try lia.
  - cbn [list_pages]. rewrite Hu, Hf, Hok, Hj, Hs, Hc. simpl.
    by rewrite app_nil_r.
  - cbn [list_pages]. rewrite Hu, Hf, Hok, Hj, Hs, Hc. simpl.
    rewrite IH by lia. by rewrite app_assoc.
Qed.

Lemma load_each_found (ids : list jstring) (docs : list value) :
  Forall2 (fun automation_id doc => getAutomation env automation_id = Ok doc)
    ids docs ->
  load_each env as_Automation ids
  = Ok (map as_Automation (List.filter to_boolean docs)).
Proof.
  induction 1 as [|automation_id doc ids docs Hdoc _ IH]; simpl; [done|].
  rewrite Hdoc. simpl. rewrite IH. simpl. by destruct (to_boolean doc).
Qed.

Lemma load_each_fails (before after : list jstring) (automation_id : jstring)
    (e : exn) :
  Forall (fun x => returns (getAutomation env x)) before ->
  getAutomation env automation_id = Throw e ->
  load_each env as_Automation (before ++ automation_id :: after) = Throw e.
Proof.
  intros Hbefore Hthrow. induction Hbefore as [|x before [doc Hx] _ IH];
    simpl.
  - by rewrite Hthrow.
  - rewrite Hx. simpl. by rewrite IH.
Qed.

End StorageFacts.

(** X27.  listAutomationIds follows the cursors of the store: when the
    store serves the listing in pages, each a success whose cursor leads
    to the next and the last without cursor, enough turns of the loop
    return the ids of all pages in their order, each id the name of a key
    without its prefix [automation:]; the id of the key of an automation
    is its id. *)
Theorem listAutomationIds_pages `{RT : JsRuntime} `{KV : KVService}
    (env : gmap jstring jstring) (config : KVConfig)
    (pages : list KVListResponse) (turns : nat) :
  getConfig env = Ok config ->
  serves config None pages ->
  (length pages <= turns)%nat ->
  listAutomationIds env turns = Finished (Ok (concat (map page_ids pages)))
  /\ forall automation_id,
       strip_automation_prefix (automationKey automation_id)
       = automation_id.
Proof.
  intros Hconfig Hserves Hturns.
  split; [|apply strip_automation_prefix_key].
  unfold listAutomationIds. rewrite Hconfig.
  by rewrite (list_pages_serves config None pages Hserves).
Qed.

(** The store of the example lists its three keys in two turns. *)
Lemma listAutomationIds_pages_witness :
  listAutomationIds (RT := Demo.runtime) (KV := Sample.store)
    Sample.kv_env 2
  = Finished (Ok [str "nightly"; str "gone"; str "weekly"]).
Proof.
  pose (config := {| accountId := str "acct"; apiToken := str "tok";
                     namespaceId := str "ns" |}).
  pose (first_page :=
          {| list_success := true; list_errors := [];
             list_result := map Build_KVKey [str "automation:nightly";
                                             str "automation:gone"];
             list_cursor := Some (str "next") |}).
  pose (last_page :=
          {| list_success := true; list_errors := [];
             list_result := map Build_KVKey [str "automation:weekly"];
             list_cursor := None |}).
  assert (serves (RT := Demo.runtime) (KV := Sample.store) config None
            [first_page; last_page]) as Hserves.
  { eapply serves_more; [reflexivity | by vm_compute | done | done | done
                        | done |].
    eapply serves_last; [reflexivity | by vm_compute | done | done | done
                        | done]. }
  destruct (listAutomationIds_pages (RT := Demo.runtime)
              (KV := Sample.store) Sample.kv_env config
              [first_page; last_page] 2
              ltac:(by vm_compute) Hserves ltac:(done)) as [-> _].
  by vm_compute.
Defined.

(** X28.  loadAllAutomations reads the automations in the order of the
    listed ids and leaves out the ids whose value is gone or is an empty
    document; when reading one id fails it throws that failure and
    returns no automation at all. *)
Theorem loadAllAutomations_collects `{RT : JsRuntime} `{YA : Yaml}
    `{KV : KVService} (env : gmap jstring jstring)
    (as_Automation : value -> Automation) (turns : nat)
    (ids : list jstring) :
  listAutomationIds env turns = Finished (Ok ids) ->
  (forall docs,
     Forall2 (fun automation_id doc =>
                getAutomation env automation_id = Ok doc) ids docs ->
     loadAllAutomations env as_Automation turns
     = Finished (Ok (map as_Automation (List.filter to_boolean docs))))
  /\ (forall before automation_id after e,
        ids = before ++ automation_id :: after ->
        Forall (fun x => returns (getAutomation env x)) before ->
        getAutomation env automation_id = Throw e ->
        loadAllAutomations env as_Automation turns = Finished (Throw e)).
Proof.
  intros Hids. unfold loadAllAutomations. rewrite Hids. split.
  - intros docs Hdocs. f_equal. by apply load_each_found.
  - intros before automation_id after e -> Hbefore Hthrow. f_equal.
    by apply load_each_fails.
Qed.

(** Three ids are listed, the value of one is gone: two automations. *)
Lemma loadAllAutomations_collects_witness :
  let doc := VObject [(str "id", VString (str "kept"))] in
  loadAllAutomations (RT := Demo.runtime) (YA := Sample.yaml_reading doc)
    (KV := Sample.store) Sample.kv_env Sample.cast 2
  = Finished
      (Ok [Demo.cron_automation (str "kept") (str "0 2 * * *");
           Demo.cron_automation (str "kept") (str "0 2 * * *")]).
Proof.
  intros doc.
  destruct (loadAllAutomations_collects (RT := Demo.runtime)
              (YA := Sample.yaml_reading doc) (KV := Sample.store)
              Sample.kv_env Sample.cast 2
              [str "nightly"; str "gone"; str "weekly"]
              ltac:(by vm_compute)) as [Hfound _].
  rewrite (Hfound [doc; VNull; doc]); [by vm_compute|].
  repeat constructor; by vm_compute.
Defined.

(** ** Administration *)

Lemma admin_guard_refusal (env : gmap jstring jstring) (request : Request)
    (refusal : AdminReply) :
  admin_guard env request = Some refusal ->
  admin_status refusal = 500 \/ admin_status refusal = 401.
Proof.
  unfold admin_guard.
  destruct (negb (truthy (env !! str "ADMIN_TOKEN")));
    [intros [= <-]; by left|].
  destruct (negb _ || _); [|done]. intros [= <-]. by right.
Qed.

(** X29.  The middleware of the admin routes lets a request through
    exactly when ADMIN_TOKEN is configured, not empty, and the
    X-Admin-Token header of the request is that token; without a
    configured token every request is answered 500, and every other
    request 401. *)
Theorem admin_guard_lets_through (env : gmap jstring jstring)
    (request : Request) :
  (admin_guard env request = None
   <-> exists token,
         env !! str "ADMIN_TOKEN" = Some token /\ token <> []
         /\ headers_get request (str "X-Admin-Token") = Some token)
  /\ (truthy (env !! str "ADMIN_TOKEN") = false ->
      admin_guard env request
      = Some {| admin_status := 500;
                admin_body := AdminError (str "Admin token not configured") |})
  /\ (forall refusal,
        admin_guard env request = Some refusal ->
        admin_status refusal = 500 \/ admin_status refusal = 401).
Proof.
  split; [|split; [|apply admin_guard_refusal]].
  - unfold admin_guard.
    destruct (env !! str "ADMIN_TOKEN") as [[|c token]|] eqn:Et; simpl.
    + split; [done|]. by intros (t & [= <-] & ? & _).
    + destruct (headers_get request (str "X-Admin-Token"))
        as [[|d provided]|] eqn:Eh; simpl.
      * split; [done|]. by intros (t & [= <-] & _ & [=]).
      * case_bool_decide as Heq; simpl.
        -- split; [|done]. intros _. exists (c :: token).
           by injection Heq as -> ->.
        -- split; [done|]. intros (t & [= <-] & _ & Hh). by destruct Heq.
      * split; [done|]. by intros (t & _ & _ & ?).
    + split; [done|]. by intros (t & ? & _).
  - unfold admin_guard. by intros ->.
Qed.

(** A request with the token, and one with another token. *)
Lemma admin_guard_lets_through_witness :
  admin_guard Sample.kv_env
    {| headers := <[str "x-admin-token" := str "admin"]> ∅; body := [] |}
  = None
  /\ admin_guard Sample.kv_env
       {| headers := <[str "x-admin-token" := str "guess"]> ∅; body := [] |}
     = Some {| admin_status := 401;
               admin_body := AdminError (str "Unauthorized") |}.
Proof.
  split; [|by vm_compute].
  apply (proj1 (admin_guard_lets_through Sample.kv_env _)).
  exists (str "admin"). by vm_compute.
Defined.

(** X30.  The handler of POST /admin/automations never throws.  It
    answers 200 exactly when the request passes the middleware, its body
    is a document parseAutomationYaml accepts and putAutomation stores the
    body under the id of the document; the reply then names that id.  A
    document that is refused and a failure of the store are both answered
    400 with the message of the error. *)
Theorem admin_post_automation_replies `{RT : JsRuntime} `{YA : Yaml}
    `{KV : KVService} (env : gmap jstring jstring) (request : Request) :
  exists reply,
    admin_post_automation env request = Ok reply
    /\ (admin_status reply = 200
        <-> admin_guard env request = None
            /\ exists doc automation_id,
                 parseAutomationYaml (body request) = Ok doc
                 /\ read doc (str "id") = VString automation_id
                 /\ putAutomation env automation_id (body request) = Ok tt
                 /\ admin_body reply
                    = AdminStored automation_id
                        (str "Automation created/updated"))
    /\ (admin_guard env request = None ->
        forall message,
          (parseAutomationYaml (body request) = Throw (JsError message)
           \/ exists doc automation_id,
                parseAutomationYaml (body request) = Ok doc
                /\ read doc (str "id") = VString automation_id
                /\ putAutomation env automation_id (body request)
                   = Throw (JsError message)) ->
          reply = {| admin_status := 400;
                     admin_body := AdminError message |}).
Proof.
  unfold admin_post_automation.
  destruct (admin_guard env request) as [refusal|] eqn:Eg.
  { exists refusal. split; [done|]. split; [|done].
    split; [|by intros [? _]]. intros H200.
    destruct (admin_guard_refusal env request refusal Eg) as [H|H];
      rewrite H in H200; done. }
  destruct (parseAutomationYaml (body request)) as [doc|[m]] eqn:Ep; simpl.
  2: { eexists. split; [done|]. split.
       - split; [done|]. by intros (_ & d & i & ? & _).
       - intros _ message [[= ->]|(d & i & ? & _)]; done. }
  destruct (parseAutomationYaml_checks _ _ Ep)
    as (_ & _ & (s & Hs & _) & _).
  rewrite Hs.
  destruct (putAutomation env s (body request)) as [[]|[m]] eqn:Eput; simpl.
  - eexists. split; [done|]. split.
    + split; [|done]. intros _. split; [done|]. by exists doc, s.
    + intros _ message [?|(d & i & [= <-] & Hi & Hput)]; [done|].
      rewrite Hs in Hi. injection Hi as <-. congruence.
  - eexists. split; [done|]. split.
    + split; [done|]. intros (_ & d & i & [= <-] & Hi & Hput & _).
      rewrite Hs in Hi. injection Hi as <-. congruence.
    + intros _ message [?|(d & i & [= <-] & Hi & Hput)]; [done|].
      rewrite Hs in Hi. injection Hi as <-. congruence.
Qed.
